(** * Verification of [programming/utils.py]

    A shallow embedding of the one-based-indexing rewriter
    ([OneBasedIndexingTransformer]), of the call extractor and substitutor
    ([extract_calls], [sub_calls]), of [remove_docstrings] and of the
    program assembler and evaluator, together with the fragment of Python's
    expression semantics needed to run what the rewriter emits.

    Part I holds the definitions, Part II the theorems. *)

From Stdlib Require Import String Ascii List ZArith Bool Arith Lia.
Import ListNotations.

Local Open Scope Z_scope.

(* ================================================================= *)
(** * Part I: definitions *)
(* ================================================================= *)

(** ** Results of fallible computations *)

(** The Python exceptions that the code under study raises or that the
    rewritten programs raise at run time. *)
Inductive exn : Type :=
| AssertionError
| ZeroDivisionError
| IndexError
| KeyError
| TypeError
| ValueError
| NameError
| AttributeError
| UnboundLocalError.

(** A computation returns, raises, runs out of the fuel a loop or a call
    was given, or leaves the fragment of Python that is modelled here. *)
Inductive res (A : Type) : Type :=
| Ok (a : A)
| Raise (e : exn)
| OutOfFuel
| Unmodelled.

Arguments Ok {A} a.
Arguments Raise {A} e.
Arguments OutOfFuel {A}.
Arguments Unmodelled {A}.

Definition bind {A B : Type} (m : res A) (k : A -> res B) : res B :=
  match m with
  | Ok a => k a
  | Raise e => Raise e
  | OutOfFuel => OutOfFuel
  | Unmodelled => Unmodelled
  end.

Declare Scope res_scope.
Delimit Scope res_scope with res.
Notation "x <- m ;; k" := (bind m (fun x => k))
  (at level 61, m at next level, right associativity) : res_scope.
Notation "' p <- m ;; k" := (bind m (fun x => match x with p => k end))
  (at level 61, p pattern, m at next level, right associativity) : res_scope.

(** [assert c] of Python: nothing happens when [c] holds. *)
Definition assert (c : bool) : res unit :=
  if c then Ok tt else Raise AssertionError.

(** ** Python sequences: indexing and slicing *)

Section Sequences.

Context {A : Type}.

(** [s[i]] on a list, tuple or string: a negative index counts from the
    end, an index out of range raises [IndexError]. *)
Definition py_index (s : list A) (i : Z) : res A :=
  let len := Z.of_nat (length s) in
  let i' := if i <? 0 then i + len else i in
  if (i' <? 0) || (len <=? i') then Raise IndexError
  else match nth_error s (Z.to_nat i') with
       | Some x => Ok x
       | None => Raise IndexError
       end.

(** A bound of a slice, brought into range for a sequence of length [len]
    and a stride [step] (CPython's [PySlice_AdjustIndices]). *)
Definition clamp (len step i : Z) : Z :=
  if i <? 0 then
    let i' := i + len in
    if i' <? 0 then (if step <? 0 then -1 else 0) else i'
  else if len <=? i then (if step <? 0 then len - 1 else len)
  else i.

Definition slice_start (len step : Z) (lo : option Z) : Z :=
  match lo with
  | None => if step <? 0 then len - 1 else 0
  | Some i => clamp len step i
  end.

Definition slice_stop (len step : Z) (hi : option Z) : Z :=
  match hi with
  | None => if step <? 0 then -1 else len
  | Some i => clamp len step i
  end.

Definition slice_length (start stop step : Z) : Z :=
  if step <? 0 then
    if stop <? start then (start - stop - 1) / (- step) + 1 else 0
  else
    if start <? stop then (stop - start - 1) / step + 1 else 0.

Fixpoint slice_items (s : list A) (i step : Z) (n : nat) : list A :=
  match n with
  | O => []
  | S n' =>
      match nth_error s (Z.to_nat i) with
      | Some x => x :: slice_items s (i + step) step n'
      | None => []
      end
  end.

(** [s[lo:hi:step]]; an absent component is [None]; a zero stride raises
    [ValueError]. *)
Definition py_slice (s : list A) (lo hi step : option Z) : res (list A) :=
  let st := match step with None => 1 | Some k => k end in
  if st =? 0 then Raise ValueError
  else
    let len := Z.of_nat (length s) in
    let start := slice_start len st lo in
    let stop := slice_stop len st hi in
    Ok (slice_items s start st (Z.to_nat (slice_length start stop st))).

End Sequences.

(** ** Python text *)

(** Program text and Python [str] values are sequences of characters, so
    that indexing and slicing are those of every other sequence. *)
Definition text : Type := list ascii.

Definition str (s : string) : text := list_ascii_of_string s.

Definition dquote : ascii := ascii_of_nat 34.
Definition squote : ascii := ascii_of_nat 39.
Definition newline : ascii := ascii_of_nat 10.
Definition lparen : ascii := ascii_of_nat 40.
Definition rparen : ascii := ascii_of_nat 41.
Definition lbracket : ascii := ascii_of_nat 91.
Definition rbracket : ascii := ascii_of_nat 93.

Fixpoint text_eqb (a b : text) : bool :=
  match a, b with
  | [], [] => true
  | x :: a', y :: b' => Ascii.eqb x y && text_eqb a' b'
  | _, _ => false
  end.

(** [s.startswith(p)] *)
Fixpoint startswith (p s : text) : bool :=
  match p, s with
  | [], _ => true
  | a :: p', b :: s' => Ascii.eqb a b && startswith p' s'
  | _ :: _, [] => false
  end.

(** The least position [>= i] at which [sub] starts, [s] being the text
    from position [i] on. *)
Fixpoint find_at (sub s : text) (i : nat) : option nat :=
  if startswith sub s then Some i
  else match s with
       | [] => None
       | _ :: s' => find_at sub s' (S i)
       end.

(** [s.find(sub, start)], with [None] for Python's [-1]. *)
Definition find (sub s : text) (start : nat) : option nat :=
  if (length s <? start)%nat then None
  else find_at sub (skipn start s) start.

(** [sub in s] *)
Definition contains (sub s : text) : bool :=
  match find sub s 0 with Some _ => true | None => false end.

(** [s.split(sep)] for a non-empty [sep]: the text is cut at the
    occurrences of [sep] found from left to right without overlap.  [skip]
    counts the characters of a separator that are still to be passed over,
    [cur] is the segment being read. *)
Fixpoint split_go (sep s : text) (skip : nat) (cur : text) : list text :=
  match s with
  | [] => [cur]
  | c :: s' =>
      match skip with
      | S k => split_go sep s' k cur
      | O =>
          if startswith sep s
          then cur :: split_go sep s' (length sep - 1) []
          else split_go sep s' 0 (cur ++ [c])
      end
  end.

Definition split (sep s : text) : list text := split_go sep s 0 [].

(** [sep.join(parts)] *)
Fixpoint join (sep : text) (parts : list text) : text :=
  match parts with
  | [] => []
  | [p] => p
  | p :: ps => p ++ sep ++ join sep ps
  end.

(** [s.replace(old, new)] for a non-empty [old]. *)
Fixpoint replace_go (old new s : text) (skip : nat) : text :=
  match s with
  | [] => []
  | c :: s' =>
      match skip with
      | S k => replace_go old new s' k
      | O =>
          if startswith old s
          then new ++ replace_go old new s' (length old - 1)
          else c :: replace_go old new s' 0
      end
  end.

Definition replace (old new s : text) : text := replace_go old new s 0.

(** [s.lstrip(chars)] *)
Fixpoint lstrip (chars s : text) : text :=
  match s with
  | [] => []
  | c :: s' => if existsb (Ascii.eqb c) chars then lstrip chars s' else s
  end.

(** [[p for i, p in enumerate(parts) if i % 2 == 0]] *)
Fixpoint even_indexed {A : Type} (parts : list A) : list A :=
  match parts with
  | [] => []
  | p :: rest =>
      p :: match rest with
           | [] => []
           | _ :: rest' => even_indexed rest'
           end
  end.

(** ** Python expressions *)

(** The expression nodes of Python's [ast] module that the rewriter tests
    for, emits, or meets in the subscripts, calls and attribute accesses it
    rewrites.  A comparison has one operator and one comparator, a lambda
    one positional parameter, a call positional arguments only. *)
Module ast.

Inductive unaryop : Type := UAdd | USub | Not | Invert.

Inductive operator : Type :=
| Add | Sub | Mult | MatMult | Div | Mod | Pow
| LShift | RShift | BitOr | BitXor | BitAnd | FloorDiv.

Inductive cmpop : Type := Eq | NotEq | Lt | LtE | Gt | GtE.

Inductive constant : Type :=
| CNone
| CBool (b : bool)
| CInt (n : Z)
| CStr (s : text).

#[warnings="-register-all"]
Inductive expr : Type :=
| Constant (value : constant)
| Name (id : string)
| UnaryOp (op : unaryop) (operand : expr)
| BinOp (left : expr) (op : operator) (right : expr)
| Compare (left : expr) (op : cmpop) (comparator : expr)
| IfExp (test body orelse : expr)
| Subscript (value slice : expr)
| Slice (lower upper step : option expr)
| Attribute (value : expr) (attr : string)
| Call (func : expr) (args : list expr)
| Lambda (arg : string) (body : expr)
| List (elts : list expr)
| Tuple (elts : list expr).

End ast.

(** ** The rewriter: [OneBasedIndexingTransformer] *)

(** The transformer builds its output as text, [ast.unparse]-ing the nodes
    it was given into an f-string and [ast.parse]-ing the result.  Every
    hole of its templates stands between parentheses or brackets, or is a
    whole slice component, so the tree parsed back is the tree of the
    template with the given nodes at the holes.  The definitions below
    build that tree. *)

Definition mapM {A B : Type} (f : A -> res B) : list A -> res (list B) :=
  fix go (l : list A) : res (list B) :=
    match l with
    | [] => Ok []
    | a :: l' =>
        match f a with
        | Ok b =>
            match go l' with
            | Ok bs => Ok (b :: bs)
            | Raise e => Raise e
            | OutOfFuel => OutOfFuel
            | Unmodelled => Unmodelled
            end
        | Raise e => Raise e
        | OutOfFuel => OutOfFuel
        | Unmodelled => Unmodelled
        end
    end.

Definition mapM_option {A B : Type} (f : A -> res B) (o : option A)
  : res (option B) :=
  match o with
  | None => Ok None
  | Some a =>
      match f a with
      | Ok b => Ok (Some b)
      | Raise e => Raise e
      | OutOfFuel => OutOfFuel
      | Unmodelled => Unmodelled
      end
  end.

(** [any(isinstance(node, t) for t in self.types_we_know_how_to_handle)] *)
Definition types_we_know_how_to_handle (node : ast.expr) : bool :=
  match node with
  | ast.Constant _ | ast.UnaryOp _ _ | ast.BinOp _ _ _ | ast.Name _
  | ast.Subscript _ _ | ast.IfExp _ _ _ | ast.Slice _ _ _ => true
  | _ => false
  end.

Definition int_const (n : Z) : ast.expr := ast.Constant (ast.CInt n).

(** [shift_idx]: the tree of
    [(text)-(1 if (text) > 0 else (0 if (text) < 0 else (1/0)))]. *)
Definition shift_idx (text : ast.expr) : ast.expr :=
  ast.BinOp text ast.Sub
    (ast.IfExp (ast.Compare text ast.Gt (int_const 0))
       (int_const 1)
       (ast.IfExp (ast.Compare text ast.Lt (int_const 0))
          (int_const 0)
          (ast.BinOp (int_const 1) ast.Div (int_const 0)))).

(** [expand_idx]: a slice has its lower and upper bound shifted where they
    are present and keeps its step; any other index is shifted. *)
Definition expand_idx (slice_node : ast.expr) : ast.expr :=
  match slice_node with
  | ast.Slice lower upper step =>
      ast.Slice (option_map shift_idx lower) (option_map shift_idx upper) step
  | _ => shift_idx slice_node
  end.

(** The tree of [isinstance((lhs), (list, tuple, str))]. *)
Definition isinstance_sequence (lhs : ast.expr) : ast.expr :=
  ast.Call (ast.Name "isinstance")
    [lhs; ast.Tuple [ast.Name "list"; ast.Name "tuple"; ast.Name "str"]].

(** [visit_Subscript] after its assertion and its [generic_visit]: [value]
    and [slice] are the children as already rewritten, the result is the
    tree of
    [(lhs)[expand_idx] if isinstance((lhs), (list, tuple, str)) else (node)]. *)
Definition visit_Subscript (value slice : ast.expr) : ast.expr :=
  ast.IfExp (isinstance_sequence value)
    (ast.Subscript value (expand_idx slice))
    (ast.Subscript value slice).

(** What [visit_Attribute] reads of [node.parent]: whether it is a call,
    and then how many positional arguments the call has. *)
Inductive parent : Type :=
| ParentCall (nargs : nat)
| ParentOther.

Definition no_indexing : list string :=
  ["append"; "extend"; "join"; "clear"; "split"; "lower"; "upper";
   "islower"; "isupper"; "isdigit"; "isalpha"; "swapcase"; "sort";
   "remove"; "count"; "replace"; "reverse"; "encode"; "strip"]%string.

Definition mem (x : string) (l : list string) : bool :=
  existsb (String.eqb x) l.

Definition antwnc : string := "__antwnc".

(** [visit_Attribute] after its [generic_visit]: [value] is the receiver
    as already rewritten. *)
Definition visit_Attribute (p : parent) (value : ast.expr) (attr : string)
  : res ast.expr :=
  let node := ast.Attribute value attr in
  if mem attr no_indexing then Ok node
  else if mem attr ["startswith"; "endswith"]%string then
    match p with
    | ParentCall nargs =>
        if (nargs =? 1)%nat then Ok node else Raise AssertionError
    | ParentOther => Raise AssertionError
    end
  else if String.eqb attr "pop" then
    match p with
    | ParentCall nargs =>
        if (nargs =? 0)%nat then Ok node
        else if (nargs =? 1)%nat then
          Ok (ast.IfExp (isinstance_sequence value)
                (ast.Lambda antwnc
                   (ast.Call node [shift_idx (ast.Name antwnc)]))
                node)
        else Raise AssertionError
    | ParentOther => Raise AssertionError
    end
  else if String.eqb attr "index" then
    match p with
    | ParentCall nargs =>
        if (nargs =? 1)%nat then
          Ok (ast.IfExp (isinstance_sequence value)
                (ast.Lambda antwnc
                   (ast.BinOp (ast.Call node [ast.Name antwnc]) ast.Add
                      (int_const 1)))
                node)
        else Raise AssertionError
    | ParentOther => Raise AssertionError
    end
  else
    Ok (ast.Attribute
          (ast.IfExp (isinstance_sequence value)
             (ast.Subscript (ast.List []) (int_const 1))
             value)
          attr).

(** [visit]: the traversal of [ast.NodeTransformer] over an expression.
    Children are visited field by field, from left to right; the children
    of a call see that call as their parent. *)
Fixpoint visit (p : parent) (node : ast.expr) {struct node} : res ast.expr :=
  match node with
  | ast.Constant _ => Ok node
  | ast.Name _ => Ok node
  | ast.UnaryOp op operand =>
      (operand' <- visit ParentOther operand ;;
       Ok (ast.UnaryOp op operand'))%res
  | ast.BinOp l op r =>
      (l' <- visit ParentOther l ;;
       r' <- visit ParentOther r ;;
       Ok (ast.BinOp l' op r'))%res
  | ast.Compare l op r =>
      (l' <- visit ParentOther l ;;
       r' <- visit ParentOther r ;;
       Ok (ast.Compare l' op r'))%res
  | ast.IfExp t b o =>
      (t' <- visit ParentOther t ;;
       b' <- visit ParentOther b ;;
       o' <- visit ParentOther o ;;
       Ok (ast.IfExp t' b' o'))%res
  | ast.Subscript value slice =>
      (_ <- assert (types_we_know_how_to_handle slice) ;;
       value' <- visit ParentOther value ;;
       slice' <- visit ParentOther slice ;;
       Ok (visit_Subscript value' slice'))%res
  | ast.Slice lower upper step =>
      (lower' <- mapM_option (visit ParentOther) lower ;;
       upper' <- mapM_option (visit ParentOther) upper ;;
       step' <- mapM_option (visit ParentOther) step ;;
       Ok (ast.Slice lower' upper' step'))%res
  | ast.Attribute value attr =>
      (value' <- visit ParentOther value ;;
       visit_Attribute p value' attr)%res
  | ast.Call func args =>
      let here := ParentCall (length args) in
      (func' <- visit here func ;;
       args' <- mapM (visit here) args ;;
       Ok (ast.Call func' args'))%res
  | ast.Lambda arg body =>
      (body' <- visit ParentOther body ;;
       Ok (ast.Lambda arg body'))%res
  | ast.List elts =>
      (elts' <- mapM (visit ParentOther) elts ;;
       Ok (ast.List elts'))%res
  | ast.Tuple elts =>
      (elts' <- mapM (visit ParentOther) elts ;;
       Ok (ast.Tuple elts'))%res
  end.

(** [OneBasedIndexingTransformer().visit(tree, is_root=True)] on an
    expression: the root has no parent. *)
Definition rewrite_expr (node : ast.expr) : res ast.expr :=
  visit ParentOther node.

(** Does the expression hold, at any depth, a subscript whose index is
    of none of the kinds in [types_we_know_how_to_handle]? *)
Fixpoint has_unhandled_subscript (node : ast.expr) : bool :=
  let opt := fun o : option ast.expr =>
    match o with
    | None => false
    | Some e => has_unhandled_subscript e
    end in
  match node with
  | ast.Constant _ | ast.Name _ => false
  | ast.UnaryOp _ operand => has_unhandled_subscript operand
  | ast.BinOp l _ r | ast.Compare l _ r =>
      has_unhandled_subscript l || has_unhandled_subscript r
  | ast.IfExp t b o =>
      has_unhandled_subscript t || has_unhandled_subscript b
      || has_unhandled_subscript o
  | ast.Subscript value slice =>
      negb (types_we_know_how_to_handle slice)
      || has_unhandled_subscript value || has_unhandled_subscript slice
  | ast.Slice lower upper step => opt lower || opt upper || opt step
  | ast.Attribute value _ => has_unhandled_subscript value
  | ast.Call func args =>
      has_unhandled_subscript func || existsb has_unhandled_subscript args
  | ast.Lambda _ body => has_unhandled_subscript body
  | ast.List elts | ast.Tuple elts => existsb has_unhandled_subscript elts
  end.

(** The outcomes of the traversal: a tree, or a failed assertion. *)
Definition settled {A : Type} (r : res A) : Prop :=
  (exists a, r = Ok a) \/ r = Raise AssertionError.

(** The traversal fails on an expression that holds an unhandled
    subscript, whatever the parent. *)
Definition rejected (e : ast.expr) : Prop :=
  forall p, has_unhandled_subscript e = true ->
            visit p e = Raise AssertionError.

(** ** Python values and the store *)

(** The classes named by the rewriter's type test. *)
Inductive pyclass : Type := ClassList | ClassTuple | ClassStr.

(** Values.  A list is a mutable object: its value is a reference into the
    store, so that [pop] and [append] are seen through every alias.
    Tuples and strings are immutable; a mapping is read only in this
    fragment and is kept by value, as the sequence of its items. *)
#[warnings="-register-all"]
Inductive value : Type :=
| VNone
| VBool (b : bool)
| VInt (n : Z)
| VStr (s : text)
| VTuple (items : list value)
| VList (ref : nat)
| VDict (items : list (value * value))
| VSlice (lower upper step : value)
| VClass (c : pyclass)
| VIsinstance
| VFunction (closure : list (string * value)) (arg : string)
    (body : ast.expr)
| VMethod (self : value) (name : string).

(** A scope binds names to values; the store holds the items of each
    list object. *)
Definition env : Type := list (string * value).
Definition heap : Type := list (list value).

Fixpoint lookup (x : string) (rho : env) : option value :=
  match rho with
  | [] => None
  | (y, v) :: rho' => if String.eqb x y then Some v else lookup x rho'
  end.

(** The builtins that rewritten programs name. *)
Definition builtins (x : string) : option value :=
  if String.eqb x "isinstance" then Some VIsinstance
  else if String.eqb x "list" then Some (VClass ClassList)
  else if String.eqb x "tuple" then Some (VClass ClassTuple)
  else if String.eqb x "str" then Some (VClass ClassStr)
  else None.

Definition load_name (rho : env) (x : string) : res value :=
  match lookup x rho with
  | Some v => Ok v
  | None =>
      match builtins x with
      | Some v => Ok v
      | None => Raise NameError
      end
  end.

(** Computations on the store. *)
Definition M (A : Type) : Type := heap -> res (A * heap).

Definition ret {A : Type} (a : A) : M A := fun h => Ok (a, h).

Definition lift {A : Type} (r : res A) : M A :=
  fun h => bind r (fun a => Ok (a, h)).

Definition mbind {A B : Type} (m : M A) (k : A -> M B) : M B :=
  fun h =>
    match m h with
    | Ok (a, h') => k a h'
    | Raise e => Raise e
    | OutOfFuel => OutOfFuel
    | Unmodelled => Unmodelled
    end.

Declare Scope store_scope.
Delimit Scope store_scope with M.
Notation "x <- m ;; k" := (mbind m (fun x => k))
  (at level 61, m at next level, right associativity) : store_scope.

Definition new_list (items : list value) : M value :=
  fun h => Ok (VList (length h), h ++ [items]).

Definition read_list (ref : nat) : M (list value) :=
  fun h =>
    match nth_error h ref with
    | Some items => Ok (items, h)
    | None => Unmodelled
    end.

Fixpoint set_nth {A : Type} (n : nat) (a : A) (l : list A) : list A :=
  match l, n with
  | [], _ => []
  | _ :: l', O => a :: l'
  | b :: l', S n' => b :: set_nth n' a l'
  end.

Definition write_list (ref : nat) (items : list value) : M unit :=
  fun h => Ok (tt, set_nth ref items h).

(** *** Truth, numbers, equality *)

Definition is_empty {A : Type} (l : list A) : bool :=
  match l with [] => true | _ => false end.

Definition truthy (v : value) : M bool :=
  match v with
  | VNone => ret false
  | VBool b => ret b
  | VInt n => ret (negb (n =? 0))
  | VStr s => ret (negb (is_empty s))
  | VTuple items => ret (negb (is_empty items))
  | VList ref => (items <- read_list ref ;; ret (negb (is_empty items)))%M
  | VDict items => ret (negb (is_empty items))
  | _ => ret true
  end.

(** An integer, or a boolean read as one. *)
Definition as_int (v : value) : option Z :=
  match v with
  | VInt n => Some n
  | VBool b => Some (if b then 1 else 0)
  | _ => None
  end.

(** [a == b] on the values whose equality needs no store: [None],
    numbers, strings, and tuples of those. *)
Fixpoint simple_eqb (a b : value) {struct a} : option bool :=
  match a, b with
  | VNone, VNone => Some true
  | VNone, (VBool _ | VInt _ | VStr _ | VTuple _) => Some false
  | VBool x, (VBool _ | VInt _) =>
      option_map (Z.eqb (if x then 1 else 0)) (as_int b)
  | VBool _, (VNone | VStr _ | VTuple _) => Some false
  | VInt x, (VBool _ | VInt _) => option_map (Z.eqb x) (as_int b)
  | VInt _, (VNone | VStr _ | VTuple _) => Some false
  | VStr s, VStr t => Some (text_eqb s t)
  | VStr _, (VNone | VBool _ | VInt _ | VTuple _) => Some false
  | VTuple xs, VTuple ys =>
      (fix go (xs ys : list value) {struct xs} : option bool :=
         match xs, ys with
         | [], [] => Some true
         | x :: xs', y :: ys' =>
             match simple_eqb x y, go xs' ys' with
             | Some p, Some q => Some (p && q)
             | _, _ => None
             end
         | _, _ => Some false
         end) xs ys
  | VTuple _, (VNone | VBool _ | VInt _ | VStr _) => Some false
  | _, _ => None
  end.

(** *** Operators *)

Definition unaryop (op : ast.unaryop) (v : value) : M value :=
  match op with
  | ast.Not => (b <- truthy v ;; ret (VBool (negb b)))%M
  | ast.USub =>
      match as_int v with
      | Some n => ret (VInt (- n))
      | None => match v with VNone | VStr _ => lift (Raise TypeError)
                | _ => lift Unmodelled end
      end
  | ast.UAdd =>
      match as_int v with
      | Some n => ret (VInt n)
      | None => match v with VNone | VStr _ => lift (Raise TypeError)
                | _ => lift Unmodelled end
      end
  | ast.Invert =>
      match as_int v with
      | Some n => ret (VInt (- n - 1))
      | None => match v with VNone | VStr _ => lift (Raise TypeError)
                | _ => lift Unmodelled end
      end
  end.

(** Arithmetic on integers; true division is modelled only where it
    raises, its quotient being a float. *)
Definition binop (op : ast.operator) (a b : value) : res value :=
  match as_int a, as_int b with
  | Some x, Some y =>
      match op with
      | ast.Add => Ok (VInt (x + y))
      | ast.Sub => Ok (VInt (x - y))
      | ast.Mult => Ok (VInt (x * y))
      | ast.FloorDiv =>
          if y =? 0 then Raise ZeroDivisionError else Ok (VInt (x / y))
      | ast.Mod =>
          if y =? 0 then Raise ZeroDivisionError else Ok (VInt (x mod y))
      | ast.Div => if y =? 0 then Raise ZeroDivisionError else Unmodelled
      | _ => Unmodelled
      end
  | _, _ =>
      match op, a, b with
      | ast.Add, VStr s, VStr t => Ok (VStr (s ++ t))
      | ast.Add, VTuple s, VTuple t => Ok (VTuple (s ++ t))
      | (ast.Add | ast.Sub), VNone, _ => Raise TypeError
      | (ast.Add | ast.Sub), _, VNone => Raise TypeError
      | _, _, _ => Unmodelled
      end
  end.

Definition compare (op : ast.cmpop) (a b : value) : res value :=
  match op with
  | ast.Eq =>
      match simple_eqb a b with
      | Some r => Ok (VBool r)
      | None => Unmodelled
      end
  | ast.NotEq =>
      match simple_eqb a b with
      | Some r => Ok (VBool (negb r))
      | None => Unmodelled
      end
  | _ =>
      match as_int a, as_int b with
      | Some x, Some y =>
          Ok (VBool match op with
                    | ast.Lt => x <? y
                    | ast.LtE => x <=? y
                    | ast.Gt => x >? y
                    | _ => x >=? y
                    end)
      | Some _, None =>
          match b with VNone | VStr _ | VTuple _ | VList _ => Raise TypeError
          | _ => Unmodelled end
      | None, Some _ =>
          match a with VNone | VStr _ | VTuple _ | VList _ => Raise TypeError
          | _ => Unmodelled end
      | None, None => Unmodelled
      end
  end.

(** *** Type test *)

(** The runtime test the rewriter inserts: is the value a list, a tuple or
    a string? *)
Definition is_sequence (v : value) : bool :=
  match v with
  | VList _ | VTuple _ | VStr _ => true
  | _ => false
  end.

Definition instance_of (v : value) (c : pyclass) : bool :=
  match v, c with
  | VList _, ClassList => true
  | VTuple _, ClassTuple => true
  | VStr _, ClassStr => true
  | _, _ => false
  end.

(** [isinstance(v, cls)] for [cls] a class or a tuple of classes. *)
Fixpoint isinstance_any (v : value) (classes : list value) : res bool :=
  match classes with
  | [] => Ok false
  | VClass c :: rest =>
      if instance_of v c then Ok true else isinstance_any v rest
  | VTuple _ :: _ => Unmodelled
  | _ :: _ => Raise TypeError
  end.

Definition isinstance (v cls : value) : res value :=
  match cls with
  | VClass c => Ok (VBool (instance_of v c))
  | VTuple classes => bind (isinstance_any v classes) (fun b => Ok (VBool b))
  | _ => Raise TypeError
  end.

(** *** Subscription *)

(** A component of a slice object: [None] or an integer. *)
Definition slice_bound (v : value) : res (option Z) :=
  match v with
  | VNone => Ok None
  | _ =>
      match as_int v with
      | Some n => Ok (Some n)
      | None => Raise TypeError
      end
  end.

(** [s[idx]] on a sequence with items [s]: [item] makes a value of an
    element, [whole] makes a value of the items a slice selects. *)
Definition getitem_sequence {A : Type} (item : A -> value)
    (whole : list A -> M value) (s : list A) (idx : value) : M value :=
  match idx with
  | VSlice lo hi st =>
      (lo' <- lift (slice_bound lo) ;;
       hi' <- lift (slice_bound hi) ;;
       st' <- lift (slice_bound st) ;;
       items <- lift (py_slice s lo' hi' st') ;;
       whole items)%M
  | _ =>
      match as_int idx with
      | Some i => lift (bind (py_index s i) (fun x => Ok (item x)))
      | None => lift (Raise TypeError)
      end
  end.

Definition hashable (v : value) : option bool :=
  match v with
  | VNone | VBool _ | VInt _ | VStr _ => Some true
  | VList _ | VDict _ => Some false
  | _ => None
  end.

Fixpoint dict_get (items : list (value * value)) (key : value) : res value :=
  match items with
  | [] => Raise KeyError
  | (k, v) :: rest =>
      match simple_eqb k key with
      | Some true => Ok v
      | Some false => dict_get rest key
      | None => Unmodelled
      end
  end.

(** [container[idx]] *)
Definition subscript (container idx : value) : M value :=
  match container with
  | VList ref =>
      (items <- read_list ref ;;
       getitem_sequence (fun x => x) new_list items idx)%M
  | VTuple items =>
      getitem_sequence (fun x => x) (fun l => ret (VTuple l)) items idx
  | VStr s =>
      getitem_sequence (fun c => VStr [c]) (fun l => ret (VStr l)) s idx
  | VDict items =>
      match hashable idx with
      | Some true => lift (dict_get items idx)
      | Some false => lift (Raise TypeError)
      | None => lift Unmodelled
      end
  | VNone | VBool _ | VInt _ | VIsinstance | VFunction _ _ _ | VMethod _ _ =>
      lift (Raise TypeError)
  | _ => lift Unmodelled
  end.

(** *** Attributes and methods *)

(** [v.attr] for the methods modelled here: [pop], [index] and [append]
    of lists, [index] of tuples and strings. *)
Definition getattr (v : value) (attr : string) : res value :=
  match v with
  | VList _ =>
      if mem attr ["pop"; "index"; "append"]%string
      then Ok (VMethod v attr) else Unmodelled
  | VTuple _ | VStr _ =>
      if String.eqb attr "index" then Ok (VMethod v attr)
      else if mem attr ["pop"; "append"]%string then Raise AttributeError
      else Unmodelled
  | VNone | VBool _ | VInt _ =>
      if mem attr ["pop"; "index"; "append"]%string
      then Raise AttributeError else Unmodelled
  | _ => Unmodelled
  end.

Definition remove_at {A : Type} (i : nat) (l : list A) : list A :=
  firstn i l ++ skipn (S i) l.

(** [list.pop(i)]; [list.pop()] is [list.pop(-1)]. *)
Definition list_pop (ref : nat) (i : Z) : M value :=
  (items <- read_list ref ;;
   x <- lift (py_index items i) ;;
   let i' := if i <? 0 then i + Z.of_nat (length items) else i in
   _ <- write_list ref (remove_at (Z.to_nat i') items) ;;
   ret x)%M.

(** The least position of an item equal to [x]. *)
Fixpoint index_of (items : list value) (x : value) (i : Z) : res value :=
  match items with
  | [] => Raise ValueError
  | y :: rest =>
      match simple_eqb y x with
      | Some true => Ok (VInt i)
      | Some false => index_of rest x (i + 1)
      | None => Unmodelled
      end
  end.

Definition call_method (self : value) (name : string) (args : list value)
  : M value :=
  match self with
  | VList ref =>
      if String.eqb name "pop" then
        match args with
        | [] => list_pop ref (-1)
        | [a] =>
            match as_int a with
            | Some i => list_pop ref i
            | None => lift (Raise TypeError)
            end
        | _ => lift (Raise TypeError)
        end
      else if String.eqb name "index" then
        match args with
        | [x] => (items <- read_list ref ;; lift (index_of items x 0))%M
        | [] => lift (Raise TypeError)
        | _ => lift Unmodelled
        end
      else if String.eqb name "append" then
        match args with
        | [x] =>
            (items <- read_list ref ;;
             _ <- write_list ref (items ++ [x]) ;;
             ret VNone)%M
        | _ => lift (Raise TypeError)
        end
      else lift Unmodelled
  | VTuple items =>
      if String.eqb name "index" then
        match args with
        | [x] => lift (index_of items x 0)
        | [] => lift (Raise TypeError)
        | _ => lift Unmodelled
        end
      else lift Unmodelled
  | VStr s =>
      if String.eqb name "index" then
        match args with
        | [VStr sub] =>
            match find sub s 0 with
            | Some i => ret (VInt (Z.of_nat i))
            | None => lift (Raise ValueError)
            end
        | [_] | [] => lift (Raise TypeError)
        | _ => lift Unmodelled
        end
      else lift Unmodelled
  | _ => lift Unmodelled
  end.

(** ** Evaluation of expressions *)

Definition constant_value (c : ast.constant) : value :=
  match c with
  | ast.CNone => VNone
  | ast.CBool b => VBool b
  | ast.CInt n => VInt n
  | ast.CStr s => VStr s
  end.

(** Expressions of a list are evaluated from left to right. *)
Definition eval_list (ev : ast.expr -> M value)
  : list ast.expr -> M (list value) :=
  fix go (es : list ast.expr) : M (list value) :=
    match es with
    | [] => ret []
    | e :: es' => (v <- ev e ;; vs <- go es' ;; ret (v :: vs))%M
    end.

Definition eval_option (ev : ast.expr -> M value) (o : option ast.expr)
  : M value :=
  match o with
  | None => ret VNone
  | Some e => ev e
  end.

Section Eval.

(** How the body of a function is run in the scope of a call. *)
Variable run_body : env -> ast.expr -> M value.

(** [f(args)] *)
Definition call_value (f : value) (args : list value) : M value :=
  match f with
  | VIsinstance =>
      match args with
      | [v; cls] => lift (isinstance v cls)
      | _ => lift (Raise TypeError)
      end
  | VFunction closure arg body =>
      match args with
      | [a] => run_body ((arg, a) :: closure) body
      | _ => lift (Raise TypeError)
      end
  | VMethod self name => call_method self name args
  | VNone | VBool _ | VInt _ | VStr _ | VTuple _ | VList _ | VDict _
  | VSlice _ _ _ => lift (Raise TypeError)
  | VClass _ => lift Unmodelled
  end.

(** The value of an expression in a scope, Python's order of evaluation:
    operands, subscripts and arguments from left to right, the test of a
    conditional before the one branch it selects. *)
Fixpoint eval_with (rho : env) (e : ast.expr) {struct e} : M value :=
  match e with
  | ast.Constant c => ret (constant_value c)
  | ast.Name x => lift (load_name rho x)
  | ast.UnaryOp op operand =>
      (v <- eval_with rho operand ;; unaryop op v)%M
  | ast.BinOp l op r =>
      (a <- eval_with rho l ;;
       b <- eval_with rho r ;;
       lift (binop op a b))%M
  | ast.Compare l op r =>
      (a <- eval_with rho l ;;
       b <- eval_with rho r ;;
       lift (compare op a b))%M
  | ast.IfExp test body orelse =>
      (t <- eval_with rho test ;;
       b <- truthy t ;;
       if b then eval_with rho body else eval_with rho orelse)%M
  | ast.Subscript value slice =>
      (c <- eval_with rho value ;;
       i <- eval_with rho slice ;;
       subscript c i)%M
  | ast.Slice lower upper step =>
      (lo <- eval_option (eval_with rho) lower ;;
       hi <- eval_option (eval_with rho) upper ;;
       st <- eval_option (eval_with rho) step ;;
       ret (VSlice lo hi st))%M
  | ast.Attribute value attr =>
      (v <- eval_with rho value ;; lift (getattr v attr))%M
  | ast.Call func args =>
      (f <- eval_with rho func ;;
       vs <- eval_list (eval_with rho) args ;;
       call_value f vs)%M
  | ast.Lambda arg body => ret (VFunction rho arg body)
  | ast.List elts =>
      (vs <- eval_list (eval_with rho) elts ;; new_list vs)%M
  | ast.Tuple elts =>
      (vs <- eval_list (eval_with rho) elts ;; ret (VTuple vs))%M
  end.

End Eval.

(** A function body is run with one unit of fuel less than the call. *)
Fixpoint run_body (fuel : nat) : env -> ast.expr -> M value :=
  match fuel with
  | O => fun _ _ _ => OutOfFuel
  | S fuel' => eval_with (run_body fuel')
  end.

(** [eval fuel rho e h]: the value of [e] in scope [rho] and store [h],
    with the store it leaves, calls nesting at most [fuel] deep. *)
Definition eval (fuel : nat) : env -> ast.expr -> M value :=
  eval_with (run_body fuel).

(** The scope gives the names of the rewriter's type test their builtin
    meaning: the program has not rebound [isinstance], [list], [tuple] or
    [str]. *)
Definition standard_names (rho : env) : Prop :=
  load_name rho "isinstance" = Ok VIsinstance
  /\ load_name rho "list" = Ok (VClass ClassList)
  /\ load_name rho "tuple" = Ok (VClass ClassTuple)
  /\ load_name rho "str" = Ok (VClass ClassStr).

(** ** The one-based reading, in the words of the specification *)

(** "Evaluate [E]; if the value is strictly positive, subtract 1; if it is
    strictly negative, leave unchanged; if it is exactly zero, raise a
    division-by-zero-shaped fault": the shift of a value already
    obtained. *)
Definition shifted_index (n : Z) : res Z :=
  if n >? 0 then Ok (n - 1)
  else if n <? 0 then Ok n
  else Raise ZeroDivisionError.

(** The one-based [container[idx]] where container and index are each
    evaluated once, the index being shifted when the container is a list,
    a tuple or a string. *)
Definition one_based_subscript (ev : ast.expr -> M value)
    (container idx : ast.expr) : M value :=
  (c <- ev container ;;
   i <- ev idx ;;
   if is_sequence c then
     match i with
     | VInt n => n' <- lift (shifted_index n) ;; subscript c (VInt n')
     | _ => lift Unmodelled
     end
   else subscript c i)%M.

(** The one-based [recv.pop(i)] where the receiver is evaluated exactly
    once: "[recv.pop(i)] must evaluate [recv] once, and shift [i] only if
    [recv] turns out to be a sequence". *)
Definition one_based_pop (ev : ast.expr -> M value) (recv i : ast.expr)
  : M value :=
  (r <- ev recv ;;
   m <- lift (getattr r "pop") ;;
   a <- ev i ;;
   if is_sequence r then
     match a with
     | VInt n => n' <- lift (shifted_index n) ;; call_method r "pop" [VInt n']
     | _ => lift Unmodelled
     end
   else call_method r "pop" [a])%M.

(** A bound of a slice as the specification speaks of it: absent, or an
    expression whose evaluation gives a strictly positive integer and
    leaves the store as it found it. *)
Definition positive_bound (fuel : nat) (rho : env) (h : heap)
    (bound : option ast.expr) (a : option Z) : Prop :=
  match bound, a with
  | None, None => True
  | Some e, Some n => 0 < n /\ eval fuel rho e h = Ok (VInt n, h)
  | _, _ => False
  end.

(** The bound [a - 1] of the zero-based slice, for the bound [a]. *)
Definition zero_based_bound (a : option Z) : option ast.expr :=
  option_map (fun n => int_const (n - 1)) a.

(** ** Docstring removal: [remove_docstrings] *)

(** [s[lo:hi]], a slice without a step; it never raises. *)
Definition slice1 {A : Type} (s : list A) (lo hi : option Z) : list A :=
  let len := Z.of_nat (length s) in
  let start := slice_start len 1 lo in
  let stop := slice_stop len 1 hi in
  slice_items s start 1 (Z.to_nat (slice_length start stop 1)).

Definition triple (q : ascii) : text := [q; q; q].

(** One pass of [remove_docstrings] for the delimiter [delim]:
    [parts = s.split(delim)], the parts at even positions of [enumerate]
    are kept and joined. *)
Definition strip_delimited (delim s : text) : text :=
  let parts := split delim s in
  let parts := even_indexed parts in
  join [] parts.

Definition remove_docstrings (s : text) : text :=
  let s := replace (str "FIX = " ++ triple dquote) (triple dquote) s in
  let s := strip_delimited (triple dquote) s in
  let s := replace (str "FIX = " ++ triple squote) (triple squote) s in
  let s := strip_delimited (triple squote) s in
  let s :=
    replace (str ":" ++ [newline] ++ str "    " ++ [newline])
      (str ":" ++ [newline]) s in
  lstrip [newline] s.

(** ** Call extraction and substitution: [extract_calls], [sub_calls] *)

Definition candidate : text := str "candidate(".

(** The variables of the scan of one call: [started], [in_string],
    [depth], and [end], which is unbound until a scan first breaks. *)
Record scan_state : Type := mk_scan {
  started : bool;
  in_string : bool;
  depth : Z;
  end_ : option nat
}.

(** The [for i, c in enumerate(s[idx:])] loop; it stops at the [break]. *)
Fixpoint scan_call (cs : text) (i : nat) (st : scan_state) : scan_state :=
  match cs with
  | [] => st
  | c :: cs' =>
      let in_string' :=
        if Ascii.eqb c dquote || Ascii.eqb c squote
        then negb (in_string st) else in_string st in
      if in_string' then
        scan_call cs' (S i) (mk_scan (started st) in_string' (depth st) (end_ st))
      else
        let started' := if Ascii.eqb c lparen then true else started st in
        let depth' :=
          if Ascii.eqb c lparen then depth st + 1
          else if Ascii.eqb c rparen then depth st - 1
          else depth st in
        if started' && (depth' =? 0)
        then mk_scan started' in_string' depth' (Some i)
        else scan_call cs' (S i) (mk_scan started' in_string' depth' (end_ st))
  end.

(** [depth == 0 and started and not in_string], the assertion that
    follows the scan of a call. *)
Definition scan_ok (st : scan_state) : bool :=
  (depth st =? 0) && started st && negb (in_string st).

(** The [while idx != -1] loop; every turn moves [idx] forward, so a
    text of length [n] needs at most [n] turns. *)
Fixpoint extract_loop (fuel : nat) (s : text) (idx : option nat)
    (end0 : option nat) (span_indices : list (Z * Z)) (calls : list text)
  : res (list (Z * Z) * list text) :=
  match idx with
  | None => Ok (span_indices, calls)
  | Some idx =>
      match fuel with
      | O => OutOfFuel
      | S fuel' =>
          let st := scan_call (skipn idx s) 0 (mk_scan false false 0 end0) in
          (_ <- assert (scan_ok st) ;;
           match end_ st with
           | None => Raise UnboundLocalError
           | Some e =>
               let lo := Z.of_nat idx in
               let hi := Z.of_nat (idx + e + 1) in
               extract_loop fuel' s (find candidate s (idx + 1)) (Some e)
                 (span_indices ++ [(lo, hi)])
                 (calls ++ [slice1 s (Some lo) (Some hi)])
           end)%res
      end
  end.

Definition extract_calls (s : text) : res (list (Z * Z) * list text) :=
  (_ <- assert (contains candidate s) ;;
   extract_loop (S (length s)) s (find candidate s 0) None [] [])%res.

(** The loop of [sub_calls] over [zip(call_span_indices, called_values,
    strict=True)]. *)
Fixpoint sub_calls_loop (program : text) (delta : Z)
    (call_span_indices : list (Z * Z)) (called_values : list text)
  : res text :=
  match call_span_indices, called_values with
  | [], [] => Ok program
  | (start, stop) :: spans, value :: values =>
      (first <- py_index value 0 ;;
       last <- py_index value (-1) ;;
       _ <- assert (Ascii.eqb first lbracket && Ascii.eqb last rbracket) ;;
       let value := slice1 value (Some 1) (Some (-1)) in
       let program :=
         slice1 program None (Some (start + delta)) ++ value
           ++ slice1 program (Some (stop + delta)) None in
       sub_calls_loop program
         (delta + (Z.of_nat (length value) - (stop - start))) spans values)%res
  | _, _ => Raise ValueError
  end.

Definition sub_calls (program : text) (call_span_indices : list (Z * Z))
    (called_values : list text) : res text :=
  sub_calls_loop program 0 call_span_indices called_values.

(** A value as the round trip passes it: a text between square
    brackets. *)
Definition bracketed (c : text) : text := [lbracket] ++ c ++ [rbracket].

(** A recorded span lies inside the text and goes with the text it
    covers. *)
Definition span_of (s : text) (span : Z * Z) (call : text) : Prop :=
  0 <= fst span <= snd span
  /\ snd span <= Z.of_nat (length s)
  /\ call = slice1 s (Some (fst span)) (Some (snd span)).

(** ** Evaluation and assembly of programs *)

Section Programs.

(** Running Python text is outside this development: [exec] gives, for a
    program, the text it writes to the standard output, or the exception
    it raises.  The text-level entry points of the two [ast] passes are
    taken the same way. *)
Variable exec : text -> res text.
Variable rewrite_for_one_based_indexing : text -> res text.
Variable remove_type_hints : text -> res text.

(** [eval_program_with_calls]: the program is rewritten when the
    perturbation asks for it ([perturb]) and run; the result is [None]
    when no output is asked for. *)
Definition perturb (program : text) (perturbation : option text)
  : res text :=
  match perturbation with
  | Some p =>
      if text_eqb p (str "one_based_indexing")
      then rewrite_for_one_based_indexing program
      else Raise AssertionError
  | None => Ok program
  end.

Definition eval_program_with_calls (program : text)
    (perturbation : option text) (return_output : bool)
  : res (option (list text)) :=
  (program <- perturb program perturbation ;;
   output <- exec program ;;
   if return_output then
     last <- py_index output (-1) ;;
     _ <- assert (Ascii.eqb last newline) ;;
     Ok (Some (split [newline] (slice1 output None (Some (-1)))))
   else Ok None)%res.

(** The deduplication of [assemble_program_with_calls]: the first
    occurrence of every call is kept. *)
Fixpoint dedup_loop (formatted_calls new_formatted_calls : list text)
  : list text :=
  match formatted_calls with
  | [] => new_formatted_calls
  | call :: rest =>
      if existsb (text_eqb call) new_formatted_calls
      then dedup_loop rest new_formatted_calls
      else dedup_loop rest (new_formatted_calls ++ [call])
  end.

(** The state of the filtering loop. *)
Record filter_state : Type := mk_filter {
  filtered : bool;
  filtered_call_indices : list nat;
  filtered_formatted_calls : list text
}.

(** The [for i, call in enumerate(formatted_calls)] loop that runs every
    call under the perturbation. *)
Fixpoint filter_loop (context perturbation_filter : text) (i : nat)
    (formatted_calls : list text) (st : filter_state) : res filter_state :=
  match formatted_calls with
  | [] => Ok st
  | call :: rest =>
      let program := context ++ [newline; newline] ++ call in
      match eval_program_with_calls program (Some perturbation_filter) true with
      | Raise ZeroDivisionError =>
          filter_loop context perturbation_filter (S i) rest
            (mk_filter true (filtered_call_indices st)
               (filtered_formatted_calls st))
      | Raise e => Raise e
      | OutOfFuel => OutOfFuel
      | Unmodelled => Unmodelled
      | Ok None => Raise TypeError
      | Ok (Some output) =>
          (_ <- assert (length output =? 1)%nat ;;
           filter_loop context perturbation_filter (S i) rest
             (mk_filter (filtered st) (filtered_call_indices st ++ [i])
                (filtered_formatted_calls st ++ [call])))%res
      end
  end.

(** What the loop runs for one call, and whether the outcome is the
    fault it filters on. *)
Definition run_call (context perturbation_filter call : text)
  : res (option (list text)) :=
  eval_program_with_calls (context ++ [newline; newline] ++ call)
    (Some perturbation_filter) true.

Definition is_zero_division {A : Type} (r : res A) : bool :=
  match r with
  | Raise ZeroDivisionError => true
  | _ => false
  end.

(** The benchmark record. *)
Record benchmark : Type := mk_benchmark {
  prompt : text;
  canonical_solution : text;
  test : text;
  entry_point : text
}.

Definition check_asserts_pass (obj : benchmark) (called_values : list text)
  : res unit :=
  let program := prompt obj ++ canonical_solution obj ++ test obj in
  ('(call_span_indices, _) <- extract_calls program ;;
   subbed_program <- sub_calls program call_span_indices called_values ;;
   _ <- exec subbed_program ;;
   Ok tt)%res.

Definition format_call (entry_point c : text) : text :=
  str "print([" ++ entry_point
    ++ slice1 c (Some (Z.of_nat (length (str "candidate")))) None
    ++ str "])".

Definition assemble_program_with_calls (obj : benchmark)
    (perturbation_filter fn_name : option text)
  : res (text * list nat) :=
  (context <-
     remove_type_hints (remove_docstrings (prompt obj) ++ canonical_solution obj) ;;
   let '(context, entry_point) :=
     match fn_name with
     | Some fn_name =>
         (replace (entry_point obj ++ [lparen]) (fn_name ++ [lparen]) context,
          fn_name)
     | None => (context, entry_point obj)
     end in
   test_body <-
     match split (str "def check(candidate):" ++ [newline]) (test obj) with
     | [_; test_body] => Ok test_body
     | _ => Raise ValueError
     end ;;
   '(_, calls) <- extract_calls test_body ;;
   _ <- assert (forallb (startswith candidate) calls) ;;
   let formatted_calls := map (format_call entry_point) calls in
   let distinct := length (nodup (list_eq_dec ascii_dec) formatted_calls) in
   '(formatted_calls, filtered0) <-
     (if negb (length formatted_calls =? distinct)%nat then
        let new_formatted_calls := dedup_loop formatted_calls [] in
        _ <- assert (length new_formatted_calls
                     =? length (nodup (list_eq_dec ascii_dec)
                                  new_formatted_calls))%nat ;;
        Ok (new_formatted_calls, true)
      else Ok (formatted_calls, false)) ;;
   st <-
     match perturbation_filter with
     | Some pf =>
         filter_loop context pf 0 formatted_calls (mk_filter filtered0 [] [])
     | None =>
         Ok (mk_filter filtered0 (seq 0 (length formatted_calls))
               formatted_calls)
     end ;;
   let formatted_calls := filtered_formatted_calls st in
   let program :=
     context ++ [newline; newline] ++ join [newline] formatted_calls in
   _ <-
     (if negb (filtered st) then
        out <- eval_program_with_calls program None true ;;
        match out with
        | Some lines => check_asserts_pass obj lines
        | None => Raise TypeError
        end
      else if negb (is_empty formatted_calls) then
        _ <- eval_program_with_calls program None true ;; Ok tt
      else Ok tt) ;;
   Ok (program, filtered_call_indices st))%res.

End Programs.


(* ================================================================= *)
(** * Part I, continued: the rest of the program *)
(* ================================================================= *)

(** ** Occurrences and splices, for [extract_calls] and [sub_calls] *)

(** The positions of [s] at which [sub] starts, in ascending order. *)
Definition occurrences (sub s : text) : list nat :=
  filter (fun i => startswith sub (skipn i s)) (seq 0 (S (length s))).

(** The same positions, read off the text from position [i] on. *)
Fixpoint occurrences_at (sub s : text) (i : nat) : list nat :=
  (if startswith sub s then [i] else [])
  ++ match s with
     | [] => []
     | _ :: s' => occurrences_at sub s' (S i)
     end.

(** A text cut into calls, each followed by the text up to the next call:
    the spans of the calls when the first one starts at [start], the text
    itself, and the text with the calls replaced by [values]. *)
Fixpoint spans_of (start : nat) (pieces : list (text * text))
  : list (Z * Z) :=
  match pieces with
  | [] => []
  | (call, gap) :: rest =>
      (Z.of_nat start, Z.of_nat (start + length call))
      :: spans_of (start + length call + length gap) rest
  end.

Fixpoint unspliced (pieces : list (text * text)) : text :=
  match pieces with
  | [] => []
  | (call, gap) :: rest => call ++ gap ++ unspliced rest
  end.

Fixpoint spliced (pieces : list (text * text)) (values : list text) : text :=
  match pieces, values with
  | (_, gap) :: rest, value :: values' => value ++ gap ++ spliced rest values'
  | _, _ => []
  end.

(** ** Expressions the rewriter has nothing to do with *)

(** No subscript and no attribute access, at any depth. *)
Fixpoint plain (node : ast.expr) : bool :=
  let opt := fun o : option ast.expr =>
    match o with
    | None => true
    | Some e => plain e
    end in
  match node with
  | ast.Constant _ | ast.Name _ => true
  | ast.UnaryOp _ operand => plain operand
  | ast.BinOp l _ r | ast.Compare l _ r => plain l && plain r
  | ast.IfExp t b o => plain t && plain b && plain o
  | ast.Subscript _ _ | ast.Attribute _ _ => false
  | ast.Slice lower upper step => opt lower && opt upper && opt step
  | ast.Call func args => plain func && forallb plain args
  | ast.Lambda _ body => plain body
  | ast.List elts | ast.Tuple elts => forallb plain elts
  end.

(** The attribute names [visit_Attribute] has a branch for. *)
Definition reviewed_attribute (attr : string) : bool :=
  mem attr no_indexing
  || mem attr ["startswith"; "endswith"; "pop"; "index"]%string.

(** The items of a list or of a tuple. *)
Definition items_of (h : heap) (v : value) : option (list value) :=
  match v with
  | VList ref => nth_error h ref
  | VTuple items => Some items
  | _ => None
  end.

(** ** The prelude of [rewrite_for_one_based_indexing] *)

(** The rewritten program starts with
    [enumerate = lambda x: old_enumerate(x, start=1)] and with a [range]
    that is [old_range(1, args[0])] when it has one argument and
    [old_range] of all its arguments otherwise.  Python's [range] and
    [enumerate] are modelled on integers, by the list of what they
    yield. *)
Fixpoint range_items (start step : Z) (n : nat) : list Z :=
  match n with
  | O => []
  | S n' => start :: range_items (start + step) step n'
  end.

Definition old_range (args : list Z) : res (list Z) :=
  match args with
  | [stop] => Ok (range_items 0 1 (Z.to_nat (slice_length 0 stop 1)))
  | [start; stop] =>
      Ok (range_items start 1 (Z.to_nat (slice_length start stop 1)))
  | [start; stop; step] =>
      if step =? 0 then Raise ValueError
      else Ok (range_items start step
                 (Z.to_nat (slice_length start stop step)))
  | _ => Raise TypeError
  end.

Definition prelude_range (args : list Z) : res (list Z) :=
  if (length args =? 1)%nat
  then (stop <- py_index args 0 ;; old_range [1; stop])%res
  else old_range args.

Definition old_enumerate {A : Type} (x : list A) (start : Z)
  : list (Z * A) :=
  combine (range_items start 1 (length x)) x.

Definition prelude_enumerate {A : Type} (x : list A) : list (Z * A) :=
  old_enumerate x 1.

(** ** Python statements *)

(** The statement nodes that the two transformers have a visitor for, and
    the compound statements in whose bodies they are met.  [arguments],
    [arg] and [alias] have the fields of Python's [ast]. *)
Module ast_stmt.

Record arg : Type := mk_arg {
  arg_name : string;
  annotation : option ast.expr
}.

Record arguments : Type := mk_arguments {
  posonlyargs : list arg;
  args : list arg;
  vararg : option arg;
  kwonlyargs : list arg;
  kw_defaults : list (option ast.expr);
  kwarg : option arg;
  defaults : list ast.expr
}.

Record alias : Type := mk_alias {
  name : string;
  asname : option string
}.

#[warnings="-register-all"]
Inductive stmt : Type :=
| FunctionDef (fname : string) (fargs : arguments) (body : list stmt)
    (decorator_list : list ast.expr) (returns : option ast.expr)
| Return (value : option ast.expr)
| Assign (targets : list ast.expr) (value : ast.expr)
| AugAssign (target : ast.expr) (op : ast.operator) (value : ast.expr)
| AnnAssign (target annotation : ast.expr) (value : option ast.expr)
| For (target iter : ast.expr) (body orelse : list stmt)
| While (test : ast.expr) (body orelse : list stmt)
| If (test : ast.expr) (body orelse : list stmt)
| Import (names : list alias)
| ImportFrom (module : option string) (names : list alias) (level : nat)
| Expr (value : ast.expr)
| Pass.

End ast_stmt.

(** ** The annotation remover: [TypeHintRemover] *)

(** The visit of the statements of a body: a statement whose visitor
    returns [None] is dropped. *)
Definition filter_map {A B : Type} (f : A -> option B)
  : list A -> list B :=
  fix go (l : list A) : list B :=
    match l with
    | [] => []
    | a :: l' =>
        match f a with
        | Some b => b :: go l'
        | None => go l'
        end
    end.

Definition clear_annotation (a : ast_stmt.arg) : ast_stmt.arg :=
  ast_stmt.mk_arg (ast_stmt.arg_name a) None.

(** [arg.annotation = None] for every [arg] of [node.args.args]: the other
    parameters of the function keep what they have. *)
Definition clear_args (a : ast_stmt.arguments) : ast_stmt.arguments :=
  ast_stmt.mk_arguments (ast_stmt.posonlyargs a)
    (map clear_annotation (ast_stmt.args a)) (ast_stmt.vararg a)
    (ast_stmt.kwonlyargs a) (ast_stmt.kw_defaults a) (ast_stmt.kwarg a)
    (ast_stmt.defaults a).

Definition is_typing (n : ast_stmt.alias) : bool :=
  String.eqb (ast_stmt.name n) "typing".

(** [TypeHintRemover().visit] on a statement: [visit_FunctionDef],
    [visit_AnnAssign], [visit_Import], [visit_ImportFrom], and the
    traversal of the bodies of compound statements.  The pass has no
    visitor for expressions: they stay as they are. *)
Fixpoint remove_hints (node : ast_stmt.stmt) : option ast_stmt.stmt :=
  match node with
  | ast_stmt.FunctionDef fname fargs body decorator_list _ =>
      Some (ast_stmt.FunctionDef fname (clear_args fargs)
              (filter_map remove_hints body) decorator_list None)
  | ast_stmt.AnnAssign target _ value =>
      match value with
      | None => None
      | Some v => Some (ast_stmt.Assign [target] v)
      end
  | ast_stmt.Import names =>
      let names' := filter (fun n => negb (is_typing n)) names in
      if is_empty names' then None else Some (ast_stmt.Import names')
  | ast_stmt.ImportFrom module _ _ =>
      match module with
      | Some m => if String.eqb m "typing" then None else Some node
      | None => Some node
      end
  | ast_stmt.For target iter body orelse =>
      Some (ast_stmt.For target iter (filter_map remove_hints body)
              (filter_map remove_hints orelse))
  | ast_stmt.While test body orelse =>
      Some (ast_stmt.While test (filter_map remove_hints body)
              (filter_map remove_hints orelse))
  | ast_stmt.If test body orelse =>
      Some (ast_stmt.If test (filter_map remove_hints body)
              (filter_map remove_hints orelse))
  | _ => Some node
  end.

(** The pass on the body of a module. *)
Definition remove_hints_module (body : list ast_stmt.stmt)
  : list ast_stmt.stmt :=
  filter_map remove_hints body.

(** What the pass leaves nowhere: an annotated assignment, a return
    annotation, an annotation on a parameter of [args.args], an import of
    the module [typing]. *)
Fixpoint hint_free (node : ast_stmt.stmt) : bool :=
  match node with
  | ast_stmt.FunctionDef _ fargs body _ returns =>
      forallb (fun a => match ast_stmt.annotation a with
                        | None => true
                        | Some _ => false
                        end) (ast_stmt.args fargs)
      && match returns with None => true | Some _ => false end
      && forallb hint_free body
  | ast_stmt.AnnAssign _ _ _ => false
  | ast_stmt.Import names =>
      forallb (fun n => negb (is_typing n)) names && negb (is_empty names)
  | ast_stmt.ImportFrom module _ _ =>
      match module with
      | Some m => negb (String.eqb m "typing")
      | None => true
      end
  | ast_stmt.For _ _ body orelse
  | ast_stmt.While _ body orelse
  | ast_stmt.If _ body orelse =>
      forallb hint_free body && forallb hint_free orelse
  | _ => true
  end.

(** ** The indexing rewriter on statements *)

(** What a visit of a statement can raise: an exception of the
    expression visitors, or one of the two that only [visit_Assign] and
    [visit_AugAssign] meet. *)
Inductive raised : Type :=
| Exception (e : exn)
| NotImplementedError
| SyntaxError.

Inductive stmt_res (A : Type) : Type :=
| Done (a : A)
| Fail (r : raised)
| NoFuel
| NoModel.

Arguments Done {A} a.
Arguments Fail {A} r.
Arguments NoFuel {A}.
Arguments NoModel {A}.

Definition of_res {A : Type} (r : res A) : stmt_res A :=
  match r with
  | Ok a => Done a
  | Raise e => Fail (Exception e)
  | OutOfFuel => NoFuel
  | Unmodelled => NoModel
  end.

Definition stmt_bind {A B : Type} (m : stmt_res A) (k : A -> stmt_res B)
  : stmt_res B :=
  match m with
  | Done a => k a
  | Fail r => Fail r
  | NoFuel => NoFuel
  | NoModel => NoModel
  end.

Declare Scope stmt_scope.
Delimit Scope stmt_scope with stmt.
Notation "x <- m ;; k" := (stmt_bind m (fun x => k))
  (at level 61, m at next level, right associativity) : stmt_scope.

Definition stmt_mapM {A B : Type} (f : A -> stmt_res B)
  : list A -> stmt_res (list B) :=
  fix go (l : list A) : stmt_res (list B) :=
    match l with
    | [] => Done []
    | a :: l' =>
        match f a with
        | Done b =>
            match go l' with
            | Done bs => Done (b :: bs)
            | Fail r => Fail r
            | NoFuel => NoFuel
            | NoModel => NoModel
            end
        | Fail r => Fail r
        | NoFuel => NoFuel
        | NoModel => NoModel
        end
    end.

(** The traversal of an [arg] and of an [arguments] node: neither has a
    visitor of its own, their expressions are visited field by field. *)
Definition visit_arg (a : ast_stmt.arg) : res ast_stmt.arg :=
  (annotation' <- mapM_option (visit ParentOther) (ast_stmt.annotation a) ;;
   Ok (ast_stmt.mk_arg (ast_stmt.arg_name a) annotation'))%res.

Definition visit_arguments (a : ast_stmt.arguments)
  : res ast_stmt.arguments :=
  (posonlyargs' <- mapM visit_arg (ast_stmt.posonlyargs a) ;;
   args' <- mapM visit_arg (ast_stmt.args a) ;;
   vararg' <- mapM_option visit_arg (ast_stmt.vararg a) ;;
   kwonlyargs' <- mapM visit_arg (ast_stmt.kwonlyargs a) ;;
   kw_defaults' <- mapM (mapM_option (visit ParentOther))
                     (ast_stmt.kw_defaults a) ;;
   kwarg' <- mapM_option visit_arg (ast_stmt.kwarg a) ;;
   defaults' <- mapM (visit ParentOther) (ast_stmt.defaults a) ;;
   Ok (ast_stmt.mk_arguments posonlyargs' args' vararg' kwonlyargs'
         kw_defaults' kwarg' defaults'))%res.

(** [isinstance(target, ast.Subscript)] *)
Definition is_Subscript (e : ast.expr) : bool :=
  match e with
  | ast.Subscript _ _ => true
  | _ => false
  end.

(** [isinstance(slice_node, ast.Slice)] *)
Definition is_Slice (e : ast.expr) : bool :=
  match e with
  | ast.Slice _ _ _ => true
  | _ => false
  end.

(** [visit_Assign].  Without a subscript among the targets the node is
    traversed like any other.  With one, and more than one target, the
    visit gives up.  Otherwise the sole target is a subscript: its
    children and the assigned value are visited, and the result is the
    tree of
    [if isinstance((lhs), (list, tuple, str)): (lhs)[expand_idx] = value]
    [else: node]. *)
Definition visit_Assign (targets : list ast.expr) (value : ast.expr)
  : stmt_res ast_stmt.stmt :=
  if negb (existsb is_Subscript targets) then
    of_res
      (targets' <- mapM (visit ParentOther) targets ;;
       value' <- visit ParentOther value ;;
       Ok (ast_stmt.Assign targets' value'))%res
  else if (1 <? length targets)%nat then Fail NotImplementedError
  else
    match targets with
    | [] => Fail (Exception IndexError)
    | ast.Subscript lhs slice :: _ =>
        of_res
          (_ <- assert (types_we_know_how_to_handle slice) ;;
           lhs' <- visit ParentOther lhs ;;
           slice' <- visit ParentOther slice ;;
           value' <- visit ParentOther value ;;
           Ok (ast_stmt.If (isinstance_sequence lhs')
                 [ast_stmt.Assign
                    [ast.Subscript lhs' (expand_idx slice')] value']
                 [ast_stmt.Assign [ast.Subscript lhs' slice'] value']))%res
    | _ :: _ => Fail (Exception AttributeError)
    end.

(** [visit_AugAssign].  A target that is no subscript is traversed like
    any other node.  For a subscript, after the visit of the children the
    statement is written out once more as
    [(lhs)[(slice)] op= (value)] and parsed: a slice between parentheses
    is no Python, the parse raises [SyntaxError]; any other index parses
    back to the node, so that the assertion holds.  Every operator of
    Python has its case in the [match]. *)
Definition visit_AugAssign (target : ast.expr) (op : ast.operator)
    (value : ast.expr) : stmt_res ast_stmt.stmt :=
  match target with
  | ast.Subscript lhs slice =>
      (_ <- of_res (assert (types_we_know_how_to_handle slice)) ;;
       lhs' <- of_res (visit ParentOther lhs) ;;
       slice' <- of_res (visit ParentOther slice) ;;
       value' <- of_res (visit ParentOther value) ;;
       if is_Slice slice' then Fail SyntaxError
       else
         Done (ast_stmt.If (isinstance_sequence lhs')
                 [ast_stmt.AugAssign
                    (ast.Subscript lhs' (expand_idx slice')) op value']
                 [ast_stmt.AugAssign (ast.Subscript lhs' slice') op value']))
      %stmt
  | _ =>
      of_res
        (target' <- visit ParentOther target ;;
         value' <- visit ParentOther value ;;
         Ok (ast_stmt.AugAssign target' op value'))%res
  end.

(** [visit] on a statement: the two visitors above, and the traversal of
    [ast.NodeTransformer] for the other statements, field by field in the
    order of the node's fields. *)
Fixpoint visit_stmt (node : ast_stmt.stmt) {struct node}
  : stmt_res ast_stmt.stmt :=
  match node with
  | ast_stmt.FunctionDef fname fargs body decorator_list returns =>
      (fargs' <- of_res (visit_arguments fargs) ;;
       body' <- stmt_mapM visit_stmt body ;;
       decorator_list' <- of_res (mapM (visit ParentOther) decorator_list) ;;
       returns' <- of_res (mapM_option (visit ParentOther) returns) ;;
       Done (ast_stmt.FunctionDef fname fargs' body' decorator_list'
               returns'))%stmt
  | ast_stmt.Return value =>
      (value' <- of_res (mapM_option (visit ParentOther) value) ;;
       Done (ast_stmt.Return value'))%stmt
  | ast_stmt.Assign targets value => visit_Assign targets value
  | ast_stmt.AugAssign target op value => visit_AugAssign target op value
  | ast_stmt.AnnAssign target annotation value =>
      (target' <- of_res (visit ParentOther target) ;;
       annotation' <- of_res (visit ParentOther annotation) ;;
       value' <- of_res (mapM_option (visit ParentOther) value) ;;
       Done (ast_stmt.AnnAssign target' annotation' value'))%stmt
  | ast_stmt.For target iter body orelse =>
      (target' <- of_res (visit ParentOther target) ;;
       iter' <- of_res (visit ParentOther iter) ;;
       body' <- stmt_mapM visit_stmt body ;;
       orelse' <- stmt_mapM visit_stmt orelse ;;
       Done (ast_stmt.For target' iter' body' orelse'))%stmt
  | ast_stmt.While test body orelse =>
      (test' <- of_res (visit ParentOther test) ;;
       body' <- stmt_mapM visit_stmt body ;;
       orelse' <- stmt_mapM visit_stmt orelse ;;
       Done (ast_stmt.While test' body' orelse'))%stmt
  | ast_stmt.If test body orelse =>
      (test' <- of_res (visit ParentOther test) ;;
       body' <- stmt_mapM visit_stmt body ;;
       orelse' <- stmt_mapM visit_stmt orelse ;;
       Done (ast_stmt.If test' body' orelse'))%stmt
  | ast_stmt.Import _ | ast_stmt.ImportFrom _ _ _ | ast_stmt.Pass =>
      Done node
  | ast_stmt.Expr value =>
      (value' <- of_res (visit ParentOther value) ;;
       Done (ast_stmt.Expr value'))%stmt
  end.

(** [OneBasedIndexingTransformer().visit(tree, is_root=True)] on the body
    of a module. *)
Definition visit_Module (body : list ast_stmt.stmt)
  : stmt_res (list ast_stmt.stmt) :=
  stmt_mapM visit_stmt body.

(** What Python takes as the target of an assignment or of a loop: a
    name, an attribute, a subscript, or a list or tuple of targets. *)
Fixpoint is_target (e : ast.expr) : bool :=
  match e with
  | ast.Name _ | ast.Attribute _ _ | ast.Subscript _ _ => true
  | ast.List elts | ast.Tuple elts => forallb is_target elts
  | _ => false
  end.

(** ** Running the rewritten assignment *)

(** [container[idx] = v] for an integer index: the item of a list is
    replaced in the store; a tuple and a string take no assignment. *)
Definition setitem (container idx v : value) : M unit :=
  match container with
  | VList ref =>
      match idx with
      | VSlice _ _ _ => lift Unmodelled
      | _ =>
          match as_int idx with
          | Some i =>
              (items <- read_list ref ;;
               _ <- lift (py_index items i) ;;
               let i' := if i <? 0 then i + Z.of_nat (length items) else i in
               write_list ref (set_nth (Z.to_nat i') v items))%M
          | None => lift (Raise TypeError)
          end
      end
  | VTuple _ | VStr _ => lift (Raise TypeError)
  | VNone | VBool _ | VInt _ | VIsinstance | VFunction _ _ _ | VMethod _ _ =>
      lift (Raise TypeError)
  | _ => lift Unmodelled
  end.

(** The statements that the rewritten assignments are made of.  In
    [target[idx] = value] the value is evaluated first, then the
    container, then the index.  In [target[idx] op= value] the container
    and the index are evaluated once, the item is read, then the value is
    evaluated and the result of the operation stored; the operation on
    the values of [binop], none of which is changed in place, is
    [binop]. *)
Fixpoint exec_stmt (fuel : nat) (rho : env) (node : ast_stmt.stmt)
    {struct node} : M unit :=
  let exec_body :=
    fix go (body : list ast_stmt.stmt) : M unit :=
      match body with
      | [] => ret tt
      | s :: body' => (_ <- exec_stmt fuel rho s ;; go body')%M
      end in
  match node with
  | ast_stmt.Assign [ast.Subscript container idx] value =>
      (v <- eval fuel rho value ;;
       c <- eval fuel rho container ;;
       i <- eval fuel rho idx ;;
       setitem c i v)%M
  | ast_stmt.AugAssign (ast.Subscript container idx) op value =>
      (c <- eval fuel rho container ;;
       i <- eval fuel rho idx ;;
       old <- subscript c i ;;
       v <- eval fuel rho value ;;
       new <- lift (binop op old v) ;;
       setitem c i new)%M
  | ast_stmt.If test body orelse =>
      (t <- eval fuel rho test ;;
       b <- truthy t ;;
       if b then exec_body body else exec_body orelse)%M
  | ast_stmt.Expr value => (_ <- eval fuel rho value ;; ret tt)%M
  | ast_stmt.Pass => ret tt
  | _ => lift Unmodelled
  end.

(** The statements of a block, one after the other. *)
Definition exec_body (fuel : nat) (rho : env)
  : list ast_stmt.stmt -> M unit :=
  fix go (body : list ast_stmt.stmt) : M unit :=
    match body with
    | [] => ret tt
    | s :: body' => (_ <- exec_stmt fuel rho s ;; go body')%M
    end.
(* ================================================================= *)
(** * Part II: theorems *)
(* ================================================================= *)

(** ** Slices without a step *)

Lemma skipn_nth_error {A : Type} (s : list A) (k : nat) (x : A) :
  nth_error s k = Some x -> skipn k s = x :: skipn (S k) s.
Proof.
  revert k; induction s as [|a s IH]; intros [|k] H; simpl in *;
    try discriminate.
  - now inversion H.
  - now apply IH.
Qed.

Lemma slice_items_step1 {A : Type} (s : list A) (n k : nat) :
  (k + n <= length s)%nat ->
  slice_items s (Z.of_nat k) 1 n = firstn n (skipn k s).
Proof.
  revert k; induction n as [|n IH]; intros k Hk; simpl.
  - reflexivity.
  - rewrite Nat2Z.id.
    destruct (nth_error s k) as [x|] eqn:Hx.
    + rewrite (skipn_nth_error s k x Hx); simpl.
      f_equal.
      replace (Z.of_nat k + 1) with (Z.of_nat (S k)) by lia.
      apply IH; lia.
    + apply nth_error_None in Hx; lia.
Qed.

Lemma clamp_in_range (len i : Z) : 0 <= i <= len -> clamp len 1 i = i.
Proof.
  intros H; unfold clamp.
  destruct (Z.ltb_spec i 0); [lia|].
  destruct (Z.leb_spec len i); simpl; lia.
Qed.

Lemma slice_length_step1 (lo hi : Z) :
  lo <= hi -> Z.to_nat (slice_length lo hi 1) = Z.to_nat (hi - lo).
Proof.
  intros H; unfold slice_length; simpl.
  destruct (Z.ltb_spec lo hi); [rewrite Z.div_1_r|]; f_equal; lia.
Qed.

Lemma slice1_range {A : Type} (s : list A) (lo hi : Z) :
  0 <= lo <= hi -> hi <= Z.of_nat (length s) ->
  slice1 s (Some lo) (Some hi)
  = firstn (Z.to_nat (hi - lo)) (skipn (Z.to_nat lo) s).
Proof.
  intros Hlo Hhi.
  unfold slice1, slice_start, slice_stop; cbv zeta.
  rewrite !clamp_in_range, slice_length_step1 by lia.
  rewrite <- (Z2Nat.id lo) at 1 by lia.
  apply slice_items_step1; lia.
Qed.

Lemma slice1_prefix {A : Type} (s : list A) (hi : Z) :
  0 <= hi <= Z.of_nat (length s) ->
  slice1 s None (Some hi) = firstn (Z.to_nat hi) s.
Proof.
  intros H.
  assert (E : slice1 s None (Some hi) = slice1 s (Some 0) (Some hi)).
  { unfold slice1, slice_start, clamp; simpl.
    destruct (Z.leb_spec (Z.of_nat (length s)) 0) as [H0|H0];
      [|reflexivity].
    replace (Z.of_nat (length s)) with 0 by lia. reflexivity. }
  rewrite E, slice1_range by lia.
  now rewrite Z.sub_0_r.
Qed.

Lemma slice1_suffix {A : Type} (s : list A) (lo : Z) :
  0 <= lo <= Z.of_nat (length s) ->
  slice1 s (Some lo) None = skipn (Z.to_nat lo) s.
Proof.
  intros H.
  assert (E : slice1 s (Some lo) None
              = slice1 s (Some lo) (Some (Z.of_nat (length s)))).
  { unfold slice1, slice_stop, clamp; simpl.
    destruct (Z.ltb_spec (Z.of_nat (length s)) 0); [lia|].
    now rewrite Z.leb_refl. }
  rewrite E, slice1_range by lia.
  apply firstn_all2. rewrite length_skipn. lia.
Qed.

(** [s[:-1]] drops the last character. *)
Lemma slice1_drop_last {A : Type} (body : list A) (x : A) :
  slice1 (body ++ [x]) None (Some (-1)) = body.
Proof.
  assert (E : slice1 (body ++ [x]) None (Some (-1))
              = slice1 (body ++ [x]) None (Some (Z.of_nat (length body)))).
  { unfold slice1, slice_stop, clamp.
    rewrite length_app; simpl length.
    change (-1 <? 0) with true; cbv iota zeta.
    destruct (Z.ltb_spec (-1 + Z.of_nat (length body + 1)) 0); [lia|].
    destruct (Z.ltb_spec (Z.of_nat (length body)) 0); [lia|].
    destruct (Z.leb_spec (Z.of_nat (length body + 1)) (Z.of_nat (length body)));
      [lia|].
    do 3 f_equal; lia. }
  rewrite E, slice1_prefix by (rewrite length_app; simpl; lia).
  rewrite Nat2Z.id, firstn_app, Nat.sub_diag, firstn_all; simpl.
  apply app_nil_r.
Qed.

Lemma py_index_last {A : Type} (body : list A) (x : A) :
  py_index (body ++ [x]) (-1) = Ok x.
Proof.
  unfold py_index. rewrite length_app; simpl length.
  set (n := Z.of_nat (length body + 1)).
  assert (Hn : n = Z.of_nat (length body) + 1) by (unfold n; lia).
  change (-1 <? 0) with true; cbv iota zeta.
  destruct (Z.ltb_spec (-1 + n) 0); [lia|].
  destruct (Z.leb_spec n (-1 + n)); [lia|].
  cbn [orb].
  replace (Z.to_nat (-1 + n)) with (length body) by lia.
  now rewrite nth_error_app2, Nat.sub_diag by lia.
Qed.

Lemma py_index_first {A : Type} (x : A) (rest : list A) :
  py_index (x :: rest) 0 = Ok x.
Proof.
  unfold py_index; simpl length.
  set (n := Z.of_nat (S (length rest))).
  assert (Hn : 0 < n) by (unfold n; lia).
  change (0 <? 0) with false; cbv iota zeta.
  destruct (Z.leb_spec n 0); [lia|].
  reflexivity.
Qed.

(** ** The evaluator's output *)

Lemma split_go_char_snoc (c : ascii) (body cur : text) :
  split_go [c] (body ++ [c]) 0 cur = split_go [c] body 0 cur ++ [[]].
Proof.
  revert cur; induction body as [|a body IH]; intros cur; simpl.
  - now rewrite Ascii.eqb_refl.
  - destruct (Ascii.eqb c a); simpl; now rewrite IH.
Qed.

Lemma split_char_snoc (c : ascii) (body : text) :
  split [c] (body ++ [c]) = split [c] body ++ [[]].
Proof. apply split_go_char_snoc. Qed.

(** The three last steps of [eval_program_with_calls] on the captured
    output. *)
Lemma eval_program_unfold exec rw program perturbation program' output :
  perturb rw program perturbation = Ok program' ->
  exec program' = Ok output ->
  eval_program_with_calls exec rw program perturbation true
  = (last <- py_index output (-1) ;;
     _ <- assert (Ascii.eqb last newline) ;;
     Ok (Some (split [newline] (slice1 output None (Some (-1))))))%res.
Proof.
  intros Hp He. unfold eval_program_with_calls.
  rewrite Hp; simpl. rewrite He; reflexivity.
Qed.

(** C7.  When the program has run and written [output]: if [output] does
    not end with a newline the evaluator raises (an [AssertionError], or an
    [IndexError] when nothing was written) and returns nothing; if it does,
    the evaluator returns the segments of [output] between newlines, in
    order, without the empty segment that follows the last newline. *)
Theorem eval_program_with_calls_output :
  forall exec rw program perturbation program' output,
    perturb rw program perturbation = Ok program' ->
    exec program' = Ok output ->
    ((forall body, output <> body ++ [newline]) ->
     exists e,
       eval_program_with_calls exec rw program perturbation true = Raise e
       /\ (e = AssertionError \/ e = IndexError))
    /\
    (forall body, output = body ++ [newline] ->
     exists lines,
       eval_program_with_calls exec rw program perturbation true
       = Ok (Some lines)
       /\ split [newline] output = lines ++ [[]]).
Proof.
  intros exec rw program perturbation program' output Hp He.
  rewrite (eval_program_unfold _ _ _ _ _ _ Hp He).
  split.
  - intros Hno.
    clear He. induction output as [|x body _] using rev_ind.
    + exists IndexError; split; [reflexivity | now right].
    + rewrite py_index_last; simpl.
      destruct (Ascii.eqb_spec x newline) as [->|Hx].
      * now destruct (Hno body).
      * exists AssertionError; split; [reflexivity | now left].
  - intros body ->.
    rewrite py_index_last, slice1_drop_last; simpl.
    eexists; split; [reflexivity|].
    apply split_char_snoc.
Qed.

Lemma eval_program_with_calls_output_witness :
  exists lines,
    eval_program_with_calls
      (fun _ => Ok (str "7" ++ [newline] ++ str "8" ++ [newline]))
      (fun p => Ok p) (str "print(7); print(8)") None true
    = Ok (Some lines)
    /\ split [newline] (str "7" ++ [newline] ++ str "8" ++ [newline])
       = lines ++ [[]].
Proof.
  exact (proj2
           (eval_program_with_calls_output
              (fun _ => Ok (str "7" ++ [newline] ++ str "8" ++ [newline]))
              (fun p => Ok p) (str "print(7); print(8)") None
              (str "print(7); print(8)")
              (str "7" ++ [newline] ++ str "8" ++ [newline])
              eq_refl eq_refl)
           (str "7" ++ [newline] ++ str "8") eq_refl).
Defined.

(** ** Call extraction and substitution *)

(** A scan that starts from a state the assertion rejects and ends in a
    state it accepts has stopped at its [break], inside the scanned text:
    [end] is fresh. *)
Lemma scan_call_end (cs : text) :
  forall (i : nat) (st : scan_state),
    scan_ok st = false ->
    scan_ok (scan_call cs i st) = true ->
    exists e, end_ (scan_call cs i st) = Some e
              /\ (i <= e < i + length cs)%nat.
Proof.
  induction cs as [|c cs IH]; intros i st Hst Hok; simpl in *.
  - congruence.
  - destruct (if (c =? dquote)%char || (c =? squote)%char
              then negb (in_string st) else in_string st) eqn:Hin.
    + apply IH in Hok as (e & He & Hr);
        [|unfold scan_ok; simpl; now rewrite andb_false_r].
      exists e; split; [exact He | lia].
    + set (started' := if (c =? lparen)%char then true else started st) in *.
      set (depth' := if (c =? lparen)%char then depth st + 1
                     else if (c =? rparen)%char then depth st - 1
                          else depth st) in *.
      destruct (started' && (depth' =? 0)) eqn:Hbr.
      * exists i; split; [reflexivity | lia].
      * apply IH in Hok as (e & He & Hr);
          [|unfold scan_ok; simpl; rewrite andb_true_r, andb_comm;
            exact Hbr].
        exists e; split; [exact He | lia].
Qed.

Lemma extract_loop_spans (s : text) (fuel : nat) :
  forall idx end0 spans calls spans' calls',
    Forall2 (span_of s) spans calls ->
    extract_loop fuel s idx end0 spans calls = Ok (spans', calls') ->
    Forall2 (span_of s) spans' calls'.
Proof.
  induction fuel as [|fuel IH]; intros [idx|] end0 spans calls spans' calls'
    Hinv H; simpl in H; try discriminate; try (now inversion H; subst).
  set (st := scan_call (skipn idx s) 0 (mk_scan false false 0 end0)) in *.
  destruct (scan_ok st) eqn:Hok; simpl in H; [|discriminate].
  destruct (scan_call_end (skipn idx s) 0 (mk_scan false false 0 end0)
              eq_refl Hok) as (e & He & Hr).
  fold st in He. rewrite He in H.
  apply IH in H; [exact H|].
  apply Forall2_app; [exact Hinv|].
  constructor; [|constructor].
  rewrite length_skipn in Hr.
  unfold span_of; simpl. repeat split; lia.
Qed.

(** The turns of the [while] loop never exceed the fuel it is given. *)
Lemma find_at_ge (sub s : text) :
  forall i j, find_at sub s i = Some j -> (i <= j)%nat.
Proof.
  induction s as [|c s IH]; intros i j H; simpl in H.
  - destruct (startswith sub []); inversion H; lia.
  - destruct (startswith sub (c :: s)); [inversion H; lia|].
    apply IH in H; lia.
Qed.

Lemma find_ge (sub s : text) (start j : nat) :
  find sub s start = Some j -> (start <= j)%nat.
Proof.
  unfold find. destruct (length s <? start)%nat; [discriminate|].
  apply find_at_ge.
Qed.

Lemma extract_loop_fuel (s : text) (fuel : nat) :
  forall idx end0 spans calls,
    (forall i, idx = Some i -> (length s - i < fuel)%nat) ->
    extract_loop fuel s idx end0 spans calls <> OutOfFuel.
Proof.
  induction fuel as [|fuel IH]; intros [idx|] end0 spans calls Hf; simpl;
    try discriminate.
  - specialize (Hf idx eq_refl); lia.
  - set (st := scan_call (skipn idx s) 0 (mk_scan false false 0 end0)).
    destruct (scan_ok st) eqn:Hok; simpl; [|discriminate].
    destruct (scan_call_end (skipn idx s) 0 (mk_scan false false 0 end0)
                eq_refl Hok) as (e & He & Hr).
    fold st in He. rewrite He.
    apply IH. intros i Hi. apply find_ge in Hi.
    rewrite length_skipn in Hr.
    specialize (Hf idx eq_refl). lia.
Qed.

Lemma extract_calls_terminates (s : text) : extract_calls s <> OutOfFuel.
Proof.
  unfold extract_calls, assert.
  destruct (contains candidate s); cbn [bind]; [|discriminate].
  apply extract_loop_fuel. intros; lia.
Qed.

Lemma firstn_skipn_middle {A : Type} (s : list A) (lo hi : nat) :
  (lo <= hi <= length s)%nat ->
  firstn lo s ++ firstn (hi - lo) (skipn lo s) ++ skipn hi s = s.
Proof.
  intros H.
  replace (skipn hi s) with (skipn (hi - lo) (skipn lo s))
    by (rewrite skipn_skipn; f_equal; lia).
  now rewrite (firstn_skipn (hi - lo)), firstn_skipn.
Qed.

(** [value[1:-1]] undoes the wrapping in brackets. *)
Lemma slice1_unbracket (c : text) :
  slice1 (bracketed c) (Some 1) (Some (-1)) = c.
Proof.
  unfold bracketed.
  assert (E : slice1 ([lbracket] ++ c ++ [rbracket]) (Some 1) (Some (-1))
              = slice1 ([lbracket] ++ c ++ [rbracket]) (Some 1)
                  (Some (1 + Z.of_nat (length c)))).
  { unfold slice1, slice_stop. do 3 f_equal.
    rewrite !length_app; simpl length.
    set (n := Z.of_nat (1 + (length c + 1))).
    assert (Hn : n = Z.of_nat (length c) + 2) by (unfold n; lia).
    rewrite (clamp_in_range n (1 + Z.of_nat (length c))) by lia.
    unfold clamp. change (-1 <? 0) with true; cbv iota zeta.
    destruct (Z.ltb_spec (-1 + n) 0); lia. }
  rewrite E, slice1_range by (rewrite ?length_app; simpl length; lia).
  simpl skipn.
  replace (Z.to_nat (1 + Z.of_nat (length c) - 1)) with (length c) by lia.
  now rewrite firstn_app, Nat.sub_diag, firstn_all, app_nil_r.
Qed.

Lemma sub_calls_loop_identity (s : text) :
  forall spans calls,
    Forall2 (span_of s) spans calls ->
    sub_calls_loop s 0 spans (map bracketed calls) = Ok s.
Proof.
  induction 1 as [|[lo hi] call spans calls (Hlo & Hhi & Hcall) _ IH];
    [reflexivity|].
  cbn [fst snd] in *. cbn [map sub_calls_loop].
  assert (H0 : py_index (bracketed call) 0 = Ok lbracket)
    by apply py_index_first.
  assert (H1 : py_index (bracketed call) (-1) = Ok rbracket)
    by apply (py_index_last (lbracket :: call)).
  rewrite H0, H1. cbn [bind].
  change (Ascii.eqb lbracket lbracket && Ascii.eqb rbracket rbracket)
    with true.
  cbn [assert bind].
  rewrite slice1_unbracket, !Z.add_0_r.
  assert (Hlen : Z.of_nat (length call) = hi - lo).
  { rewrite Hcall, slice1_range, length_firstn, length_skipn by lia. lia. }
  assert (Hs : slice1 s None (Some lo) ++ call ++ slice1 s (Some hi) None = s).
  { rewrite Hcall, slice1_prefix, slice1_suffix, slice1_range by lia.
    rewrite Z2Nat.inj_sub by lia.
    apply firstn_skipn_middle; lia. }
  rewrite Hs, Hlen.
  replace (hi - lo - (hi - lo)) with 0 by lia.
  exact IH.
Qed.

(** C8.  When [extract_calls] succeeds on a text, [sub_calls] on that
    text, with the extracted spans and each extracted call between square
    brackets as the values, gives the text back. *)
Theorem extract_calls_sub_calls_round_trip :
  forall (s : text) (spans : list (Z * Z)) (calls : list text),
    extract_calls s = Ok (spans, calls) ->
    sub_calls s spans (map bracketed calls) = Ok s.
Proof.
  intros s spans calls H. unfold extract_calls, assert in H.
  destruct (contains candidate s); cbn [bind] in H; [|discriminate].
  apply extract_loop_spans in H; [|constructor].
  now apply sub_calls_loop_identity.
Qed.

Lemma extract_calls_sub_calls_round_trip_witness :
  let s := str "assert candidate(candidate('))'), (4)) == 5" in
  sub_calls s [(7, 38); (17, 32)]
    (map bracketed [str "candidate(candidate('))'), (4))";
                    str "candidate('))')"])
  = Ok s.
Proof.
  exact (extract_calls_sub_calls_round_trip
           (str "assert candidate(candidate('))'), (4)) == 5")
           [(7, 38); (17, 32)]
           [str "candidate(candidate('))'), (4))"; str "candidate('))')"]
           eq_refl).
Defined.

(** ** Docstring removal *)

Lemma join_nil_concat (parts : list text) : join [] parts = concat parts.
Proof.
  induction parts as [|p [|p' ps] IH]; simpl in *.
  - reflexivity.
  - now rewrite app_nil_r.
  - now rewrite IH.
Qed.

(** A segment without the quote character is read through. *)
Lemma split_go_segment (q : ascii) (seg : text) :
  forall rest cur,
    ~ In q seg ->
    split_go (triple q) (seg ++ rest) 0 cur
    = split_go (triple q) rest 0 (cur ++ seg).
Proof.
  induction seg as [|c seg IH]; intros rest cur Hq.
  - now rewrite app_nil_r.
  - cbn [app split_go triple startswith].
    destruct (Ascii.eqb_spec q c) as [->|Hc]; [now destruct Hq; left|].
    cbn [andb]. rewrite IH by (intros Hin; apply Hq; now right).
    now rewrite <- app_assoc.
Qed.

(** A delimiter closes the segment being read. *)
Lemma split_go_delimiter (q : ascii) (rest cur : text) :
  split_go (triple q) (triple q ++ rest) 0 cur
  = cur :: split_go (triple q) rest 0 [].
Proof.
  cbn [app split_go triple startswith length Nat.sub].
  now rewrite Ascii.eqb_refl.
Qed.

Lemma split_go_join (q : ascii) (segs : list text) :
  forall seg cur,
    Forall (fun seg => ~ In q seg) (seg :: segs) ->
    split_go (triple q) (join (triple q) (seg :: segs)) 0 cur
    = (cur ++ seg) :: segs.
Proof.
  induction segs as [|seg' segs IH]; intros seg cur Hq.
  - cbn [join]. rewrite <- (app_nil_r seg) at 1.
    rewrite split_go_segment by now inversion Hq.
    reflexivity.
  - change (join (triple q) (seg :: seg' :: segs))
      with (seg ++ triple q ++ join (triple q) (seg' :: segs)).
    rewrite split_go_segment by now inversion Hq.
    rewrite split_go_delimiter, IH by now inversion Hq.
    reflexivity.
Qed.

(** The parts at the even positions of [enumerate] are those at the
    positions 0, 2, 4, ... of the list, as [nth] counts them. *)
Lemma even_indexed_positions {A : Type} (d : A) (n : nat) :
  forall parts : list A,
    (length parts <= n)%nat ->
    even_indexed parts
    = map (fun k => nth (2 * k) parts d)
        (seq 0 (Nat.div2 (S (length parts)))).
Proof.
  induction n as [|n IH]; intros [|p [|p' rest]] Hlen; simpl in Hlen;
    try reflexivity; try lia.
  cbn [even_indexed length Nat.div2].
  rewrite (IH rest) by lia.
  cbn [seq map]. f_equal.
  rewrite <- seq_shift, map_map.
  apply map_ext. intros k.
  replace (2 * S k)%nat with (S (S (2 * k))) by lia. reflexivity.
Qed.

(** C9.  A pass of [remove_docstrings] splits the text at the triple
    quote and keeps, in order, the segments at the positions 0, 2, 4, ...
    of the split as Python counts them: the first, third, fifth, ...
    segment.  The segments in between, the second, fourth, ... (the
    even-numbered ones when the segments are counted from one), are
    removed.  On a text made of segments without the quote character
    joined by the delimiter the split gives these segments back, so what
    stays is the text outside the delimited regions.  [remove_docstrings]
    makes one such pass for each of the two triple quotes. *)
Theorem strip_delimited_removes_every_second_segment :
  (forall delim s : text,
      let parts := split delim s in
      strip_delimited delim s
      = concat (map (fun k => nth (2 * k) parts [])
                  (seq 0 (Nat.div2 (S (length parts))))))
  /\ (forall (q : ascii) (seg : text) (segs : list text),
         Forall (fun seg => ~ In q seg) (seg :: segs) ->
         split (triple q) (join (triple q) (seg :: segs)) = seg :: segs
         /\ strip_delimited (triple q) (join (triple q) (seg :: segs))
            = concat (map (fun k => nth (2 * k) (seg :: segs) [])
                        (seq 0 (Nat.div2 (S (S (length segs)))))))
  /\ (forall s : text,
         remove_docstrings s
         = lstrip [newline]
             (replace (str ":" ++ [newline] ++ str "    " ++ [newline])
                (str ":" ++ [newline])
                (strip_delimited (triple squote)
                   (replace (str "FIX = " ++ triple squote) (triple squote)
                      (strip_delimited (triple dquote)
                         (replace (str "FIX = " ++ triple dquote)
                            (triple dquote) s)))))).
Proof.
  assert (H : forall delim s : text,
             strip_delimited delim s
             = concat (map (fun k => nth (2 * k) (split delim s) [])
                         (seq 0 (Nat.div2 (S (length (split delim s))))))).
  { intros delim s. unfold strip_delimited. cbv zeta.
    rewrite join_nil_concat. f_equal.
    now apply (even_indexed_positions [] (length (split delim s))). }
  split; [exact H|]. split; [|reflexivity].
  intros q seg segs Hq.
  assert (Hs : split (triple q) (join (triple q) (seg :: segs))
               = seg :: segs).
  { unfold split. now rewrite split_go_join by exact Hq. }
  split; [exact Hs|].
  rewrite H, Hs. reflexivity.
Qed.

Lemma strip_delimited_removes_every_second_segment_witness :
  strip_delimited (triple dquote)
    (join (triple dquote)
       [str "def f():"; str " doc "; str " return 1"; str "more doc"])
  = str "def f(): return 1".
Proof.
  refine (proj2 (proj1 (proj2 strip_delimited_removes_every_second_segment)
                   dquote (str "def f():")
                   [str " doc "; str " return 1"; str "more doc"] _)).
  repeat constructor; intros H; simpl in H; repeat destruct H as [H|H];
    try discriminate; contradiction.
Defined.

(** ** The filtering loop of the assembler *)

Section FilterLoop.

Variable exec : text -> res text.
Variable rewrite : text -> res text.
Variables context pf : text.

Let run : text -> res (option (list text)) :=
  run_call exec rewrite context pf.

Let survives (call : text) : bool := negb (is_zero_division (run call)).

(** One turn of the loop, by the outcome of the call. *)
Lemma filter_loop_dropped i call rest st :
  run call = Raise ZeroDivisionError ->
  filter_loop exec rewrite context pf i (call :: rest) st
  = filter_loop exec rewrite context pf (S i) rest
      (mk_filter true (filtered_call_indices st)
         (filtered_formatted_calls st)).
Proof.
  unfold run, run_call; intros H; cbn [filter_loop]. now rewrite H.
Qed.

Lemma filter_loop_kept i call rest st line :
  run call = Ok (Some [line]) ->
  filter_loop exec rewrite context pf i (call :: rest) st
  = filter_loop exec rewrite context pf (S i) rest
      (mk_filter (filtered st) (filtered_call_indices st ++ [i])
         (filtered_formatted_calls st ++ [call])).
Proof.
  unfold run, run_call; intros H; cbn [filter_loop]. now rewrite H.
Qed.

(** A turn that lets the loop go on either dropped the call on a
    [ZeroDivisionError] or kept it on one line of output. *)
Lemma filter_loop_step i call rest st st' :
  filter_loop exec rewrite context pf i (call :: rest) st = Ok st' ->
  run call = Raise ZeroDivisionError \/ exists line, run call = Ok (Some [line]).
Proof.
  unfold run, run_call; cbn [filter_loop].
  destruct (eval_program_with_calls _ _ _ _ _) as [[[|line [|]]|]|[]| |];
    simpl; try discriminate; eauto.
Qed.

Lemma filter_loop_survivors (calls : list text) :
  forall i st st',
    filter_loop exec rewrite context pf i calls st = Ok st' ->
    filtered_call_indices st'
    = filtered_call_indices st
        ++ filter (fun j => survives (nth (j - i) calls []))
             (seq i (length calls))
    /\ filtered_formatted_calls st'
       = filtered_formatted_calls st ++ filter survives calls
    /\ filtered st' = filtered st || negb (forallb survives calls).
Proof.
  induction calls as [|call rest IH]; intros i st st' H.
  - inversion H; subst; simpl.
    now rewrite !app_nil_r, orb_false_r.
  - assert (Htail : filter (fun j => survives (nth (j - i) (call :: rest) []))
                      (seq (S i) (length rest))
                    = filter (fun j => survives (nth (j - S i) rest []))
                        (seq (S i) (length rest))).
    { apply filter_ext_in. intros j Hj. apply in_seq in Hj.
      replace (j - i)%nat with (S (j - S i)) by lia. reflexivity. }
    cbn [length seq filter forallb]. rewrite Nat.sub_diag, Htail.
    change (nth 0 (call :: rest) []) with call.
    destruct (filter_loop_step _ _ _ _ _ H) as [Hz|[line Hl]].
    + assert (Hs : survives call = false)
        by (unfold survives; now rewrite Hz).
      rewrite (filter_loop_dropped _ _ _ _ Hz) in H.
      apply IH in H as (Hi & Hc & Hf); cbn [filtered_call_indices
        filtered_formatted_calls filtered] in *.
      rewrite Hs; cbn [negb andb]. rewrite Hi, Hc, Hf.
      now rewrite orb_true_r.
    + assert (Hs : survives call = true)
        by (unfold survives; now rewrite Hl).
      rewrite (filter_loop_kept _ _ _ _ _ Hl) in H.
      apply IH in H as (Hi & Hc & Hf); cbn [filtered_call_indices
        filtered_formatted_calls filtered] in *.
      rewrite Hs; cbn [negb andb]. rewrite Hi, Hc, Hf, <- !app_assoc.
      now idtac.
Qed.

Lemma filter_loop_propagates (pre : list text) :
  forall i st call post e,
    Forall (fun c => run c = Raise ZeroDivisionError
                     \/ exists line, run c = Ok (Some [line])) pre ->
    run call = Raise e ->
    e <> ZeroDivisionError ->
    filter_loop exec rewrite context pf i (pre ++ call :: post) st = Raise e.
Proof.
  induction pre as [|c pre IH]; intros i st call post e Hpre Hrun He.
  - unfold run, run_call in Hrun.
    change ([] ++ call :: post) with (call :: post).
    cbn [filter_loop]. rewrite Hrun.
    destruct e; congruence.
  - change ((c :: pre) ++ call :: post) with (c :: (pre ++ call :: post)).
    inversion Hpre as [|? ? [Hz|[line Hl]] Hrest]; subst.
    + rewrite (filter_loop_dropped _ _ _ _ Hz). now apply IH.
    + rewrite (filter_loop_kept _ _ _ _ _ Hl). now apply IH.
Qed.

End FilterLoop.

Lemma filter_by_index {A : Type} (f : A -> bool) (d : A) (l : list A) :
  forall i,
    map (fun j => nth (j - i) l d)
      (filter (fun j => f (nth (j - i) l d)) (seq i (length l)))
    = filter f l.
Proof.
  induction l as [|a l IH]; intros i; [reflexivity|].
  cbn [length seq filter]. rewrite Nat.sub_diag.
  change (nth 0 (a :: l) d) with a.
  assert (Htail : filter (fun j => f (nth (j - i) (a :: l) d))
                    (seq (S i) (length l))
                  = filter (fun j => f (nth (j - S i) l d))
                      (seq (S i) (length l))).
  { apply filter_ext_in. intros j Hj. apply in_seq in Hj.
    replace (j - i)%nat with (S (j - S i)) by lia. reflexivity. }
  assert (Hmap : forall js,
             Forall (fun j => S i <= j)%nat js ->
             map (fun j => nth (j - i) (a :: l) d) js
             = map (fun j => nth (j - S i) l d) js).
  { intros js Hjs. apply map_ext_in. intros j Hj.
    rewrite Forall_forall in Hjs. specialize (Hjs j Hj).
    replace (j - i)%nat with (S (j - S i)) by lia. reflexivity. }
  assert (Hge : Forall (fun j => S i <= j)%nat
                  (filter (fun j => f (nth (j - S i) l d))
                     (seq (S i) (length l)))).
  { apply Forall_forall. intros j Hj. apply filter_In in Hj as [Hj _].
    apply in_seq in Hj. lia. }
  rewrite Htail.
  destruct (f a); cbn [map filter]; rewrite ?Nat.sub_diag;
    change (nth 0 (a :: l) d) with a;
    rewrite (Hmap _ Hge), IH; reflexivity.
Qed.

(** The loop that runs every call of the deduplicated list under
    the perturbation: when it ends, the indices it kept are, in order, the
    positions of the calls whose run did not raise [ZeroDivisionError],
    the calls it kept are the calls at those positions, and the
    [filtered] flag is raised as soon as one call was dropped; and when
    the run of a call raises anything else, the calls before it having
    been dropped or kept, the loop raises that same exception. *)
Lemma filter_loop_outcome :
  forall (exec rewrite : text -> res text) (context pf : text)
         (calls : list text) (flag : bool),
    let run := run_call exec rewrite context pf in
    let survives := fun call => negb (is_zero_division (run call)) in
    (forall st',
        filter_loop exec rewrite context pf 0 calls (mk_filter flag [] [])
        = Ok st' ->
        filtered_call_indices st'
        = filter (fun i => survives (nth i calls [])) (seq 0 (length calls))
        /\ filtered_formatted_calls st'
           = map (fun i => nth i calls []) (filtered_call_indices st')
        /\ filtered st' = flag || negb (forallb survives calls))
    /\
    (forall pre call post e,
        calls = pre ++ call :: post ->
        Forall (fun c => run c = Raise ZeroDivisionError
                         \/ exists line, run c = Ok (Some [line])) pre ->
        run call = Raise e ->
        e <> ZeroDivisionError ->
        filter_loop exec rewrite context pf 0 calls (mk_filter flag [] [])
        = Raise e).
Proof.
  intros exec rewrite context pf calls flag run survives. split.
  - intros st' H.
    apply filter_loop_survivors in H as (Hi & Hc & Hf).
    cbn [filtered_call_indices filtered_formatted_calls filtered app] in *.
    assert (Hseq : filter (fun j => survives (nth (j - 0) calls []))
                     (seq 0 (length calls))
                   = filter (fun i => survives (nth i calls []))
                       (seq 0 (length calls))).
    { apply filter_ext. intros j. now rewrite Nat.sub_0_r. }
    split; [|split].
    + rewrite Hi. exact Hseq.
    + rewrite Hc, Hi. symmetry.
      etransitivity; [|apply (filter_by_index survives [] calls 0)].
      apply map_ext. intros j. now rewrite Nat.sub_0_r.
    + exact Hf.
  - intros pre call post e -> Hpre Hrun He.
    now apply filter_loop_propagates.
Qed.

(** ** Induction on expressions *)

Section ExprInduction.

Variable P : ast.expr -> Prop.

Let P_option (o : option ast.expr) : Prop :=
  match o with
  | None => True
  | Some e => P e
  end.

Hypothesis HConstant : forall c, P (ast.Constant c).
Hypothesis HName : forall x, P (ast.Name x).
Hypothesis HUnaryOp : forall op e, P e -> P (ast.UnaryOp op e).
Hypothesis HBinOp : forall l op r, P l -> P r -> P (ast.BinOp l op r).
Hypothesis HCompare : forall l op r, P l -> P r -> P (ast.Compare l op r).
Hypothesis HIfExp :
  forall t b o, P t -> P b -> P o -> P (ast.IfExp t b o).
Hypothesis HSubscript : forall v s, P v -> P s -> P (ast.Subscript v s).
Hypothesis HSlice :
  forall lo hi st,
    P_option lo -> P_option hi -> P_option st -> P (ast.Slice lo hi st).
Hypothesis HAttribute : forall v a, P v -> P (ast.Attribute v a).
Hypothesis HCall :
  forall f args, P f -> Forall P args -> P (ast.Call f args).
Hypothesis HLambda : forall a b, P b -> P (ast.Lambda a b).
Hypothesis HList : forall elts, Forall P elts -> P (ast.List elts).
Hypothesis HTuple : forall elts, Forall P elts -> P (ast.Tuple elts).

Lemma expr_induction : forall e, P e.
Proof.
  fix IH 1.
  assert (IHs : forall es, Forall P es).
  { induction es as [|e es IHes]; constructor; [apply IH | exact IHes]. }
  assert (IHo : forall o, P_option o).
  { intros [e|]; simpl; [apply IH | exact I]. }
  intros [c|x|op e|l op r|l op r|t b o|v s|lo hi st|v a|f args|a b|elts|elts].
  - apply HConstant.
  - apply HName.
  - apply HUnaryOp; apply IH.
  - apply HBinOp; apply IH.
  - apply HCompare; apply IH.
  - apply HIfExp; apply IH.
  - apply HSubscript; apply IH.
  - apply HSlice; apply IHo.
  - apply HAttribute; apply IH.
  - apply HCall; [apply IH | apply IHs].
  - apply HLambda; apply IH.
  - apply HList; apply IHs.
  - apply HTuple; apply IHs.
Qed.

End ExprInduction.

(** ** The rewriter rejects what it does not know *)

Lemma bind_settled {A B : Type} (m : res A) (k : A -> res B) :
  settled m -> (forall a, settled (k a)) -> settled (bind m k).
Proof.
  intros [[a ->]| ->] Hk; simpl; [apply Hk | now right].
Qed.

Lemma bind_fails_left {A B : Type} (m : res A) (k : A -> res B) :
  m = Raise AssertionError -> bind m k = Raise AssertionError.
Proof. now intros ->. Qed.

Lemma bind_fails_right {A B : Type} (m : res A) (k : A -> res B) :
  settled m -> (forall a, k a = Raise AssertionError) ->
  bind m k = Raise AssertionError.
Proof.
  intros [[a ->]| ->] Hk; simpl; [apply Hk | reflexivity].
Qed.

Lemma mapM_settled {A B : Type} (f : A -> res B) (l : list A) :
  Forall (fun a => settled (f a)) l -> settled (mapM f l).
Proof.
  induction 1 as [|a l [[b Hb]|Hb] _ [[bs Hbs]|Hbs]]; simpl;
    rewrite ?Hb, ?Hbs; try (now right); left; eauto.
Qed.

Lemma mapM_fails {A B : Type} (f : A -> res B) (l : list A) :
  Forall (fun a => settled (f a)) l ->
  Exists (fun a => f a = Raise AssertionError) l ->
  mapM f l = Raise AssertionError.
Proof.
  induction 1 as [|a l Ha Hl IH]; intros Hex; inversion Hex; subst; simpl.
  - now match goal with H : f a = _ |- _ => rewrite H end.
  - destruct Ha as [[b ->]| ->]; [|reflexivity].
    now rewrite IH.
Qed.

Lemma mapM_option_settled {A B : Type} (f : A -> res B) (o : option A) :
  match o with None => True | Some a => settled (f a) end ->
  settled (mapM_option f o).
Proof.
  destruct o as [a|]; simpl; [|left; eauto].
  intros [[b ->]| ->]; [left; eauto | now right].
Qed.

Lemma visit_Attribute_settled (p : parent) (value : ast.expr) (attr : string) :
  settled (visit_Attribute p value attr).
Proof.
  unfold visit_Attribute.
  repeat match goal with
         | |- settled (if ?c then _ else _) => destruct c
         | |- settled (match ?p with ParentCall _ => _ | ParentOther => _ end) =>
             destruct p
         | |- settled (Ok _) => left; eauto
         | |- settled (Raise AssertionError) => now right
         end.
Qed.

Lemma assert_settled (c : bool) : settled (assert c).
Proof. destruct c; [left; eexists; reflexivity | now right]. Qed.

Lemma visit_settled : forall (e : ast.expr) (p : parent), settled (visit p e).
Proof.
  induction e using expr_induction; intros p; cbn [visit];
    repeat first
      [ apply bind_settled; [solve [eauto using assert_settled] | intros ?]
      | apply bind_settled;
        [apply mapM_option_settled;
         match goal with |- match ?o with _ => _ end => destruct o end;
         solve [eauto | exact I] | intros ?]
      | apply bind_settled;
        [apply mapM_settled;
         match goal with H : Forall _ _ |- _ =>
           solve [eapply Forall_impl; [|exact H]; cbv beta; eauto] end
        | intros ?]
      | apply visit_Attribute_settled
      | solve [left; eauto] ].
Qed.

Lemma mapM_visit_settled (p : parent) (es : list ast.expr) :
  settled (mapM (visit p) es).
Proof.
  apply mapM_settled, Forall_forall. intros e _. apply visit_settled.
Qed.

Lemma mapM_option_visit_settled (p : parent) (o : option ast.expr) :
  settled (mapM_option (visit p) o).
Proof.
  apply mapM_option_settled. destruct o; [apply visit_settled | exact I].
Qed.

Lemma mapM_visit_rejects (p : parent) (es : list ast.expr) :
  Forall rejected es ->
  existsb has_unhandled_subscript es = true ->
  mapM (visit p) es = Raise AssertionError.
Proof.
  intros Hall Hex. apply mapM_fails.
  - apply Forall_forall. intros e _. apply visit_settled.
  - apply existsb_exists in Hex as (e & Hin & He).
    apply Exists_exists. exists e; split; [exact Hin|].
    rewrite Forall_forall in Hall. now apply Hall.
Qed.

Lemma mapM_option_visit_rejects (p : parent) (o : option ast.expr) :
  match o with None => True | Some e => rejected e end ->
  match o with None => false | Some e => has_unhandled_subscript e end = true ->
  mapM_option (visit p) o = Raise AssertionError.
Proof.
  destruct o as [e|]; simpl; [|discriminate].
  intros IH H. now rewrite (IH p H).
Qed.

Lemma visit_rejects : forall e : ast.expr, rejected e.
Proof.
  induction e using expr_induction; intros p Hu;
    cbn [visit has_unhandled_subscript] in Hu |- *;
    repeat match goal with
           | H : _ || _ = true |- _ => apply orb_true_iff in H as [H|H]
           end;
    try discriminate;
    try solve
      [ repeat first
          [ apply bind_fails_left;
            solve [ auto
                  | apply mapM_visit_rejects; assumption
                  | apply mapM_option_visit_rejects; assumption ]
          | apply bind_fails_right;
            [ solve [ apply visit_settled
                    | apply mapM_visit_settled
                    | apply mapM_option_visit_settled
                    | apply assert_settled ]
            | intros ? ] ] ].
  apply bind_fails_left.
  apply negb_true_iff in Hu. now rewrite Hu.
Qed.

(** C4.  A subscript whose index is of none of the kinds the rewriter
    knows makes the pass fail an assertion: at the subscript itself,
    whatever its place under a call or elsewhere, and for every expression
    that holds such a subscript at any depth.  The pass never returns a
    tree for it. *)
Theorem visit_Subscript_unhandled_kind :
  (forall (p : parent) (value slice : ast.expr),
      types_we_know_how_to_handle slice = false ->
      visit p (ast.Subscript value slice) = Raise AssertionError)
  /\ (forall (p : parent) (node : ast.expr),
         has_unhandled_subscript node = true ->
         visit p node = Raise AssertionError).
Proof.
  split.
  - intros p value slice H. cbn [visit]. now rewrite H.
  - intros p node H. now apply visit_rejects.
Qed.

Lemma visit_Subscript_unhandled_kind_witness :
  visit ParentOther
    (ast.Subscript (ast.Name "xs") (ast.Call (ast.Name "f") []))
  = Raise AssertionError
  /\ rewrite_expr
       (ast.BinOp (int_const 1) ast.Add
          (ast.Subscript (ast.Name "m")
             (ast.Tuple [int_const 1; int_const 2])))
     = Raise AssertionError.
Proof.
  split.
  - exact (proj1 visit_Subscript_unhandled_kind ParentOther
             (ast.Name "xs") (ast.Call (ast.Name "f") []) eq_refl).
  - exact (proj2 visit_Subscript_unhandled_kind ParentOther
             (ast.BinOp (int_const 1) ast.Add
                (ast.Subscript (ast.Name "m")
                   (ast.Tuple [int_const 1; int_const 2])))
             eq_refl).
Defined.

(** ** Evaluation, node by node *)

Section EvalEquations.

Variables (fuel : nat) (rho : env).

Lemma eval_Constant c h :
  eval fuel rho (ast.Constant c) h = Ok (constant_value c, h).
Proof. reflexivity. Qed.

Lemma eval_Name x h :
  eval fuel rho (ast.Name x) h = lift (load_name rho x) h.
Proof. reflexivity. Qed.

Lemma eval_UnaryOp op e :
  eval fuel rho (ast.UnaryOp op e)
  = (v <- eval fuel rho e ;; unaryop op v)%M.
Proof. reflexivity. Qed.

Lemma eval_BinOp l op r :
  eval fuel rho (ast.BinOp l op r)
  = (a <- eval fuel rho l ;; b <- eval fuel rho r ;; lift (binop op a b))%M.
Proof. reflexivity. Qed.

Lemma eval_Compare l op r :
  eval fuel rho (ast.Compare l op r)
  = (a <- eval fuel rho l ;; b <- eval fuel rho r ;;
     lift (compare op a b))%M.
Proof. reflexivity. Qed.

Lemma eval_IfExp test body orelse :
  eval fuel rho (ast.IfExp test body orelse)
  = (t <- eval fuel rho test ;;
     b <- truthy t ;;
     if b then eval fuel rho body else eval fuel rho orelse)%M.
Proof. reflexivity. Qed.

Lemma eval_Subscript value slice :
  eval fuel rho (ast.Subscript value slice)
  = (c <- eval fuel rho value ;; i <- eval fuel rho slice ;;
     subscript c i)%M.
Proof. reflexivity. Qed.

Lemma eval_Slice lower upper step :
  eval fuel rho (ast.Slice lower upper step)
  = (lo <- eval_option (eval fuel rho) lower ;;
     hi <- eval_option (eval fuel rho) upper ;;
     st <- eval_option (eval fuel rho) step ;;
     ret (VSlice lo hi st))%M.
Proof. reflexivity. Qed.

Lemma eval_Attribute value attr :
  eval fuel rho (ast.Attribute value attr)
  = (v <- eval fuel rho value ;; lift (getattr v attr))%M.
Proof. reflexivity. Qed.

Lemma eval_Call func args :
  eval fuel rho (ast.Call func args)
  = (f <- eval fuel rho func ;;
     vs <- eval_list (eval fuel rho) args ;;
     call_value (run_body fuel) f vs)%M.
Proof. reflexivity. Qed.

Lemma eval_Lambda arg body h :
  eval fuel rho (ast.Lambda arg body) h = Ok (VFunction rho arg body, h).
Proof. reflexivity. Qed.

End EvalEquations.

(** The body of a function called with fuel [S fuel] is evaluated with
    fuel [fuel]. *)
Lemma run_body_S (fuel : nat) : run_body (S fuel) = eval fuel.
Proof. reflexivity. Qed.

(** Sequencing, on a known first outcome. *)
Lemma mbind_Ok {A B : Type} (m : M A) (k : A -> M B) h a h' :
  m h = Ok (a, h') -> mbind m k h = k a h'.
Proof. unfold mbind; now intros ->. Qed.

Lemma mbind_match {A B : Type} (m : M A) (k : A -> M B) h :
  mbind m k h
  = match m h with
    | Ok (a, h') => k a h'
    | Raise e => Raise e
    | OutOfFuel => OutOfFuel
    | Unmodelled => Unmodelled
    end.
Proof. reflexivity. Qed.

Lemma mbind_assoc {A B C : Type} (m : M A) (k : A -> M B) (k' : B -> M C) h :
  mbind (mbind m k) k' h = mbind m (fun a => mbind (k a) k') h.
Proof.
  unfold mbind. destruct (m h) as [[a h']| | |]; reflexivity.
Qed.

(** ** The shift of an index *)

Lemma truthy_VBool (b : bool) (h : heap) : truthy (VBool b) h = Ok (b, h).
Proof. reflexivity. Qed.

Lemma eval_int_const (fuel : nat) (rho : env) (n : Z) (h : heap) :
  eval fuel rho (int_const n) h = Ok (VInt n, h).
Proof. reflexivity. Qed.

(** The shifted expression evaluates [E] for its left operand, again for
    the test [> 0] and, when that fails, a third time for the test
    [< 0]. *)
Lemma shift_idx_eval (fuel : nat) (rho : env) (E : ast.expr) (h : heap) :
  eval fuel rho (shift_idx E) h
  = (a <- eval fuel rho E ;;
     b <- eval fuel rho E ;;
     gt <- lift (compare ast.Gt b (VInt 0)) ;;
     pos <- truthy gt ;;
     if pos then lift (binop ast.Sub a (VInt 1))
     else
       c <- eval fuel rho E ;;
       lt <- lift (compare ast.Lt c (VInt 0)) ;;
       neg <- truthy lt ;;
       if neg then lift (binop ast.Sub a (VInt 0))
       else lift (Raise ZeroDivisionError))%M h.
Proof.
  unfold shift_idx.
  rewrite eval_BinOp, eval_IfExp, eval_Compare, eval_IfExp, eval_Compare.
  unfold mbind.
  repeat first
    [ reflexivity
    | progress rewrite eval_int_const
    | progress unfold lift, bind
    | match goal with
      | |- context [match eval fuel rho E ?h with _ => _ end] =>
          destruct (eval fuel rho E h) as [[? ?]| | |]
      | |- context [match compare ?o ?x ?y with _ => _ end] =>
          destruct (compare o x y)
      | |- context [match truthy ?v ?h with _ => _ end] =>
          destruct (truthy v h) as [[[|] ?]| | |]
      end ].
Qed.

(** On an expression whose evaluation gives an integer and leaves the
    store as it was, the shift is the shift of that integer. *)
Lemma shift_idx_pure (fuel : nat) (rho : env) (E : ast.expr) (h : heap)
    (n : Z) :
  eval fuel rho E h = Ok (VInt n, h) ->
  eval fuel rho (shift_idx E) h
  = bind (shifted_index n) (fun n' => Ok (VInt n', h)).
Proof.
  intros H. rewrite shift_idx_eval. unfold mbind. rewrite !H.
  unfold shifted_index, lift, compare, binop, as_int, bind.
  rewrite truthy_VBool.
  destruct (n >? 0) eqn:Hpos; [reflexivity|].
  rewrite H, truthy_VBool.
  destruct (n <? 0) eqn:Hneg; [now rewrite Z.sub_0_r | reflexivity].
Qed.

(** C1, as the code has it.  For an index expression [E] whose
    evaluation gives the integer [v] and leaves the store as it found it:
    the shifted expression evaluates to [v - 1] when [v] is strictly
    positive, to [v] itself when [v] is strictly negative, and raises
    [ZeroDivisionError] when [v] is zero. *)
Theorem shift_idx_by_sign :
  forall (fuel : nat) (rho : env) (E : ast.expr) (h : heap) (v : Z),
    eval fuel rho E h = Ok (VInt v, h) ->
    (0 < v -> eval fuel rho (shift_idx E) h = Ok (VInt (v - 1), h))
    /\ (v < 0 -> eval fuel rho (shift_idx E) h = Ok (VInt v, h))
    /\ (v = 0 -> eval fuel rho (shift_idx E) h = Raise ZeroDivisionError).
Proof.
  intros fuel rho E h v H.
  rewrite (shift_idx_pure _ _ _ _ _ H). unfold shifted_index.
  repeat split; intros Hv.
  - destruct (Z.gtb_spec v 0); [reflexivity | lia].
  - destruct (Z.gtb_spec v 0); [lia|].
    destruct (Z.ltb_spec v 0); [reflexivity | lia].
  - subst v. reflexivity.
Qed.

Lemma shift_idx_by_sign_witness :
  eval 0 [("i"%string, VInt 3)] (shift_idx (ast.Name "i")) []
  = Ok (VInt 2, [])
  /\ eval 0 [("i"%string, VInt (-3))] (shift_idx (ast.Name "i")) []
     = Ok (VInt (-3), [])
  /\ eval 0 [("i"%string, VInt 0)] (shift_idx (ast.Name "i")) []
     = Raise ZeroDivisionError.
Proof.
  split; [|split].
  - exact (proj1 (shift_idx_by_sign 0 [("i"%string, VInt 3)]
                    (ast.Name "i") [] 3 eq_refl) eq_refl).
  - exact (proj1 (proj2 (shift_idx_by_sign 0 [("i"%string, VInt (-3))]
                           (ast.Name "i") [] (-3) eq_refl)) eq_refl).
  - exact (proj2 (proj2 (shift_idx_by_sign 0 [("i"%string, VInt 0)]
                           (ast.Name "i") [] 0 eq_refl)) eq_refl).
Defined.

(** Without that proviso the statement fails on [s[-xs.pop()]] with
    [xs = [7, 2, -5]]: the index is of a kind the rewriter accepts and is
    passed to [shift_idx] as it stands; it evaluates to 5, yet the shifted
    expression, which evaluates it three times, gives 5 - 0 = 5 and not 4,
    leaving [xs] empty. *)
Lemma shift_idx_effectful_counterexample :
  let E := ast.UnaryOp ast.USub
             (ast.Call (ast.Attribute (ast.Name "xs") "pop") []) in
  let rho := [("xs"%string, VList 0)] in
  let h := [[VInt 7; VInt 2; VInt (-5)]] in
  rewrite_expr (ast.Subscript (ast.Name "s") E)
  = Ok (visit_Subscript (ast.Name "s") E)
  /\ expand_idx E = shift_idx E
  /\ eval 0 rho E h = Ok (VInt 5, [[VInt 7; VInt 2]])
  /\ eval 0 rho (shift_idx E) h = Ok (VInt 5, [[]])
  /\ ~ (exists h', eval 0 rho (shift_idx E) h = Ok (VInt (5 - 1), h')).
Proof.
  repeat split. intros [h' H]. discriminate H.
Qed.

(** ** The rewritten subscript *)

Lemma eval_Tuple (fuel : nat) (rho : env) (elts : list ast.expr) :
  eval fuel rho (ast.Tuple elts)
  = (vs <- eval_list (eval fuel rho) elts ;; ret (VTuple vs))%M.
Proof. reflexivity. Qed.

Lemma isinstance_sequence_classes (v : value) :
  isinstance v (VTuple [VClass ClassList; VClass ClassTuple; VClass ClassStr])
  = Ok (VBool (is_sequence v)).
Proof. destruct v; reflexivity. Qed.

(** With the builtin names in place, the type test evaluates its operand
    once and tells whether the value is a list, a tuple or a string. *)
Lemma isinstance_sequence_eval (fuel : nat) (rho : env) (e : ast.expr)
    (h : heap) :
  standard_names rho ->
  eval fuel rho (isinstance_sequence e) h
  = (v <- eval fuel rho e ;; ret (VBool (is_sequence v)))%M h.
Proof.
  intros (Hi & Hl & Ht & Hs). unfold isinstance_sequence.
  rewrite eval_Call. unfold mbind. rewrite eval_Name, Hi.
  cbn [lift bind eval_list]. unfold mbind.
  destruct (eval fuel rho e h) as [[v h1]| | |]; try reflexivity.
  cbv beta iota. rewrite eval_Tuple.
  cbn [eval_list]. unfold mbind.
  repeat first
    [ rewrite eval_Name | rewrite Hl | rewrite Ht | rewrite Hs
    | progress cbn [lift bind ret call_value] ].
  now rewrite isinstance_sequence_classes.
Qed.

(** The rewritten subscript evaluates the container for the type test,
    then the subscript with the shifted index when the value is a list, a
    tuple or a string, and the subscript as it was otherwise. *)
Lemma visit_Subscript_eval (fuel : nat) (rho : env) (value slice : ast.expr)
    (h : heap) :
  standard_names rho ->
  eval fuel rho (visit_Subscript value slice) h
  = (c <- eval fuel rho value ;;
     if is_sequence c
     then eval fuel rho (ast.Subscript value (expand_idx slice))
     else eval fuel rho (ast.Subscript value slice))%M h.
Proof.
  intros Hstd. unfold visit_Subscript.
  rewrite eval_IfExp. unfold mbind at 1.
  rewrite (isinstance_sequence_eval _ _ _ _ Hstd). unfold mbind.
  destruct (eval fuel rho value h) as [[c h1]| | |]; try reflexivity.
Qed.

Lemma visit_Subscript_inv (p : parent) (value slice node' : ast.expr) :
  visit p (ast.Subscript value slice) = Ok node' ->
  types_we_know_how_to_handle slice = true
  /\ exists value' slice',
      visit ParentOther value = Ok value'
      /\ visit ParentOther slice = Ok slice'
      /\ node' = visit_Subscript value' slice'.
Proof.
  cbn [visit]. unfold assert.
  destruct (types_we_know_how_to_handle slice); [|discriminate].
  cbn [bind].
  destruct (visit ParentOther value) as [value'| | |]; try discriminate.
  destruct (visit ParentOther slice) as [slice'| | |]; try discriminate.
  cbn [bind]. intros H; inversion H; subst. eauto 6.
Qed.

Lemma shifted_bound_eval (fuel : nat) (rho : env) (h : heap)
    (bound : option ast.expr) (a : option Z) :
  positive_bound fuel rho h bound a ->
  eval_option (eval fuel rho) (option_map shift_idx bound) h
  = eval_option (eval fuel rho) (zero_based_bound a) h.
Proof.
  destruct bound as [e|], a as [n|];
    cbn [positive_bound option_map eval_option zero_based_bound];
    try contradiction; [|reflexivity].
  intros [Hn He].
  rewrite (shift_idx_pure _ _ _ _ _ He). unfold shifted_index.
  destruct (Z.gtb_spec n 0); [reflexivity | lia].
Qed.

Lemma eval_option_positive_bound (fuel : nat) (rho : env) (h : heap)
    (a : option Z) :
  exists v, eval_option (eval fuel rho) (zero_based_bound a) h = Ok (v, h).
Proof. destruct a; eexists; reflexivity. Qed.

Lemma shifted_slice_eval (fuel : nat) (rho : env) (h : heap)
    (lower upper step : option ast.expr) (a b : option Z) :
  positive_bound fuel rho h lower a ->
  positive_bound fuel rho h upper b ->
  eval fuel rho (expand_idx (ast.Slice lower upper step)) h
  = eval fuel rho
      (ast.Slice (zero_based_bound a) (zero_based_bound b) step) h.
Proof.
  intros Ha Hb. cbn [expand_idx]. rewrite !eval_Slice. unfold mbind.
  rewrite (shifted_bound_eval _ _ _ _ _ Ha).
  destruct (eval_option_positive_bound fuel rho h a) as [lo Hlo].
  rewrite Hlo.
  rewrite (shifted_bound_eval _ _ _ _ _ Hb).
  reflexivity.
Qed.

Lemma eval_Slice_not_int (fuel : nat) (rho : env)
    (lower upper step : option ast.expr) (h h' : heap) (n : Z) :
  eval fuel rho (ast.Slice lower upper step) h <> Ok (VInt n, h').
Proof.
  rewrite eval_Slice. unfold mbind, ret.
  destruct (eval_option (eval fuel rho) lower h) as [[lo h1]| | |];
    try discriminate.
  destruct (eval_option (eval fuel rho) upper h1) as [[hi h2]| | |];
    try discriminate.
  destruct (eval_option (eval fuel rho) step h2) as [[st h3]| | |];
    discriminate.
Qed.

(** An index that evaluates to an integer is not a slice: [expand_idx]
    shifts it as a whole. *)
Lemma expand_idx_int (fuel : nat) (rho : env) (idx : ast.expr) (h h' : heap)
    (n : Z) :
  eval fuel rho idx h = Ok (VInt n, h') -> expand_idx idx = shift_idx idx.
Proof.
  destruct idx; try reflexivity.
  intros H. now apply eval_Slice_not_int in H.
Qed.

(** C2.  A rewritten subscript read [container[idx-or-slice]] is the
    rewriter's conditional over the rewritten container and index.  Where
    the builtin names have their meaning it evaluates the container and
    dispatches on the value.  On a list, tuple or string [c], reached
    like the index without side effects: an index that evaluates to the
    integer [n] reads [c[n - 1]] when [n] is strictly positive and [c[n]]
    when it is strictly negative, and raises [ZeroDivisionError] when it
    is zero; a slice whose bounds are absent or evaluate to the strictly
    positive integers [a] and [b] reads [c[a-1:b-1:step]].  Every other
    value gets the unshifted subscript: for a mapping reached without
    side effects the rewritten [m[k]] is the original [m[k]]. *)
Theorem visit_Subscript_dispatch :
  forall (p : parent) (value slice node' : ast.expr),
    visit p (ast.Subscript value slice) = Ok node' ->
    exists value' slice',
      visit ParentOther value = Ok value'
      /\ visit ParentOther slice = Ok slice'
      /\ forall (fuel : nat) (rho : env) (h : heap),
          standard_names rho ->
          (forall c h1,
              eval fuel rho value' h = Ok (c, h1) ->
              eval fuel rho node' h
              = if is_sequence c
                then eval fuel rho
                       (ast.Subscript value' (expand_idx slice')) h1
                else eval fuel rho (ast.Subscript value' slice') h1)
          /\ (forall c n,
                 is_sequence c = true ->
                 eval fuel rho value' h = Ok (c, h) ->
                 eval fuel rho slice' h = Ok (VInt n, h) ->
                 (0 < n ->
                  eval fuel rho node' h = subscript c (VInt (n - 1)) h)
                 /\ (n < 0 -> eval fuel rho node' h = subscript c (VInt n) h)
                 /\ (n = 0 ->
                     eval fuel rho node' h = Raise ZeroDivisionError))
          /\ (forall c lower upper step a b,
                 slice' = ast.Slice lower upper step ->
                 is_sequence c = true ->
                 eval fuel rho value' h = Ok (c, h) ->
                 positive_bound fuel rho h lower a ->
                 positive_bound fuel rho h upper b ->
                 eval fuel rho node' h
                 = eval fuel rho
                     (ast.Subscript value'
                        (ast.Slice (zero_based_bound a) (zero_based_bound b)
                           step)) h)
          /\ (forall items,
                 eval fuel rho value' h = Ok (VDict items, h) ->
                 eval fuel rho node' h
                 = eval fuel rho (ast.Subscript value' slice') h).
Proof.
  intros p value slice node' H.
  apply visit_Subscript_inv in H as (_ & value' & slice' & Hv & Hs & ->).
  exists value', slice'.
  split; [exact Hv|]. split; [exact Hs|].
  intros fuel rho h Hstd. split; [|split; [|split]].
  - intros c h1 Hc. rewrite (visit_Subscript_eval _ _ _ _ _ Hstd).
    rewrite (mbind_Ok _ _ _ _ _ Hc). now destruct (is_sequence c).
  - intros c n Hseq Hc Hi.
    rewrite (visit_Subscript_eval _ _ _ _ _ Hstd).
    rewrite (mbind_Ok _ _ _ _ _ Hc), Hseq.
    rewrite (expand_idx_int _ _ _ _ _ _ Hi), eval_Subscript.
    unfold mbind. rewrite Hc, (shift_idx_pure _ _ _ _ _ Hi).
    unfold shifted_index. split; [|split]; intros Hn.
    + destruct (Z.gtb_spec n 0); [reflexivity | lia].
    + destruct (Z.gtb_spec n 0); [lia|].
      destruct (Z.ltb_spec n 0); [reflexivity | lia].
    + subst n. reflexivity.
  - intros c lower upper step a b -> Hseq Hc Ha Hb.
    rewrite (visit_Subscript_eval _ _ _ _ _ Hstd).
    rewrite (mbind_Ok _ _ _ _ _ Hc), Hseq.
    rewrite !eval_Subscript. unfold mbind. rewrite Hc.
    now rewrite (shifted_slice_eval _ _ _ _ _ _ _ _ Ha Hb).
  - intros items Hc. rewrite (visit_Subscript_eval _ _ _ _ _ Hstd).
    now rewrite (mbind_Ok _ _ _ _ _ Hc).
Qed.

Lemma visit_Subscript_dispatch_witness :
  let rho := [("m"%string, VDict [(VInt 0, VInt 7); (VInt 1, VInt 8)]);
              ("t"%string, VTuple [VInt 7; VInt 8; VInt 9])] in
  (exists node',
      rewrite_expr (ast.Subscript (ast.Name "t") (int_const 1)) = Ok node'
      /\ eval 0 rho node' [] = Ok (VInt 7, []))
  /\ (exists node',
         rewrite_expr
           (ast.Subscript (ast.Name "t")
              (ast.Slice (Some (int_const 2)) None None)) = Ok node'
         /\ eval 0 rho node' [] = Ok (VTuple [VInt 8; VInt 9], []))
  /\ (exists node',
         rewrite_expr (ast.Subscript (ast.Name "m") (int_const 1)) = Ok node'
         /\ eval 0 rho node' [] = Ok (VInt 8, [])).
Proof.
  intros rho.
  assert (Hstd : standard_names rho) by (repeat split; reflexivity).
  split; [|split].
  - eexists; split; [reflexivity|].
    destruct (visit_Subscript_dispatch ParentOther (ast.Name "t")
                (int_const 1) _ eq_refl)
      as (value' & slice' & Hv & Hs & H).
    injection Hv as <-. injection Hs as <-.
    rewrite (proj1 (proj1 (proj2 (H 0%nat rho [] Hstd))
                      (VTuple [VInt 7; VInt 8; VInt 9]) 1
                      eq_refl eq_refl eq_refl) eq_refl).
    reflexivity.
  - eexists; split; [reflexivity|].
    destruct (visit_Subscript_dispatch ParentOther (ast.Name "t")
                (ast.Slice (Some (int_const 2)) None None) _ eq_refl)
      as (value' & slice' & Hv & Hs & H).
    injection Hv as <-. injection Hs as <-.
    rewrite (proj1 (proj2 (proj2 (H 0%nat rho [] Hstd)))
               (VTuple [VInt 7; VInt 8; VInt 9])
               (Some (int_const 2)) None None (Some 2) None
               eq_refl eq_refl eq_refl
               (conj eq_refl eq_refl) I).
    reflexivity.
  - eexists; split; [reflexivity|].
    destruct (visit_Subscript_dispatch ParentOther (ast.Name "m")
                (int_const 1) _ eq_refl)
      as (value' & slice' & Hv & Hs & H).
    injection Hv as <-. injection Hs as <-.
    rewrite (proj2 (proj2 (proj2 (H 0%nat rho [] Hstd))) _ eq_refl).
    reflexivity.
Defined.

(** ** The rewritten slice *)

(** C3.  For a slice, [expand_idx] shifts the lower and the upper bound
    each by [shift_idx], leaves an absent bound absent and passes the step
    through; a rewritten [s[lower:upper:step]] is the rewriter's
    conditional over that slice; and on a list, tuple or string [s], with
    bounds that are absent or evaluate to strictly positive integers [a]
    and [b], it evaluates as the original reading of
    [s[a-1:b-1:step]]. *)
Theorem expand_idx_slice :
  (forall lower upper step : option ast.expr,
      expand_idx (ast.Slice lower upper step)
      = ast.Slice (option_map shift_idx lower) (option_map shift_idx upper)
          step)
  /\
  (forall (p : parent) (value : ast.expr) (lower upper step : option ast.expr)
          (node' : ast.expr),
      visit p (ast.Subscript value (ast.Slice lower upper step)) = Ok node' ->
      exists value' lower' upper' step',
        visit ParentOther value = Ok value'
        /\ mapM_option (visit ParentOther) lower = Ok lower'
        /\ mapM_option (visit ParentOther) upper = Ok upper'
        /\ mapM_option (visit ParentOther) step = Ok step'
        /\ node'
           = ast.IfExp (isinstance_sequence value')
               (ast.Subscript value'
                  (ast.Slice (option_map shift_idx lower')
                     (option_map shift_idx upper') step'))
               (ast.Subscript value' (ast.Slice lower' upper' step')))
  /\
  (forall (fuel : nat) (rho : env) (h : heap) (s : value)
          (container : ast.expr) (lower upper step : option ast.expr)
          (a b : option Z),
      standard_names rho ->
      eval fuel rho container h = Ok (s, h) ->
      is_sequence s = true ->
      positive_bound fuel rho h lower a ->
      positive_bound fuel rho h upper b ->
      eval fuel rho
        (visit_Subscript container (ast.Slice lower upper step)) h
      = eval fuel rho
          (ast.Subscript container
             (ast.Slice (zero_based_bound a) (zero_based_bound b) step)) h).
Proof.
  split; [reflexivity|]. split.
  - intros p value lower upper step node' H.
    apply visit_Subscript_inv in H as (_ & value' & slice' & Hv & Hs & ->).
    cbn [visit] in Hs.
    destruct (mapM_option (visit ParentOther) lower) as [lower'| | |];
      try discriminate.
    destruct (mapM_option (visit ParentOther) upper) as [upper'| | |];
      try discriminate.
    destruct (mapM_option (visit ParentOther) step) as [step'| | |];
      try discriminate.
    cbn [bind] in Hs. injection Hs as <-.
    exists value', lower', upper', step'. repeat split; assumption.
  - intros fuel rho h s container lower upper step a b Hstd Hs Hseq Ha Hb.
    rewrite (visit_Subscript_eval _ _ _ _ _ Hstd).
    rewrite (mbind_Ok _ _ _ _ _ Hs), Hseq.
    rewrite !eval_Subscript. unfold mbind. rewrite Hs.
    now rewrite (shifted_slice_eval _ _ _ _ _ _ _ _ Ha Hb).
Qed.

Lemma expand_idx_slice_witness :
  let rho := [("s"%string, VStr (str "abcde"))] in
  eval 0 rho
    (visit_Subscript (ast.Name "s")
       (ast.Slice (Some (int_const 2)) (Some (int_const 4)) None)) []
  = Ok (VStr (str "bc"), [])
  /\ eval 0 rho
       (visit_Subscript (ast.Name "s")
          (ast.Slice None (Some (int_const 2)) None)) []
     = Ok (VStr (str "a"), []).
Proof.
  intros rho.
  assert (Hstd : standard_names rho) by (repeat split; reflexivity).
  split.
  - exact (proj2 (proj2 expand_idx_slice) 0%nat rho []
             (VStr (str "abcde")) (ast.Name "s")
             (Some (int_const 2)) (Some (int_const 4)) None
             (Some 2) (Some 4)
             Hstd eq_refl eq_refl (conj eq_refl eq_refl)
             (conj eq_refl eq_refl)).
  - exact (proj2 (proj2 expand_idx_slice) 0%nat rho []
             (VStr (str "abcde")) (ast.Name "s")
             None (Some (int_const 2)) None
             None (Some 2)
             Hstd eq_refl eq_refl I (conj eq_refl eq_refl)).
Defined.

(** ** Evaluations in a rewritten subscript read *)

(** The evaluations a rewritten subscript read performs, in order: the
    container for the type test; then, for a list, tuple or string, the
    container again, the index for the subtraction, the index for the
    test [> 0] and, unless that holds, the index for the test [< 0]; for
    any other value, the container again and the index once. *)
Lemma visit_Subscript_evaluations (fuel : nat) (rho : env)
    (container idx : ast.expr) (h : heap) :
  standard_names rho ->
  expand_idx idx = shift_idx idx ->
  eval fuel rho (visit_Subscript container idx) h
  = (c1 <- eval fuel rho container ;;
     if is_sequence c1 then
       c2 <- eval fuel rho container ;;
       i1 <- eval fuel rho idx ;;
       i2 <- eval fuel rho idx ;;
       gt <- lift (compare ast.Gt i2 (VInt 0)) ;;
       pos <- truthy gt ;;
       if pos then
         i <- lift (binop ast.Sub i1 (VInt 1)) ;; subscript c2 i
       else
         i3 <- eval fuel rho idx ;;
         lt <- lift (compare ast.Lt i3 (VInt 0)) ;;
         neg <- truthy lt ;;
         if neg then
           i <- lift (binop ast.Sub i1 (VInt 0)) ;; subscript c2 i
         else lift (Raise ZeroDivisionError)
     else
       c2 <- eval fuel rho container ;;
       i <- eval fuel rho idx ;;
       subscript c2 i)%M h.
Proof.
  intros Hstd Hidx.
  rewrite (visit_Subscript_eval _ _ _ _ _ Hstd), Hidx. unfold mbind.
  destruct (eval fuel rho container h) as [[c1 h1]| | |]; try reflexivity.
  destruct (is_sequence c1); [|reflexivity].
  rewrite eval_Subscript. unfold mbind.
  destruct (eval fuel rho container h1) as [[c2 h2]| | |]; try reflexivity.
  rewrite shift_idx_eval. unfold mbind.
  repeat first
    [ reflexivity
    | progress unfold lift, bind
    | match goal with
      | |- context [match eval fuel rho idx ?h with _ => _ end] =>
          destruct (eval fuel rho idx h) as [[? ?]| | |]
      | |- context [match compare ?o ?x ?y with _ => _ end] =>
          destruct (compare o x y)
      | |- context [match truthy ?v ?h with _ => _ end] =>
          destruct (truthy v h) as [[[|] ?]| | |]
      | |- context [match binop ?o ?x ?y with _ => _ end] =>
          destruct (binop o x y)
      end ].
Qed.

(** Container and index free of side effects: the rewritten subscript is
    the one-based subscript. *)
Lemma visit_Subscript_pure (fuel : nat) (rho : env)
    (container idx : ast.expr) (h : heap) (c : value) (n : Z) :
  standard_names rho ->
  eval fuel rho container h = Ok (c, h) ->
  eval fuel rho idx h = Ok (VInt n, h) ->
  eval fuel rho (visit_Subscript container idx) h
  = one_based_subscript (eval fuel rho) container idx h.
Proof.
  intros Hstd Hc Hi.
  rewrite (visit_Subscript_eval _ _ _ _ _ Hstd).
  rewrite (expand_idx_int _ _ _ _ _ _ Hi), !eval_Subscript.
  unfold one_based_subscript, mbind. rewrite Hc, Hi.
  destruct (is_sequence c); rewrite Hc.
  - rewrite (shift_idx_pure _ _ _ _ _ Hi).
    unfold lift. destruct (shifted_index n); reflexivity.
  - now rewrite Hi.
Qed.

(** C10.  A rewritten subscript read evaluates its container twice: once
    for the type test, once in the branch taken.  On a list, tuple or
    string it evaluates its index twice when the second value is strictly
    positive and three times otherwise; on any other value, once.  When
    the evaluation of container and index leaves the store as it found it,
    the rewritten read is the one-based read with each of them evaluated
    once; with side effects it need not be: on [xss.pop()[1]] with
    [xss = [[1, 2], [3, 4]]] it pops twice and reads [1] from [[1, 2]],
    where one evaluation reads [3] from [[3, 4]]. *)
Theorem visit_Subscript_repeats_evaluation :
  (forall (fuel : nat) (rho : env) (container idx : ast.expr) (h : heap),
      standard_names rho ->
      expand_idx idx = shift_idx idx ->
      eval fuel rho (visit_Subscript container idx) h
      = (c1 <- eval fuel rho container ;;
         if is_sequence c1 then
           c2 <- eval fuel rho container ;;
           i1 <- eval fuel rho idx ;;
           i2 <- eval fuel rho idx ;;
           gt <- lift (compare ast.Gt i2 (VInt 0)) ;;
           pos <- truthy gt ;;
           if pos then
             i <- lift (binop ast.Sub i1 (VInt 1)) ;; subscript c2 i
           else
             i3 <- eval fuel rho idx ;;
             lt <- lift (compare ast.Lt i3 (VInt 0)) ;;
             neg <- truthy lt ;;
             if neg then
               i <- lift (binop ast.Sub i1 (VInt 0)) ;; subscript c2 i
             else lift (Raise ZeroDivisionError)
         else
           c2 <- eval fuel rho container ;;
           i <- eval fuel rho idx ;;
           subscript c2 i)%M h)
  /\
  (forall (fuel : nat) (rho : env) (container idx : ast.expr) (h : heap)
          (c : value) (n : Z),
      standard_names rho ->
      eval fuel rho container h = Ok (c, h) ->
      eval fuel rho idx h = Ok (VInt n, h) ->
      eval fuel rho (visit_Subscript container idx) h
      = one_based_subscript (eval fuel rho) container idx h)
  /\
  (exists (rho : env) (h : heap) (container idx : ast.expr),
      standard_names rho
      /\ rewrite_expr (ast.Subscript container idx)
         = Ok (visit_Subscript container idx)
      /\ eval 0 rho (visit_Subscript container idx) h
         <> one_based_subscript (eval 0 rho) container idx h).
Proof.
  split; [|split].
  - intros. now apply visit_Subscript_evaluations.
  - intros. now apply (visit_Subscript_pure _ _ _ _ _ c n).
  - exists [("xss"%string, VList 0)],
      [[VList 1; VList 2]; [VInt 1; VInt 2]; [VInt 3; VInt 4]],
      (ast.Call (ast.Attribute (ast.Name "xss") "pop") []),
      (int_const 1).
    split; [repeat split; reflexivity|]. split; [reflexivity|].
    vm_compute. discriminate.
Qed.

Lemma visit_Subscript_repeats_evaluation_witness :
  let container := ast.Tuple [int_const 7; int_const 8; int_const 9] in
  eval 0 [] (visit_Subscript container (int_const 1)) [] = Ok (VInt 7, []).
Proof.
  intros container.
  assert (Hstd : standard_names []) by (repeat split; reflexivity).
  exact (proj1 (proj2 visit_Subscript_repeats_evaluation) 0%nat []
           container (int_const 1) []
           (VTuple [VInt 7; VInt 8; VInt 9]) 1 Hstd eq_refl eq_refl).
Defined.

(** ** The rewritten [pop] *)

Lemma visit_pop_call (p : parent) (recv i node' : ast.expr) :
  visit p (ast.Call (ast.Attribute recv "pop") [i]) = Ok node' ->
  exists recv' i',
    visit ParentOther recv = Ok recv'
    /\ visit (ParentCall 1) i = Ok i'
    /\ node'
       = ast.Call
           (ast.IfExp (isinstance_sequence recv')
              (ast.Lambda antwnc
                 (ast.Call (ast.Attribute recv' "pop")
                    [shift_idx (ast.Name antwnc)]))
              (ast.Attribute recv' "pop"))
           [i'].
Proof.
  cbn [visit length mapM].
  destruct (visit ParentOther recv) as [recv'| | |]; try discriminate.
  cbn [bind].
  change (visit_Attribute (ParentCall 1) recv' "pop")
    with (Ok (ast.IfExp (isinstance_sequence recv')
                (ast.Lambda antwnc
                   (ast.Call (ast.Attribute recv' "pop")
                      [shift_idx (ast.Name antwnc)]))
                (ast.Attribute recv' "pop"))).
  cbn [bind].
  destruct (visit (ParentCall 1) i) as [i'| | |]; try discriminate.
  intros H; injection H as <-. eauto.
Qed.

Lemma standard_names_antwnc (rho : env) (a : value) :
  standard_names rho -> standard_names ((antwnc, a) :: rho).
Proof. intros H; exact H. Qed.

(** The rewritten call evaluates the receiver for the type test; on a
    list, tuple or string it then evaluates the argument and runs
    [recv.pop(shift_idx(__antwnc))] with the argument bound to [__antwnc],
    and otherwise runs the call as it was: either way the receiver is
    evaluated a second time. *)
Lemma pop_call_eval (fuel : nat) (rho : env) (recv i : ast.expr) (h : heap) :
  standard_names rho ->
  eval (S fuel) rho
    (ast.Call
       (ast.IfExp (isinstance_sequence recv)
          (ast.Lambda antwnc
             (ast.Call (ast.Attribute recv "pop")
                [shift_idx (ast.Name antwnc)]))
          (ast.Attribute recv "pop"))
       [i]) h
  = (r <- eval (S fuel) rho recv ;;
     if is_sequence r then
       a <- eval (S fuel) rho i ;;
       eval fuel ((antwnc, a) :: rho)
         (ast.Call (ast.Attribute recv "pop") [shift_idx (ast.Name antwnc)])
     else
       eval (S fuel) rho (ast.Call (ast.Attribute recv "pop") [i]))%M h.
Proof.
  intros Hstd.
  rewrite eval_Call, eval_IfExp. unfold mbind.
  rewrite (isinstance_sequence_eval _ _ _ _ Hstd). unfold mbind.
  destruct (eval (S fuel) rho recv h) as [[r h1]| | |]; try reflexivity.
  cbn [ret truthy]. destruct (is_sequence r).
  - rewrite eval_Lambda. cbn [eval_list]. unfold mbind.
    destruct (eval (S fuel) rho i h1) as [[a h2]| | |]; reflexivity.
  - rewrite eval_Call. reflexivity.
Qed.

(** In the body of the lambda the argument is shifted after the receiver
    has been evaluated and its [pop] fetched. *)
Lemma pop_shifted_call (fuel : nat) (rho : env) (recv : ast.expr) (n : Z)
    (h : heap) :
  eval fuel ((antwnc, VInt n) :: rho)
    (ast.Call (ast.Attribute recv "pop") [shift_idx (ast.Name antwnc)]) h
  = (f <- eval fuel ((antwnc, VInt n) :: rho) (ast.Attribute recv "pop") ;;
     n' <- lift (shifted_index n) ;;
     call_value (run_body fuel) f [VInt n'])%M h.
Proof.
  rewrite eval_Call. unfold mbind.
  destruct (eval fuel ((antwnc, VInt n) :: rho) (ast.Attribute recv "pop") h)
    as [[f h1]| | |]; try reflexivity.
  cbn [eval_list]. unfold mbind.
  rewrite (shift_idx_pure fuel ((antwnc, VInt n) :: rho)
             (ast.Name antwnc) h1 n eq_refl).
  unfold lift. destruct (shifted_index n); reflexivity.
Qed.

(** What a rewritten [recv.pop(i)] evaluates: the receiver for the type
    test and once more in the call that the test selects.  The argument
    is evaluated once; it is shifted, after that second evaluation of the
    receiver, only when the value the type test saw is a list, a tuple or
    a string. *)
Theorem visit_Attribute_pop_dispatch :
  forall (p : parent) (recv i node' : ast.expr),
    visit p (ast.Call (ast.Attribute recv "pop") [i]) = Ok node' ->
    exists recv' i',
      visit ParentOther recv = Ok recv'
      /\ visit (ParentCall 1) i = Ok i'
      /\ forall (fuel : nat) (rho : env) (h : heap),
          standard_names rho ->
          eval (S fuel) rho node' h
          = (r <- eval (S fuel) rho recv' ;;
             if is_sequence r then
               a <- eval (S fuel) rho i' ;;
               eval fuel ((antwnc, a) :: rho)
                 (ast.Call (ast.Attribute recv' "pop")
                    [shift_idx (ast.Name antwnc)])
             else
               eval (S fuel) rho
                 (ast.Call (ast.Attribute recv' "pop") [i']))%M h
          /\ forall (n : Z) (h2 : heap),
              eval fuel ((antwnc, VInt n) :: rho)
                (ast.Call (ast.Attribute recv' "pop")
                   [shift_idx (ast.Name antwnc)]) h2
              = (f <- eval fuel ((antwnc, VInt n) :: rho)
                        (ast.Attribute recv' "pop") ;;
                 n' <- lift (shifted_index n) ;;
                 call_value (run_body fuel) f [VInt n'])%M h2.
Proof.
  intros p recv i node' H.
  apply visit_pop_call in H as (recv' & i' & Hr & Hi & ->).
  exists recv', i'. repeat split; try assumption.
  - now apply pop_call_eval.
  - intros n h2. apply pop_shifted_call.
Qed.

Lemma visit_Attribute_pop_dispatch_witness :
  let rho := [("xs"%string, VList 0)] in
  let h := [[VInt 4; VInt 5; VInt 6]] in
  exists node',
    rewrite_expr
      (ast.Call (ast.Attribute (ast.Name "xs") "pop") [int_const 2])
    = Ok node'
    /\ eval 1 rho node' h = Ok (VInt 5, [[VInt 4; VInt 6]]).
Proof.
  intros rho h. eexists; split; [reflexivity|].
  destruct (visit_Attribute_pop_dispatch ParentOther (ast.Name "xs")
              (int_const 2) _ eq_refl)
    as (recv' & i' & Hr & Hi & H).
  injection Hr as <-. injection Hi as <-.
  assert (Hstd : standard_names rho) by (repeat split; reflexivity).
  rewrite (proj1 (H 0%nat rho h Hstd)).
  reflexivity.
Defined.

(** C6.  The receiver of a rewritten [recv.pop(i)] is to be evaluated
    exactly once.  The rewriter puts its text both in the type test and in
    the call, and on [xss.pop().pop(1)] with [xss = [[1, 2], [3, 4]]] the
    rewritten call pops [xss] twice, leaving it empty, and takes [1] from
    [[1, 2]]; a receiver evaluated exactly once leaves [[1, 2]] in [xss]
    and takes [3] from [[3, 4]]. *)
Lemma visit_Attribute_pop_receiver_twice :
  let recv := ast.Call (ast.Attribute (ast.Name "xss") "pop") [] in
  let rho := [("xss"%string, VList 0)] in
  let h := [[VList 1; VList 2]; [VInt 1; VInt 2]; [VInt 3; VInt 4]] in
  exists node',
    rewrite_expr (ast.Call (ast.Attribute recv "pop") [int_const 1])
    = Ok node'
    /\ eval 1 rho node' h
       = Ok (VInt 1, [[]; [VInt 2]; [VInt 3; VInt 4]])
    /\ one_based_pop (eval 1 rho) recv (int_const 1) h
       = Ok (VInt 3, [[VList 1]; [VInt 1; VInt 2]; [VInt 4]])
    /\ eval 1 rho node' h <> one_based_pop (eval 1 rho) recv (int_const 1) h.
Proof.
  eexists. split; [reflexivity|]. split; [reflexivity|].
  split; [reflexivity|]. vm_compute. discriminate.
Qed.

(* ================================================================= *)
(** * Part II, continued: further properties *)
(* ================================================================= *)

(** ** What [extract_calls] returns *)

Lemma startswith_app (p rest : text) : startswith p (p ++ rest) = true.
Proof.
  induction p as [|a p IH]; simpl; [reflexivity|].
  now rewrite Ascii.eqb_refl.
Qed.

Lemma startswith_inv (p s : text) :
  startswith p s = true -> s = p ++ skipn (length p) s.
Proof.
  revert s; induction p as [|a p IH]; intros [|b s] H; simpl in *;
    try reflexivity; try discriminate.
  apply andb_true_iff in H as [Hab Hs].
  apply Ascii.eqb_eq in Hab as ->. f_equal. now apply IH.
Qed.

Lemma find_at_startswith (sub s : text) :
  forall i j,
    find_at sub s i = Some j -> startswith sub (skipn (j - i) s) = true.
Proof.
  induction s as [|c s IH]; intros i j H; simpl in H.
  - destruct (startswith sub []) eqn:E; inversion H; subst.
    now rewrite Nat.sub_diag.
  - destruct (startswith sub (c :: s)) eqn:E.
    + inversion H; subst. now rewrite Nat.sub_diag.
    + pose proof (find_at_ge _ _ _ _ H) as Hge.
      apply IH in H.
      replace (j - i)%nat with (S (j - S i)) by lia. exact H.
Qed.

Lemma find_startswith (sub s : text) (start j : nat) :
  find sub s start = Some j -> startswith sub (skipn j s) = true.
Proof.
  unfold find. destruct (length s <? start)%nat; [discriminate|].
  intros H. pose proof (find_at_ge _ _ _ _ H) as Hge.
  apply find_at_startswith in H.
  rewrite skipn_skipn in H.
  now replace (j - start + start)%nat with j in H by lia.
Qed.

(** The scan of a call reads [candidate(] through: it is then started, at
    depth 1 and outside any string. *)
Lemma scan_call_candidate (rest : text) (end0 : option nat) :
  scan_call (candidate ++ rest) 0 (mk_scan false false 0 end0)
  = scan_call rest 10 (mk_scan true false 1 end0).
Proof. reflexivity. Qed.

(** From a started scan at positive depth, the [break] is inside the
    scanned text, on a closing parenthesis. *)
Lemma scan_call_breaks_on_rparen (cs : text) :
  forall (i : nat) (st : scan_state),
    scan_ok (scan_call cs i st) = true ->
    started st = true -> 0 < depth st ->
    exists e,
      end_ (scan_call cs i st) = Some e
      /\ (i <= e < i + length cs)%nat
      /\ nth_error cs (e - i) = Some rparen.
Proof.
  induction cs as [|c cs IH]; intros i st Hok Hs Hd; simpl in *.
  - unfold scan_ok in Hok. rewrite Hs in Hok.
    destruct (Z.eqb_spec (depth st) 0); [lia | discriminate].
  - assert (Hnext : forall e,
               (S i <= e < S i + length cs)%nat ->
               nth_error cs (e - S i) = Some rparen ->
               (i <= e < i + S (length cs))%nat
               /\ nth_error (c :: cs) (e - i) = Some rparen).
    { intros e Hr Hc. split; [lia|].
      now replace (e - i)%nat with (S (e - S i)) by lia. }
    destruct (if (c =? dquote)%char || (c =? squote)%char
              then negb (in_string st) else in_string st) eqn:Hin.
    + apply IH in Hok as (e & He & Hr & Hc); [|exact Hs|exact Hd].
      exists e. split; [exact He|]. now apply Hnext.
    + rewrite Hs in *.
      destruct (Ascii.eqb_spec c lparen) as [->|Hl]; cbn [andb] in *.
      * destruct (Z.eqb_spec (depth st + 1) 0); [lia|].
        apply IH in Hok as (e & He & Hr & Hc); [|reflexivity|simpl; lia].
        exists e. split; [exact He|]. now apply Hnext.
      * destruct (Ascii.eqb_spec c rparen) as [->|Hrp].
        -- destruct (Z.eqb_spec (depth st - 1) 0).
           ++ exists i. simpl. rewrite Nat.sub_diag.
              repeat split; try reflexivity; lia.
           ++ apply IH in Hok as (e & He & Hr & Hc);
                [|reflexivity|simpl; lia].
              exists e. split; [exact He|]. now apply Hnext.
        -- destruct (Z.eqb_spec (depth st) 0); [lia|].
           apply IH in Hok as (e & He & Hr & Hc);
             [|reflexivity|simpl; lia].
           exists e. split; [exact He|]. now apply Hnext.
Qed.

Lemma firstn_S_nth_error {A : Type} (l : list A) (k : nat) (x : A) :
  nth_error l k = Some x -> firstn (S k) l = firstn k l ++ [x].
Proof.
  revert k; induction l as [|a l IH]; intros [|k] H; simpl in *;
    try discriminate.
  - now inversion H.
  - f_equal. now apply IH.
Qed.

Lemma extract_loop_shape (s : text) (fuel : nat) :
  forall idx end0 spans calls spans' calls',
    (forall i, idx = Some i -> startswith candidate (skipn i s) = true) ->
    Forall (fun c => exists args, c = candidate ++ args ++ [rparen]) calls ->
    extract_loop fuel s idx end0 spans calls = Ok (spans', calls') ->
    Forall (fun c => exists args, c = candidate ++ args ++ [rparen]) calls'.
Proof.
  induction fuel as [|fuel IH]; intros [idx|] end0 spans calls spans' calls'
    Hidx Hinv H; simpl in H; try discriminate; try (now inversion H; subst).
  pose proof (startswith_inv _ _ (Hidx idx eq_refl)) as Hs.
  set (rest := skipn (length candidate) (skipn idx s)) in *.
  assert (Hlen : (length s - idx = 10 + length rest)%nat).
  { rewrite <- (length_skipn idx s), Hs, length_app. reflexivity. }
  rewrite Hs, scan_call_candidate in H.
  set (st := scan_call rest 10 (mk_scan true false 1 end0)) in *.
  destruct (scan_ok st) eqn:Hok; simpl in H; [|discriminate].
  destruct (scan_call_breaks_on_rparen rest 10 _ Hok eq_refl)
    as (e & He & Hr & Hc); [simpl; lia|].
  fold st in He. rewrite He in H.
  apply IH in H; [exact H| |].
  - intros i Hi. now apply find_startswith in Hi.
  - apply Forall_app; split; [exact Hinv|].
    constructor; [|constructor].
    exists (firstn (e - 10) rest).
    rewrite slice1_range by lia.
    rewrite Nat2Z.id.
    replace (Z.to_nat (Z.of_nat (idx + e + 1) - Z.of_nat idx))
      with (length candidate + S (e - 10))%nat
      by (change (length candidate) with 10%nat; lia).
    rewrite Hs, firstn_app_2. f_equal.
    now apply firstn_S_nth_error.
Qed.

(** X1.  Every call that [extract_calls] returns is [candidate(], some
    text, and a closing parenthesis; so the assembler's check that every
    call starts with [candidate(] never fails. *)
Theorem extract_calls_call_shape :
  forall (s : text) (spans : list (Z * Z)) (calls : list text),
    extract_calls s = Ok (spans, calls) ->
    Forall (fun c => exists args, c = candidate ++ args ++ [rparen]) calls
    /\ forallb (startswith candidate) calls = true.
Proof.
  intros s spans calls H. unfold extract_calls, assert in H.
  destruct (contains candidate s); cbn [bind] in H; [|discriminate].
  apply extract_loop_shape in H; [|intros i Hi|constructor].
  - split; [exact H|].
    apply forallb_forall. intros c Hc.
    rewrite Forall_forall in H. destruct (H c Hc) as [args ->].
    apply startswith_app.
  - now apply find_startswith in Hi.
Qed.

Lemma extract_calls_call_shape_witness :
  forallb (startswith candidate)
    [str "candidate(candidate('))'), (4))"; str "candidate('))')"] = true.
Proof.
  exact (proj2
           (extract_calls_call_shape
              (str "assert candidate(candidate('))'), (4)) == 5")
              [(7, 38); (17, 32)]
              [str "candidate(candidate('))'), (4))"; str "candidate('))')"]
              eq_refl)).
Defined.

Lemma extract_loop_settled (s : text) (fuel : nat) :
  forall idx end0 spans calls,
    (forall i, idx = Some i -> (length s - i < fuel)%nat) ->
    settled (extract_loop fuel s idx end0 spans calls).
Proof.
  induction fuel as [|fuel IH]; intros [idx|] end0 spans calls Hf; simpl;
    try (left; eexists; reflexivity).
  - specialize (Hf idx eq_refl); lia.
  - set (st := scan_call (skipn idx s) 0 (mk_scan false false 0 end0)).
    destruct (scan_ok st) eqn:Hok; simpl; [|now right].
    destruct (scan_call_end (skipn idx s) 0 (mk_scan false false 0 end0)
                eq_refl Hok) as (e & He & Hr).
    fold st in He. rewrite He.
    apply IH. intros i Hi. apply find_ge in Hi.
    rewrite length_skipn in Hr.
    specialize (Hf idx eq_refl). lia.
Qed.

(** What [end] holds when a scan starts is overwritten before a scan can
    pass the assertion. *)
Lemma scan_call_end_fresh (cs : text) :
  forall (i : nat) (a b : bool) (d : Z) (e0 e1 : option nat),
    let st0 := scan_call cs i (mk_scan a b d e0) in
    let st1 := scan_call cs i (mk_scan a b d e1) in
    scan_ok st0 = scan_ok st1
    /\ (scan_ok (mk_scan a b d e0) = false ->
        scan_ok st0 = true -> end_ st0 = end_ st1).
Proof.
  induction cs as [|c cs IH]; intros i a b d e0 e1;
    cbn [scan_call started in_string depth end_].
  - split; [reflexivity|]. unfold scan_ok. cbn [started in_string depth].
    congruence.
  - destruct (if (c =? dquote)%char || (c =? squote)%char
              then negb b else b) eqn:Hin.
    + destruct (IH (S i) a true d e0 e1) as [H1 H2].
      split; [exact H1|]. intros _. apply H2.
      unfold scan_ok. cbn [started in_string depth negb].
      apply andb_false_r.
    + set (started' := if (c =? lparen)%char then true else a).
      set (depth' := if (c =? lparen)%char then d + 1
                     else if (c =? rparen)%char then d - 1 else d).
      destruct (started' && (depth' =? 0)) eqn:Hbr.
      * split; [reflexivity|]. reflexivity.
      * destruct (IH (S i) started' false depth' e0 e1) as [H1 H2].
        split; [exact H1|]. intros _. apply H2.
        unfold scan_ok. cbn [started in_string depth negb].
        rewrite andb_true_r, andb_comm. exact Hbr.
Qed.

Lemma extract_loop_end_fresh (fuel : nat) (s : text) (idx : option nat)
    (end0 end1 : option nat) (spans : list (Z * Z)) (calls : list text) :
  extract_loop fuel s idx end0 spans calls
  = extract_loop fuel s idx end1 spans calls.
Proof.
  destruct idx as [idx|], fuel as [|fuel]; try reflexivity.
  cbn [extract_loop]. cbv zeta.
  destruct (scan_call_end_fresh (skipn idx s) 0 false false 0 end0 end1)
    as [H1 H2].
  cbv zeta in H1, H2. rewrite <- H1.
  destruct (scan_ok (scan_call (skipn idx s) 0 (mk_scan false false 0 end0)))
    eqn:Hok; [|reflexivity].
  now rewrite <- (H2 eq_refl eq_refl).
Qed.

(** X2.  [extract_calls] returns or fails an assertion, on every text: its
    loop ends and no other exception is raised.  What [end] holds when
    the scan of a call starts, nothing or the value that the scan of the
    call before left in it, has no part in the result: [end] is only read
    after the scan under way has set it. *)
Theorem extract_calls_outcome :
  (forall s : text,
      (exists r, extract_calls s = Ok r)
      \/ extract_calls s = Raise AssertionError)
  /\ (forall (fuel : nat) (s : text) (idx end0 end1 : option nat)
             (spans : list (Z * Z)) (calls : list text),
         extract_loop fuel s idx end0 spans calls
         = extract_loop fuel s idx end1 spans calls).
Proof.
  split.
  - intros s. unfold extract_calls, assert.
    destruct (contains candidate s); cbn [bind]; [|now right].
    apply extract_loop_settled. intros; lia.
  - intros. apply extract_loop_end_fresh.
Qed.

(** ** The spans of [extract_calls] are the occurrences of [candidate(] *)

Lemma find_at_occurrences (sub s : text) :
  forall i, find_at sub s i = hd_error (occurrences_at sub s i).
Proof.
  induction s as [|c s IH]; intros i; simpl.
  - now destruct (startswith sub []).
  - destruct (startswith sub (c :: s)); [reflexivity|]. apply IH.
Qed.

Lemma occurrences_at_tail (sub s : text) :
  startswith sub [] = false ->
  forall i j rest,
    occurrences_at sub s i = j :: rest ->
    (i <= j)%nat
    /\ rest = occurrences_at sub (skipn (S (j - i)) s) (S j).
Proof.
  intros Hsub.
  induction s as [|c s IH]; intros i j rest H; simpl in H.
  - rewrite Hsub in H. discriminate.
  - destruct (startswith sub (c :: s)).
    + inversion H; subst. split; [lia|]. now rewrite Nat.sub_diag.
    + apply IH in H as [Hle ->]. split; [lia|].
      replace (j - i)%nat with (S (j - S i)) by lia. reflexivity.
Qed.

Lemma occurrences_at_filter (sub s : text) :
  forall i,
    occurrences_at sub s i
    = filter (fun j => startswith sub (skipn (j - i) s))
        (seq i (S (length s))).
Proof.
  induction s as [|c s IH]; intros i.
  - cbn [occurrences_at length seq filter]. rewrite Nat.sub_diag.
    cbn [skipn]. now destruct (startswith sub []); rewrite app_nil_r.
  - cbn [occurrences_at]. rewrite IH.
    change (seq i (S (length (c :: s))))
      with (i :: seq (S i) (S (length s))).
    cbn [filter]. rewrite Nat.sub_diag. cbn [skipn].
    assert (E : filter (fun j => startswith sub (skipn (j - i) (c :: s)))
                  (seq (S i) (S (length s)))
                = filter (fun j => startswith sub (skipn (j - S i) s))
                    (seq (S i) (S (length s)))).
    { apply filter_ext_in. intros j Hj. apply in_seq in Hj.
      now replace (j - i)%nat with (S (j - S i)) by lia. }
    rewrite E. now destruct (startswith sub (c :: s)).
Qed.

Lemma occurrences_at_0 (sub s : text) :
  occurrences_at sub s 0 = occurrences sub s.
Proof.
  rewrite occurrences_at_filter. unfold occurrences.
  apply filter_ext. intros j. now rewrite Nat.sub_0_r.
Qed.

Lemma find_candidate_occurrences (s : text) (k : nat) :
  find candidate s k = hd_error (occurrences_at candidate (skipn k s) k).
Proof.
  unfold find. destruct (Nat.ltb_spec (length s) k) as [Hlt|Hle].
  - rewrite skipn_all2 by lia. reflexivity.
  - apply find_at_occurrences.
Qed.

Lemma extract_loop_starts (s : text) (fuel : nat) :
  forall k end0 spans calls spans' calls',
    extract_loop fuel s (find candidate s k) end0 spans calls
    = Ok (spans', calls') ->
    map fst spans'
    = map fst spans
        ++ map Z.of_nat (occurrences_at candidate (skipn k s) k)
    /\ (length calls' + length spans = length spans' + length calls)%nat.
Proof.
  induction fuel as [|fuel IH]; intros k end0 spans calls spans' calls' H.
  - rewrite find_candidate_occurrences in H.
    destruct (occurrences_at candidate (skipn k s) k) eqn:E; simpl in H;
      [|discriminate].
    inversion H; subst. simpl. rewrite app_nil_r. split; [reflexivity | lia].
  - pose proof (find_candidate_occurrences s k) as Hfind.
    destruct (occurrences_at candidate (skipn k s) k) as [|idx rest] eqn:E;
      simpl in Hfind; rewrite Hfind in H; simpl in H.
    + inversion H; subst. simpl. rewrite app_nil_r. split; [reflexivity | lia].
    + apply occurrences_at_tail in E as [Hle ->]; [|reflexivity].
      rewrite skipn_skipn in *.
      replace (S (idx - k) + k)%nat with (idx + 1)%nat by lia.
      replace (S idx) with (idx + 1)%nat by lia.
      set (st := scan_call (skipn idx s) 0 (mk_scan false false 0 end0)) in *.
      destruct (scan_ok st); simpl in H; [|discriminate].
      destruct (end_ st) as [e|]; [|discriminate].
      apply IH in H as [Hs Hl]. split.
      * rewrite Hs, map_app, <- app_assoc. reflexivity.
      * rewrite !length_app in Hl. simpl in Hl. lia.
Qed.

(** X3.  The spans that [extract_calls] returns start at the positions
    where [candidate(] occurs in the text, all of them and in ascending
    order, a call nested in another included; there is one call for each
    span. *)
Theorem extract_calls_spans_at_occurrences :
  forall (s : text) (spans : list (Z * Z)) (calls : list text),
    extract_calls s = Ok (spans, calls) ->
    map fst spans = map Z.of_nat (occurrences candidate s)
    /\ length calls = length spans.
Proof.
  intros s spans calls H. unfold extract_calls, assert in H.
  destruct (contains candidate s); cbn [bind] in H; [|discriminate].
  apply extract_loop_starts in H as [Hs Hl].
  cbn [skipn map app length] in *.
  rewrite occurrences_at_0 in Hs. split; [exact Hs | lia].
Qed.

Lemma extract_calls_spans_at_occurrences_witness :
  map fst [(7, 38); (17, 32)]
  = map Z.of_nat
      (occurrences candidate
         (str "assert candidate(candidate('))'), (4)) == 5"))
  /\ length [str "candidate(candidate('))'), (4))"; str "candidate('))')"]
     = length [(7, 38); (17, 32)].
Proof.
  exact (extract_calls_spans_at_occurrences
           (str "assert candidate(candidate('))'), (4)) == 5")
           [(7, 38); (17, 32)]
           [str "candidate(candidate('))'), (4))"; str "candidate('))')"]
           eq_refl).
Defined.

(** ** What [sub_calls] splices *)

Lemma sub_calls_loop_step (program : text) (delta start stop : Z)
    (spans : list (Z * Z)) (v : text) (values : list text) :
  sub_calls_loop program delta ((start, stop) :: spans)
    (bracketed v :: values)
  = sub_calls_loop
      (slice1 program None (Some (start + delta)) ++ v
         ++ slice1 program (Some (stop + delta)) None)
      (delta + (Z.of_nat (length v) - (stop - start))) spans values.
Proof.
  cbn [sub_calls_loop].
  assert (H0 : py_index (bracketed v) 0 = Ok lbracket)
    by apply py_index_first.
  assert (H1 : py_index (bracketed v) (-1) = Ok rbracket)
    by apply (py_index_last (lbracket :: v)).
  rewrite H0, H1. cbn [bind].
  change (Ascii.eqb lbracket lbracket && Ascii.eqb rbracket rbracket)
    with true.
  cbn [assert bind]. now rewrite slice1_unbracket.
Qed.

Lemma sub_calls_loop_splice (pieces : list (text * text)) :
  forall (values : list text) (pre : text) (off : nat),
    length values = length pieces ->
    sub_calls_loop (pre ++ unspliced pieces)
      (Z.of_nat (length pre) - Z.of_nat off) (spans_of off pieces)
      (map bracketed values)
    = Ok (pre ++ spliced pieces values).
Proof.
  induction pieces as [|[call gap] rest IH]; intros [|v values] pre off Hlen;
    try discriminate; [reflexivity|].
  cbn [spans_of map unspliced spliced]. rewrite sub_calls_loop_step.
  replace (Z.of_nat off + (Z.of_nat (length pre) - Z.of_nat off))
    with (Z.of_nat (length pre)) by lia.
  replace (Z.of_nat (off + length call)
           + (Z.of_nat (length pre) - Z.of_nat off))
    with (Z.of_nat (length pre + length call)) by lia.
  rewrite slice1_prefix, slice1_suffix
    by (rewrite !length_app; lia).
  rewrite !Nat2Z.id.
  rewrite firstn_app, Nat.sub_diag, firstn_all. cbn [firstn].
  rewrite app_nil_r, (app_assoc pre call), skipn_app.
  rewrite skipn_all2 by (rewrite length_app; lia).
  rewrite length_app, Nat.sub_diag. cbn [skipn app].
  replace (pre ++ v ++ gap ++ unspliced rest)
    with ((pre ++ v ++ gap) ++ unspliced rest)
    by now rewrite <- !app_assoc.
  replace (Z.of_nat (length pre) - Z.of_nat off
           + (Z.of_nat (length v)
              - (Z.of_nat (off + length call) - Z.of_nat off)))
    with (Z.of_nat (length (pre ++ v ++ gap))
          - Z.of_nat (off + length call + length gap))
    by (rewrite !length_app; lia).
  rewrite IH by (simpl in Hlen; lia).
  now rewrite <- !app_assoc.
Qed.

(** X4.  On a text made of a prefix and of calls each followed by some
    text, with the spans of those calls in order and as many values in
    square brackets, [sub_calls] puts the inside of each value in the place
    of its call and keeps everything between the calls, whatever the
    lengths of the values. *)
Theorem sub_calls_splices_values :
  forall (prefix : text) (pieces : list (text * text)) (values : list text),
    length values = length pieces ->
    sub_calls (prefix ++ unspliced pieces)
      (spans_of (length prefix) pieces) (map bracketed values)
    = Ok (prefix ++ spliced pieces values).
Proof.
  intros prefix pieces values Hlen. unfold sub_calls.
  rewrite <- (sub_calls_loop_splice pieces values prefix (length prefix) Hlen).
  now rewrite Z.sub_diag.
Qed.

Lemma sub_calls_splices_values_witness :
  sub_calls (str "assert candidate(1) == candidate(22)")
    [(7, 19); (23, 36)] [str "[100]"; str "[5]"]
  = Ok (str "assert 100 == 5").
Proof.
  exact (sub_calls_splices_values (str "assert ")
           [(str "candidate(1)", str " == "); (str "candidate(22)", [])]
           [str "100"; str "5"] eq_refl).
Defined.

Lemma sub_calls_loop_mismatch (spans : list (Z * Z)) :
  forall (values : list text) (program : text) (delta : Z),
    length spans <> length values ->
    sub_calls_loop program delta spans (map bracketed values)
    = Raise ValueError.
Proof.
  induction spans as [|[start stop] spans IH]; intros [|v values] program
    delta Hlen; try reflexivity; try (now destruct Hlen).
  cbn [map]. rewrite sub_calls_loop_step.
  apply IH. simpl in Hlen. lia.
Qed.

(** X5.  What [sub_calls] refuses: with values in square brackets but not
    as many as there are spans it raises [ValueError]; at an empty value
    it raises [IndexError]; at a value that does not open with a square
    bracket, or does not close with one, it fails its assertion. *)
Theorem sub_calls_refusals :
  (forall (program : text) (spans : list (Z * Z)) (values : list text),
      length spans <> length values ->
      sub_calls program spans (map bracketed values) = Raise ValueError)
  /\ (forall (program : text) (span : Z * Z) (spans : list (Z * Z))
             (values : list text),
         sub_calls program (span :: spans) ([] :: values) = Raise IndexError)
  /\ (forall (program : text) (span : Z * Z) (spans : list (Z * Z))
             (a : ascii) (rest : text) (values : list text),
         a <> lbracket ->
         sub_calls program (span :: spans) ((a :: rest) :: values)
         = Raise AssertionError)
  /\ (forall (program : text) (span : Z * Z) (spans : list (Z * Z))
             (body : text) (z : ascii) (values : list text),
         z <> rbracket ->
         sub_calls program (span :: spans) ((body ++ [z]) :: values)
         = Raise AssertionError).
Proof.
  repeat split.
  - intros. now apply sub_calls_loop_mismatch.
  - intros program [start stop] spans values. reflexivity.
  - intros program [start stop] spans a rest values Ha.
    unfold sub_calls. cbn [sub_calls_loop].
    rewrite py_index_first. cbn [bind].
    destruct (py_index (a :: rest) (-1)) as [z| | |] eqn:E.
    + cbn [bind]. destruct (Ascii.eqb_spec a lbracket); [contradiction|].
      reflexivity.
    + exfalso. revert E.
      destruct (exists_last (l := a :: rest) ltac:(discriminate))
        as (body & z & ->).
      now rewrite py_index_last.
    + exfalso. revert E.
      destruct (exists_last (l := a :: rest) ltac:(discriminate))
        as (body & z & ->).
      now rewrite py_index_last.
    + exfalso. revert E.
      destruct (exists_last (l := a :: rest) ltac:(discriminate))
        as (body & z & ->).
      now rewrite py_index_last.
  - intros program [start stop] spans body z values Hz.
    unfold sub_calls. cbn [sub_calls_loop].
    rewrite py_index_last.
    destruct (body ++ [z]) as [|a rest] eqn:E;
      [now destruct body|].
    rewrite py_index_first. cbn [bind].
    destruct (Ascii.eqb_spec z rbracket); [contradiction|].
    now rewrite andb_false_r.
Qed.

Lemma sub_calls_refusals_witness :
  sub_calls (str "candidate(1)") [(0, 12)] [str "[1]"; str "[2]"]
  = Raise ValueError
  /\ sub_calls (str "candidate(1)") [(0, 12)] [str "1]"]
     = Raise AssertionError
  /\ sub_calls (str "candidate(1)") [(0, 12)] [str "[1"]
     = Raise AssertionError.
Proof.
  split; [|split].
  - exact (proj1 sub_calls_refusals (str "candidate(1)") [(0, 12)]
             [str "1"; str "2"] ltac:(discriminate)).
  - exact (proj1 (proj2 (proj2 sub_calls_refusals)) (str "candidate(1)")
             (0, 12) [] "1"%char (str "]") [] ltac:(discriminate)).
  - exact (proj2 (proj2 (proj2 sub_calls_refusals)) (str "candidate(1)")
             (0, 12) [] (str "[") "1"%char [] ltac:(discriminate)).
Defined.

(** ** The lines the evaluator returns *)

Lemma split_go_char_length (c : ascii) (s : text) :
  forall cur,
    length (split_go [c] s 0 cur) = S (count_occ ascii_dec s c).
Proof.
  induction s as [|a s IH]; intros cur; simpl; [reflexivity|].
  destruct (Ascii.eqb_spec c a) as [->|Hca]; simpl.
  - destruct (ascii_dec a a); [|contradiction]. now rewrite IH.
  - destruct (ascii_dec a c); [now subst|]. apply IH.
Qed.

(** X6.  When the evaluator returns lines, there are as many of them as
    there are newlines in what the program wrote. *)
Theorem eval_program_with_calls_line_count :
  forall exec rw program perturbation program' output lines,
    perturb rw program perturbation = Ok program' ->
    exec program' = Ok output ->
    eval_program_with_calls exec rw program perturbation true
    = Ok (Some lines) ->
    length lines = count_occ ascii_dec output newline.
Proof.
  intros exec rw program perturbation program' output lines Hp He H.
  rewrite (eval_program_unfold _ _ _ _ _ _ Hp He) in H. clear He.
  induction output as [|x body _] using rev_ind; [discriminate|].
  rewrite py_index_last in H. cbn [bind] in H.
  destruct (Ascii.eqb_spec x newline) as [->|Hx]; [|discriminate].
  cbn [assert bind] in H. rewrite slice1_drop_last in H.
  inversion H; subst.
  unfold split. rewrite split_go_char_length, count_occ_app. simpl.
  destruct (ascii_dec newline newline); [lia | contradiction].
Qed.

Lemma eval_program_with_calls_line_count_witness :
  length [str "[7]"; str "[8]"]
  = count_occ ascii_dec (str "[7]" ++ [newline] ++ str "[8]" ++ [newline])
      newline.
Proof.
  exact (eval_program_with_calls_line_count
           (fun _ => Ok (str "[7]" ++ [newline] ++ str "[8]" ++ [newline]))
           (@Ok text) (str "print([7]); print([8])") None
           (str "print([7]); print([8])")
           (str "[7]" ++ [newline] ++ str "[8]" ++ [newline])
           [str "[7]"; str "[8]"] eq_refl eq_refl eq_refl).
Defined.

(** ** The deduplication of the assembler *)

Lemma text_eqb_eq (a b : text) : text_eqb a b = true <-> a = b.
Proof.
  revert b; induction a as [|x a IH]; intros [|y b]; simpl;
    try (split; [discriminate | discriminate]); [tauto|].
  rewrite andb_true_iff, Ascii.eqb_eq, IH.
  split; [intros [-> ->]; reflexivity | intros H; now inversion H].
Qed.

Lemma existsb_text_eqb (x : text) (l : list text) :
  existsb (text_eqb x) l = true <-> In x l.
Proof.
  rewrite existsb_exists. split.
  - intros (y & Hy & E). apply text_eqb_eq in E. now subst.
  - intros H. exists x. split; [exact H | now apply text_eqb_eq].
Qed.

Lemma dedup_loop_spec (l : list text) :
  forall acc,
    NoDup acc ->
    NoDup (dedup_loop l acc)
    /\ forall x, In x (dedup_loop l acc) <-> In x acc \/ In x l.
Proof.
  induction l as [|c l IH]; intros acc Hacc; simpl.
  - split; [exact Hacc | tauto].
  - destruct (existsb (text_eqb c) acc) eqn:E.
    + apply existsb_text_eqb in E.
      destruct (IH acc Hacc) as [Hn Hi]. split; [exact Hn|].
      intros x. rewrite Hi. intuition (subst; auto).
    + assert (Hc : ~ In c acc).
      { intros Hin. apply existsb_text_eqb in Hin. congruence. }
      assert (Hacc' : NoDup (acc ++ [c])).
      { apply NoDup_app; [exact Hacc | repeat constructor; intros []|].
        intros x Hx [<-|[]]. contradiction. }
      destruct (IH _ Hacc') as [Hn Hi]. split; [exact Hn|].
      intros x. rewrite Hi, in_app_iff. simpl. tauto.
Qed.

Lemma dedup_loop_NoDup (l : list text) :
  forall acc, NoDup (acc ++ l) -> dedup_loop l acc = acc ++ l.
Proof.
  induction l as [|c l IH]; intros acc H; simpl.
  - now rewrite app_nil_r.
  - assert (Hc : existsb (text_eqb c) acc = false).
    { destruct (existsb (text_eqb c) acc) eqn:E; [|reflexivity].
      apply existsb_text_eqb in E. apply NoDup_remove_2 in H.
      destruct H. apply in_or_app. now left. }
    rewrite Hc, IH by now rewrite <- app_assoc.
    now rewrite <- app_assoc.
Qed.

Lemma filter_twice {A : Type} (f g : A -> bool) (l : list A) :
  filter f (filter g l) = filter (fun x => g x && f x) l.
Proof.
  induction l as [|a l IH]; simpl; [reflexivity|].
  destruct (g a); simpl; [destruct (f a)|]; now rewrite IH.
Qed.

(** What is new in [l] for [acc], in order of first appearance. *)
Lemma dedup_loop_filter (n : nat) :
  forall (l acc : list text),
    (length l <= n)%nat ->
    dedup_loop l acc
    = acc ++ dedup_loop
               (filter (fun y => negb (existsb (text_eqb y) acc)) l) [].
Proof.
  induction n as [|n IH]; intros [|c l] acc Hlen; simpl in *;
    try (now rewrite app_nil_r); try lia.
  destruct (existsb (text_eqb c) acc) eqn:E; cbn [negb].
  - apply IH. lia.
  - cbn [dedup_loop existsb app].
    rewrite (IH l (acc ++ [c])) by lia.
    rewrite (IH (filter _ l) [c])
      by (etransitivity; [apply filter_length_le | lia]).
    rewrite <- app_assoc. cbn [app]. do 3 f_equal.
    rewrite filter_twice. apply filter_ext. intros y.
    rewrite existsb_app. cbn [existsb].
    now rewrite !orb_false_r, negb_orb.
Qed.

(** X7.  The deduplication keeps the first occurrence of every call, in
    the order of the list: the result has no repetition and the elements
    of the list; its first element is that of the list and the rest is the
    deduplication of the other elements that differ from it; a list
    without repetition is returned as it is.  The assertion on lengths
    that follows the loop therefore holds. *)
Theorem dedup_loop_keeps_first :
  forall calls : list text,
    NoDup (dedup_loop calls [])
    /\ (forall x, In x (dedup_loop calls []) <-> In x calls)
    /\ (forall c rest,
           calls = c :: rest ->
           dedup_loop calls []
           = c :: dedup_loop
                    (filter (fun y => negb (text_eqb y c)) rest) [])
    /\ (NoDup calls -> dedup_loop calls [] = calls)
    /\ (length (dedup_loop calls [])
        =? length (nodup (list_eq_dec ascii_dec) (dedup_loop calls [])))%nat
       = true.
Proof.
  intros calls.
  destruct (dedup_loop_spec calls [] (NoDup_nil _)) as [Hn Hi].
  repeat split.
  - exact Hn.
  - intros H. apply Hi in H as [[]|H]. exact H.
  - intros H. apply Hi. now right.
  - intros c rest ->. cbn [dedup_loop existsb app].
    rewrite (dedup_loop_filter (length rest) rest [c] (Nat.le_refl _)).
    cbn [app]. do 2 f_equal. apply filter_ext. intros y.
    cbn [existsb]. now rewrite orb_false_r.
  - intros H. now apply (dedup_loop_NoDup calls []).
  - rewrite (nodup_fixed_point _ Hn). apply Nat.eqb_refl.
Qed.

Lemma dedup_loop_keeps_first_witness :
  dedup_loop [str "a"; str "b"; str "a"; str "c"; str "b"] []
  = str "a" :: dedup_loop [str "b"; str "c"; str "b"] []
  /\ dedup_loop [str "a"; str "b"] [] = [str "a"; str "b"].
Proof.
  split.
  - exact (proj1 (proj2 (proj2 (dedup_loop_keeps_first
             [str "a"; str "b"; str "a"; str "c"; str "b"])))
             (str "a") [str "b"; str "a"; str "c"; str "b"] eq_refl).
  - refine (proj1 (proj2 (proj2 (proj2 (dedup_loop_keeps_first
              [str "a"; str "b"])))) _).
    repeat constructor; simpl; intuition discriminate.
Defined.

(** ** Expressions the rewriter leaves alone *)

Lemma mapM_visit_plain (p : parent) (es : list ast.expr) :
  Forall (fun e => forall p, plain e = true -> visit p e = Ok e) es ->
  forallb plain es = true ->
  mapM (visit p) es = Ok es.
Proof.
  induction 1 as [|e es He _ IH]; simpl; [reflexivity|].
  intros H. apply andb_true_iff in H as [H1 H2].
  now rewrite (He p H1), (IH H2).
Qed.

Lemma mapM_option_visit_plain (p : parent) (o : option ast.expr) :
  match o with
  | None => True
  | Some e => forall p, plain e = true -> visit p e = Ok e
  end ->
  match o with None => true | Some e => plain e end = true ->
  mapM_option (visit p) o = Ok o.
Proof.
  destruct o as [e|]; simpl; [|reflexivity].
  intros IH H. now rewrite (IH p H).
Qed.

(** X8.  An expression without subscripts and attribute accesses comes
    out of the rewriter as it went in. *)
Theorem visit_plain_unchanged :
  forall (node : ast.expr) (p : parent),
    plain node = true -> visit p node = Ok node.
Proof.
  induction node using expr_induction; intros p Hp;
    cbn [visit plain] in Hp |- *;
    repeat match goal with
           | H : _ && _ = true |- _ => apply andb_true_iff in H as [? ?]
           end;
    try discriminate;
    repeat match goal with
           | IH : forall p, plain ?e = true -> visit p ?e = Ok ?e,
             H : plain ?e = true |- _ =>
               rewrite (IH _ H); clear IH
           end;
    try reflexivity.
  - rewrite !mapM_option_visit_plain by assumption. reflexivity.
  - now rewrite mapM_visit_plain.
  - now rewrite mapM_visit_plain.
  - now rewrite mapM_visit_plain.
Qed.

Lemma visit_plain_unchanged_witness :
  rewrite_expr
    (ast.Call (ast.Name "f")
       [ast.BinOp (ast.Name "x") ast.Add (int_const 1);
        ast.List [ast.Name "y"]])
  = Ok (ast.Call (ast.Name "f")
          [ast.BinOp (ast.Name "x") ast.Add (int_const 1);
           ast.List [ast.Name "y"]]).
Proof.
  exact (visit_plain_unchanged
           (ast.Call (ast.Name "f")
              [ast.BinOp (ast.Name "x") ast.Add (int_const 1);
               ast.List [ast.Name "y"]])
           ParentOther eq_refl).
Defined.

(** ** Attribute accesses outside the reviewed names *)

Lemma visit_Attribute_unreviewed (p : parent) (value : ast.expr)
    (attr : string) :
  reviewed_attribute attr = false ->
  visit_Attribute p value attr
  = Ok (ast.Attribute
          (ast.IfExp (isinstance_sequence value)
             (ast.Subscript (ast.List []) (int_const 1))
             value)
          attr).
Proof.
  unfold reviewed_attribute, visit_Attribute. intros H.
  apply orb_false_iff in H as [H1 H2]. rewrite H1.
  cbn [mem existsb] in H2 |- *.
  repeat match goal with
         | H : _ || _ = false |- _ => apply orb_false_iff in H as [? ?]
         end.
  repeat match goal with
         | H : String.eqb attr _ = false |- _ => rewrite H; clear H
         end.
  reflexivity.
Qed.

Lemma eval_forced_IndexError (fuel : nat) (rho : env) (h : heap) :
  eval fuel rho (ast.Subscript (ast.List []) (int_const 1)) h
  = Raise IndexError.
Proof.
  rewrite eval_Subscript. unfold mbind. cbn.
  unfold mbind, read_list. rewrite nth_error_app2, Nat.sub_diag by lia.
  reflexivity.
Qed.

(** X9.  An attribute access whose name the rewriter has no branch for
    is rewritten so that, where the builtin names have their meaning, it
    raises [IndexError] when its receiver is a list, a tuple or a string,
    and is the access as it was on the receiver evaluated once more
    otherwise.  The exception is not the [ZeroDivisionError] that the
    assembler's filter drops calls on. *)
Theorem visit_Attribute_unreviewed_forces_IndexError :
  forall (p : parent) (recv node' : ast.expr) (attr : string),
    reviewed_attribute attr = false ->
    visit p (ast.Attribute recv attr) = Ok node' ->
    exists recv',
      visit ParentOther recv = Ok recv'
      /\ forall (fuel : nat) (rho : env) (h h1 : heap) (r : value),
          standard_names rho ->
          eval fuel rho recv' h = Ok (r, h1) ->
          eval fuel rho node' h
          = if is_sequence r then Raise IndexError
            else eval fuel rho (ast.Attribute recv' attr) h1.
Proof.
  intros p recv node' attr Hattr H. cbn [visit] in H.
  destruct (visit ParentOther recv) as [recv'| | |]; try discriminate.
  cbn [bind] in H. rewrite (visit_Attribute_unreviewed _ _ _ Hattr) in H.
  injection H as <-. exists recv'. split; [reflexivity|].
  intros fuel rho h h1 r Hstd Hr.
  rewrite eval_Attribute, eval_IfExp. unfold mbind.
  rewrite (isinstance_sequence_eval _ _ _ _ Hstd). unfold mbind.
  rewrite Hr. cbn [ret truthy].
  destruct (is_sequence r).
  - now rewrite eval_forced_IndexError.
  - now rewrite eval_Attribute.
Qed.

Lemma visit_Attribute_unreviewed_forces_IndexError_witness :
  exists node',
    rewrite_expr (ast.Attribute (ast.Name "xs") "insert") = Ok node'
    /\ eval 0 [("xs"%string, VTuple [VInt 7])] node' [] = Raise IndexError.
Proof.
  eexists; split; [reflexivity|].
  destruct (visit_Attribute_unreviewed_forces_IndexError ParentOther
              (ast.Name "xs") _ "insert"%string eq_refl eq_refl)
    as (recv' & Hr & H).
  injection Hr as <-.
  exact (H 0%nat [("xs"%string, VTuple [VInt 7])] [] [] (VTuple [VInt 7])
           ltac:(repeat split; reflexivity) eq_refl).
Defined.

(** ** Reviewed names that need a call around them *)

Lemma bind_visit_then_fail (p : parent) (e : ast.expr)
    (k : ast.expr -> res ast.expr) :
  (forall e', k e' = Raise AssertionError) ->
  bind (visit p e) k = Raise AssertionError.
Proof.
  intros Hk. apply bind_fails_right; [apply visit_settled | exact Hk].
Qed.

(** X10.  The rewriter fails an assertion on [startswith], [endswith]
    and [index] called with other than one argument, on [pop] called
    with two arguments or more, and on any of these four names that is
    not the function of a call or one of its arguments. *)
Theorem visit_Attribute_argument_counts :
  (forall (p : parent) (recv : ast.expr) (attr : string)
          (args : list ast.expr),
      In attr ["startswith"; "endswith"; "index"]%string ->
      length args <> 1%nat ->
      visit p (ast.Call (ast.Attribute recv attr) args)
      = Raise AssertionError)
  /\ (forall (p : parent) (recv : ast.expr) (args : list ast.expr),
         (2 <= length args)%nat ->
         visit p (ast.Call (ast.Attribute recv "pop") args)
         = Raise AssertionError)
  /\ (forall (recv : ast.expr) (attr : string),
         In attr ["startswith"; "endswith"; "index"; "pop"]%string ->
         visit ParentOther (ast.Attribute recv attr) = Raise AssertionError).
Proof.
  split; [|split].
  - intros p recv attr args Hattr Hlen. cbn [visit].
    apply bind_fails_left, bind_visit_then_fail. intros recv'.
    apply Nat.eqb_neq in Hlen.
    destruct Hattr as [<-|[<-|[<-|[]]]];
      unfold visit_Attribute; cbn; now rewrite Hlen.
  - intros p recv args Hlen. cbn [visit].
    apply bind_fails_left, bind_visit_then_fail. intros recv'.
    unfold visit_Attribute; cbn.
    destruct (length args) as [|[|n]]; try lia. reflexivity.
  - intros recv attr Hattr. cbn [visit].
    apply bind_visit_then_fail. intros recv'.
    destruct Hattr as [<-|[<-|[<-|[<-|[]]]]]; reflexivity.
Qed.

Lemma visit_Attribute_argument_counts_witness :
  rewrite_expr
    (ast.Call (ast.Attribute (ast.Name "s") "startswith")
       [ast.Name "p"; int_const 2])
  = Raise AssertionError
  /\ rewrite_expr
       (ast.Call (ast.Attribute (ast.Name "xs") "pop")
          [int_const 1; int_const 2])
     = Raise AssertionError
  /\ rewrite_expr
       (ast.BinOp (ast.Attribute (ast.Name "xs") "pop") ast.Add
          (int_const 1))
     = Raise AssertionError.
Proof.
  split; [|split].
  - exact (proj1 visit_Attribute_argument_counts ParentOther (ast.Name "s")
             "startswith"%string [ast.Name "p"; int_const 2]
             (or_introl eq_refl) ltac:(discriminate)).
  - exact (proj1 (proj2 visit_Attribute_argument_counts) ParentOther
             (ast.Name "xs") [int_const 1; int_const 2] (le_n 2)).
  - change (bind (visit ParentOther (ast.Attribute (ast.Name "xs") "pop"))
              (fun l' => bind (visit ParentOther (int_const 1))
                           (fun r' => Ok (ast.BinOp l' ast.Add r')))
            = Raise AssertionError).
    now rewrite (proj2 (proj2 visit_Attribute_argument_counts)
                   (ast.Name "xs") "pop"%string
                   (or_intror (or_intror (or_intror (or_introl eq_refl))))).
Defined.

(** ** The rewritten [index] *)

Lemma visit_index_call (p : parent) (recv x node' : ast.expr) :
  visit p (ast.Call (ast.Attribute recv "index") [x]) = Ok node' ->
  exists recv' x',
    visit ParentOther recv = Ok recv'
    /\ visit (ParentCall 1) x = Ok x'
    /\ node'
       = ast.Call
           (ast.IfExp (isinstance_sequence recv')
              (ast.Lambda antwnc
                 (ast.BinOp
                    (ast.Call (ast.Attribute recv' "index")
                       [ast.Name antwnc])
                    ast.Add (int_const 1)))
              (ast.Attribute recv' "index"))
           [x'].
Proof.
  cbn [visit length mapM].
  destruct (visit ParentOther recv) as [recv'| | |]; try discriminate.
  cbn [bind].
  change (visit_Attribute (ParentCall 1) recv' "index")
    with (Ok (ast.IfExp (isinstance_sequence recv')
                (ast.Lambda antwnc
                   (ast.BinOp
                      (ast.Call (ast.Attribute recv' "index")
                         [ast.Name antwnc])
                      ast.Add (int_const 1)))
                (ast.Attribute recv' "index"))).
  cbn [bind].
  destruct (visit (ParentCall 1) x) as [x'| | |]; try discriminate.
  intros H; injection H as <-. eauto.
Qed.

(** The rewritten call evaluates the receiver for the type test; on a
    list, tuple or string it evaluates the argument, runs
    [recv.index(__antwnc)] and adds one; otherwise it runs the call as it
    was. *)
Lemma index_call_eval (fuel : nat) (rho : env) (recv x : ast.expr)
    (h : heap) :
  standard_names rho ->
  eval (S fuel) rho
    (ast.Call
       (ast.IfExp (isinstance_sequence recv)
          (ast.Lambda antwnc
             (ast.BinOp
                (ast.Call (ast.Attribute recv "index") [ast.Name antwnc])
                ast.Add (int_const 1)))
          (ast.Attribute recv "index"))
       [x]) h
  = (r <- eval (S fuel) rho recv ;;
     if is_sequence r then
       a <- eval (S fuel) rho x ;;
       k <- eval fuel ((antwnc, a) :: rho)
              (ast.Call (ast.Attribute recv "index") [ast.Name antwnc]) ;;
       lift (binop ast.Add k (VInt 1))
     else
       eval (S fuel) rho (ast.Call (ast.Attribute recv "index") [x]))%M h.
Proof.
  intros Hstd.
  rewrite eval_Call, eval_IfExp. unfold mbind.
  rewrite (isinstance_sequence_eval _ _ _ _ Hstd). unfold mbind.
  destruct (eval (S fuel) rho recv h) as [[r h1]| | |]; try reflexivity.
  cbn [ret truthy]. destruct (is_sequence r).
  - rewrite eval_Lambda. cbn [eval_list]. unfold mbind.
    destruct (eval (S fuel) rho x h1) as [[a h2]| | |]; reflexivity.
  - rewrite eval_Call. reflexivity.
Qed.

Lemma getattr_index_items (h : heap) (r : value) (items : list value) :
  items_of h r = Some items -> getattr r "index" = Ok (VMethod r "index").
Proof. destruct r; try discriminate; reflexivity. Qed.

Lemma call_method_index_items (h : heap) (r a : value)
    (items : list value) :
  items_of h r = Some items ->
  call_method r "index" [a] h
  = bind (index_of items a 0) (fun k => Ok (k, h)).
Proof.
  destruct r; try discriminate; cbn [items_of]; intros H.
  - inversion H; subst. reflexivity.
  - cbn. unfold mbind, read_list. rewrite H. reflexivity.
Qed.

Lemma is_sequence_items (h : heap) (r : value) (items : list value) :
  items_of h r = Some items -> is_sequence r = true.
Proof. destruct r; try discriminate; reflexivity. Qed.

Lemma eval_antwnc (fuel : nat) (rho : env) (a : value) (h : heap) :
  eval fuel ((antwnc, a) :: rho) (ast.Name antwnc) h = Ok (a, h).
Proof. reflexivity. Qed.

Lemma index_inner_eval (fuel : nat) (rho : env) (recv : ast.expr)
    (h : heap) (r a : value) (items : list value) :
  eval fuel ((antwnc, a) :: rho) recv h = Ok (r, h) ->
  items_of h r = Some items ->
  eval fuel ((antwnc, a) :: rho)
    (ast.Call (ast.Attribute recv "index") [ast.Name antwnc]) h
  = bind (index_of items a 0) (fun k => Ok (k, h)).
Proof.
  intros Hr Hi.
  rewrite eval_Call, eval_Attribute. unfold mbind. rewrite Hr.
  rewrite (getattr_index_items _ _ _ Hi). cbn [lift bind eval_list].
  unfold mbind. rewrite eval_antwnc. cbn [ret call_value].
  apply (call_method_index_items _ _ _ _ Hi).
Qed.

(** X11.  A rewritten [recv.index(x)] on a list or tuple reached without
    side effects returns one more than the zero-based position of the
    first item equal to [x], and raises [ValueError], as the original
    does, when there is none. *)
Theorem visit_Attribute_index_plus_one :
  forall (p : parent) (recv x node' : ast.expr),
    visit p (ast.Call (ast.Attribute recv "index") [x]) = Ok node' ->
    exists recv' x',
      visit ParentOther recv = Ok recv'
      /\ visit (ParentCall 1) x = Ok x'
      /\ forall (fuel : nat) (rho : env) (h : heap) (r a : value)
                (items : list value),
          standard_names rho ->
          eval (S fuel) rho recv' h = Ok (r, h) ->
          eval fuel ((antwnc, a) :: rho) recv' h = Ok (r, h) ->
          items_of h r = Some items ->
          eval (S fuel) rho x' h = Ok (a, h) ->
          (forall k, index_of items a 0 = Ok (VInt k) ->
                     eval (S fuel) rho node' h = Ok (VInt (k + 1), h))
          /\ (index_of items a 0 = Raise ValueError ->
              eval (S fuel) rho node' h = Raise ValueError).
Proof.
  intros p recv x node' H.
  apply visit_index_call in H as (recv' & x' & Hr & Hx & ->).
  exists recv', x'. repeat split; try assumption.
  - intros k Hk. rewrite (index_call_eval _ _ _ _ _ H). unfold mbind.
    rewrite H0, (is_sequence_items _ _ _ H2), H3.
    rewrite (index_inner_eval _ _ _ _ _ _ _ H1 H2), Hk. reflexivity.
  - intros Hk. rewrite (index_call_eval _ _ _ _ _ H). unfold mbind.
    rewrite H0, (is_sequence_items _ _ _ H2), H3.
    rewrite (index_inner_eval _ _ _ _ _ _ _ H1 H2), Hk. reflexivity.
Qed.

Lemma visit_Attribute_index_plus_one_witness :
  let rho := [("xs"%string, VList 0)] in
  let h := [[VInt 7; VInt 8; VInt 9]] in
  exists node',
    rewrite_expr
      (ast.Call (ast.Attribute (ast.Name "xs") "index") [int_const 8])
    = Ok node'
    /\ eval 1 rho node' h = Ok (VInt 2, h).
Proof.
  intros rho h. eexists; split; [reflexivity|].
  destruct (visit_Attribute_index_plus_one ParentOther (ast.Name "xs")
              (int_const 8) _ eq_refl)
    as (recv' & x' & Hr & Hx & H).
  injection Hr as <-. injection Hx as <-.
  exact (proj1 (H 0%nat rho h (VList 0) (VInt 8) [VInt 7; VInt 8; VInt 9]
                  ltac:(repeat split; reflexivity)
                  eq_refl eq_refl eq_refl eq_refl)
           1 eq_refl).
Defined.

(** ** The rewritten [pop] on a list *)

(** X12.  A rewritten [recv.pop(i)] on a list reached without side
    effects, with [i] evaluating to the integer [n], pops as the original
    [pop] does at [n - 1] when [n] is strictly positive and at [n] when it
    is strictly negative, and raises [ZeroDivisionError], the list
    untouched, when [n] is zero.  A [recv.pop()] without argument is only
    rewritten inside its receiver. *)
Theorem visit_Attribute_pop_list :
  (forall (p : parent) (recv i node' : ast.expr),
      visit p (ast.Call (ast.Attribute recv "pop") [i]) = Ok node' ->
      exists recv' i',
        visit ParentOther recv = Ok recv'
        /\ visit (ParentCall 1) i = Ok i'
        /\ forall (fuel : nat) (rho : env) (h : heap) (ref : nat) (n : Z),
            standard_names rho ->
            eval (S fuel) rho recv' h = Ok (VList ref, h) ->
            eval fuel ((antwnc, VInt n) :: rho) recv' h = Ok (VList ref, h) ->
            eval (S fuel) rho i' h = Ok (VInt n, h) ->
            (0 < n -> eval (S fuel) rho node' h = list_pop ref (n - 1) h)
            /\ (n < 0 -> eval (S fuel) rho node' h = list_pop ref n h)
            /\ (n = 0 ->
                eval (S fuel) rho node' h = Raise ZeroDivisionError))
  /\
  (forall (p : parent) (recv : ast.expr),
      visit p (ast.Call (ast.Attribute recv "pop") [])
      = bind (visit ParentOther recv)
          (fun recv' => Ok (ast.Call (ast.Attribute recv' "pop") []))).
Proof.
  split.
  - intros p recv i node' H.
    apply visit_pop_call in H as (recv' & i' & Hr & Hi & ->).
    exists recv', i'. split; [exact Hr|]. split; [exact Hi|].
    intros fuel rho h ref n Hstd Hrecv Hrecv' Hn.
    assert (E : eval (S fuel) rho
                  (ast.Call
                     (ast.IfExp (isinstance_sequence recv')
                        (ast.Lambda antwnc
                           (ast.Call (ast.Attribute recv' "pop")
                              [shift_idx (ast.Name antwnc)]))
                        (ast.Attribute recv' "pop"))
                     [i']) h
                = (n' <- lift (shifted_index n) ;; list_pop ref n')%M h).
    { rewrite (pop_call_eval _ _ _ _ _ Hstd). unfold mbind.
      rewrite Hrecv. cbn [is_sequence]. rewrite Hn.
      rewrite pop_shifted_call, eval_Attribute. unfold mbind.
      rewrite Hrecv'. cbn [getattr mem existsb String.eqb].
      unfold lift. destruct (shifted_index n); reflexivity. }
    rewrite E. unfold mbind, lift, shifted_index.
    repeat split; intros Hs.
    + destruct (Z.gtb_spec n 0); [reflexivity | lia].
    + destruct (Z.gtb_spec n 0); [lia|].
      destruct (Z.ltb_spec n 0); [reflexivity | lia].
    + subst n. reflexivity.
  - intros p recv. cbn [visit length mapM].
    destruct (visit ParentOther recv) as [recv'| | |]; reflexivity.
Qed.

Lemma visit_Attribute_pop_list_witness :
  let rho := [("xs"%string, VList 0)] in
  let h := [[VInt 4; VInt 5; VInt 6]] in
  exists node',
    rewrite_expr
      (ast.Call (ast.Attribute (ast.Name "xs") "pop") [int_const 2])
    = Ok node'
    /\ eval 1 rho node' h = list_pop 0 (2 - 1) h
    /\ list_pop 0 (2 - 1) h = Ok (VInt 5, [[VInt 4; VInt 6]]).
Proof.
  intros rho h. eexists; split; [reflexivity|].
  split; [|reflexivity].
  destruct (proj1 visit_Attribute_pop_list ParentOther (ast.Name "xs")
              (int_const 2) _ eq_refl)
    as (recv' & i' & Hr & Hi & H).
  injection Hr as <-. injection Hi as <-.
  exact (proj1 (H 0%nat rho h 0%nat 2
                  ltac:(repeat split; reflexivity) eq_refl eq_refl eq_refl)
           eq_refl).
Defined.

(** ** The prelude: [range] and [enumerate] *)

Lemma range_items_In (k : nat) :
  forall (start i : Z),
    In i (range_items start 1 k) <-> start <= i < start + Z.of_nat k.
Proof.
  induction k as [|k IH]; intros start i; cbn [range_items In].
  - split; [contradiction | lia].
  - rewrite IH. lia.
Qed.

Lemma range_items_length (start step : Z) (k : nat) :
  length (range_items start step k) = k.
Proof.
  revert start; induction k as [|k IH]; intros start; simpl;
    [reflexivity | now rewrite IH].
Qed.

Lemma slice_length_unit (start stop : Z) :
  Z.of_nat (Z.to_nat (slice_length start stop 1)) = Z.max 0 (stop - start).
Proof.
  unfold slice_length. simpl.
  destruct (Z.ltb_spec start stop); [rewrite Z.div_1_r|]; lia.
Qed.

(** X13.  Under the prelude a call of [range] with one argument [n]
    yields the integers from 1 to [n - 1]: one fewer than the original
    [range(n)], and never [n] itself, the one-based position of the last
    item of a sequence of length [n].  A call with two or three arguments
    is the original [range]. *)
Theorem prelude_range_one_argument :
  (forall (n : Z) (items : list Z),
      prelude_range [n] = Ok items ->
      (forall i, In i items <-> 1 <= i < n)
      /\ Z.of_nat (length items) = Z.max 0 (n - 1)
      /\ ~ In n items)
  /\ (forall n, exists items, prelude_range [n] = Ok items)
  /\ (forall args, length args <> 1%nat ->
                   prelude_range args = old_range args).
Proof.
  split; [|split].
  - intros n items H. unfold prelude_range in H. cbn [length Nat.eqb] in H.
    rewrite py_index_first in H. cbn [bind old_range] in H.
    inversion H; subst; clear H.
    assert (Hin : forall i,
               In i (range_items 1 1 (Z.to_nat (slice_length 1 n 1)))
               <-> 1 <= i < n).
    { intros i. rewrite range_items_In, slice_length_unit. lia. }
    split; [exact Hin|]. split.
    + now rewrite range_items_length, slice_length_unit.
    + rewrite Hin. lia.
  - intros n. unfold prelude_range. cbn [length Nat.eqb].
    rewrite py_index_first. cbn [bind old_range]. eauto.
  - intros args H. unfold prelude_range.
    apply Nat.eqb_neq in H. now rewrite H.
Qed.

Lemma prelude_range_one_argument_witness :
  (forall i, In i [1; 2] <-> 1 <= i < 3)
  /\ Z.of_nat (length [1; 2]) = Z.max 0 (3 - 1)
  /\ ~ In 3 [1; 2].
Proof.
  exact (proj1 prelude_range_one_argument 3 [1; 2] eq_refl).
Defined.

Lemma old_enumerate_nth {A : Type} (x : list A) :
  forall (start : Z) (k : nat) (v : A),
    nth_error x k = Some v ->
    nth_error (old_enumerate x start) k = Some (start + Z.of_nat k, v).
Proof.
  unfold old_enumerate.
  induction x as [|a x IH]; intros start [|k] v H; simpl in *;
    try discriminate.
  - inversion H; subst. now rewrite Z.add_0_r.
  - rewrite (IH (start + 1) k v H). do 2 f_equal. lia.
Qed.

Lemma old_enumerate_In {A : Type} (x : list A) :
  forall (start i : Z) (v : A),
    In (i, v) (old_enumerate x start) ->
    start <= i /\ nth_error x (Z.to_nat (i - start)) = Some v.
Proof.
  unfold old_enumerate.
  induction x as [|a x IH]; intros start i v H; simpl in *; [contradiction|].
  destruct H as [H|H].
  - inversion H; subst. now rewrite Z.sub_diag.
  - apply IH in H as [Hle Hn]. split; [lia|].
    replace (Z.to_nat (i - start)) with (S (Z.to_nat (i - (start + 1))))
      by lia.
    exact Hn.
Qed.

(** X14.  Under the prelude [enumerate(x)] pairs every item with its
    one-based position: the [k]-th pair, counting from zero, is
    [(k + 1, x[k])], and each pair [(i, v)] is one whose index the shift
    primitive takes to the zero-based position of [v] in [x]. *)
Theorem prelude_enumerate_one_based :
  forall (A : Type) (x : list A),
    length (prelude_enumerate x) = length x
    /\ (forall k v,
           nth_error x k = Some v ->
           nth_error (prelude_enumerate x) k = Some (Z.of_nat k + 1, v))
    /\ (forall i v,
           In (i, v) (prelude_enumerate x) ->
           exists i', shifted_index i = Ok i' /\ py_index x i' = Ok v).
Proof.
  intros A x. split; [|split].
  - unfold prelude_enumerate, old_enumerate.
    rewrite length_combine, range_items_length. apply Nat.min_id.
  - intros k v H. unfold prelude_enumerate.
    rewrite (old_enumerate_nth x 1 k v H). do 2 f_equal. lia.
  - intros i v H. apply old_enumerate_In in H as [Hle Hn].
    exists (i - 1). unfold shifted_index.
    destruct (Z.gtb_spec i 0); [|lia]. split; [reflexivity|].
    assert (Hlt : (Z.to_nat (i - 1) < length x)%nat)
      by (apply nth_error_Some; congruence).
    unfold py_index.
    assert (E1 : (i - 1 <? 0) = false) by (apply Z.ltb_ge; lia).
    assert (E2 : (Z.of_nat (length x) <=? i - 1) = false)
      by (apply Z.leb_gt; lia).
    rewrite E1. cbv zeta. rewrite E1, E2. cbn [orb]. now rewrite Hn.
Qed.

Lemma prelude_enumerate_one_based_witness :
  nth_error (prelude_enumerate [7; 8; 9]) 1 = Some (Z.of_nat 1 + 1, 8).
Proof.
  exact (proj1 (proj2 (prelude_enumerate_one_based Z [7; 8; 9])) 1%nat 8
           eq_refl).
Defined.

(** ** [remove_docstrings] on text without quotes *)

Lemma startswith_In (p t : text) (q : ascii) :
  startswith p t = true -> In q p -> In q t.
Proof.
  revert t; induction p as [|a p IH]; intros [|b t] H Hq; simpl in *;
    try contradiction; try discriminate.
  apply andb_true_iff in H as [Hab Ht]. apply Ascii.eqb_eq in Hab as ->.
  destruct Hq as [->|Hq]; [now left | right; now apply IH].
Qed.

Lemma replace_go_absent (old new s : text) (q : ascii) :
  In q old -> ~ In q s -> replace_go old new s 0 = s.
Proof.
  intros Hold. induction s as [|c s IH]; intros Hs; [reflexivity|].
  cbn [replace_go].
  destruct (startswith old (c :: s)) eqn:E.
  - destruct Hs. exact (startswith_In _ _ _ E Hold).
  - f_equal. apply IH. intros Hin. apply Hs. now right.
Qed.

Lemma strip_delimited_absent (q : ascii) (s : text) :
  ~ In q s -> strip_delimited (triple q) s = s.
Proof.
  intros Hq. unfold strip_delimited, split.
  rewrite <- (app_nil_r s) at 1.
  rewrite split_go_segment by exact Hq.
  reflexivity.
Qed.

Lemma lstrip_head (chars s : text) (c : ascii) (rest : text) :
  lstrip chars s = c :: rest -> existsb (Ascii.eqb c) chars = false.
Proof.
  induction s as [|a s IH]; simpl; [discriminate|].
  destruct (existsb (Ascii.eqb a) chars) eqn:E; [exact IH|].
  intros H; inversion H; subst. exact E.
Qed.

(** X15.  [remove_docstrings] on a text with neither kind of quote only
    rewrites an empty indented line after a colon and strips the leading
    newlines; and on any text, what it returns does not start with a
    newline. *)
Theorem remove_docstrings_without_quotes :
  (forall s : text,
      ~ In dquote s -> ~ In squote s ->
      remove_docstrings s
      = lstrip [newline]
          (replace (str ":" ++ [newline] ++ str "    " ++ [newline])
             (str ":" ++ [newline]) s))
  /\ (forall s rest : text, remove_docstrings s <> newline :: rest).
Proof.
  split.
  - intros s Hd Hs. unfold remove_docstrings.
    assert (E1 : replace (str "FIX = " ++ triple dquote) (triple dquote) s = s).
    { apply (replace_go_absent _ _ _ dquote); [|exact Hd].
      apply in_or_app. right. now left. }
    rewrite E1, (strip_delimited_absent _ _ Hd).
    assert (E2 : replace (str "FIX = " ++ triple squote) (triple squote) s = s).
    { apply (replace_go_absent _ _ _ squote); [|exact Hs].
      apply in_or_app. right. now left. }
    now rewrite E2, (strip_delimited_absent _ _ Hs).
  - intros s rest H. unfold remove_docstrings in H.
    apply lstrip_head in H. discriminate H.
Qed.

Lemma remove_docstrings_without_quotes_witness :
  remove_docstrings ([newline] ++ str "def f(x):" ++ [newline]
                     ++ str "    return x")
  = str "def f(x):" ++ [newline] ++ str "    return x".
Proof.
  refine (proj1 remove_docstrings_without_quotes _ _ _);
    intros H; simpl in H; repeat destruct H as [H|H];
    try discriminate; contradiction.
Defined.

(** ** Induction on statements *)

Section StmtInduction.

Variable P : ast_stmt.stmt -> Prop.

Hypothesis HFunctionDef :
  forall fname fargs body decorator_list returns,
    Forall P body ->
    P (ast_stmt.FunctionDef fname fargs body decorator_list returns).
Hypothesis HReturn : forall value, P (ast_stmt.Return value).
Hypothesis HAssign : forall targets value, P (ast_stmt.Assign targets value).
Hypothesis HAugAssign :
  forall target op value, P (ast_stmt.AugAssign target op value).
Hypothesis HAnnAssign :
  forall target annotation value,
    P (ast_stmt.AnnAssign target annotation value).
Hypothesis HFor :
  forall target iter body orelse,
    Forall P body -> Forall P orelse ->
    P (ast_stmt.For target iter body orelse).
Hypothesis HWhile :
  forall test body orelse,
    Forall P body -> Forall P orelse -> P (ast_stmt.While test body orelse).
Hypothesis HIf :
  forall test body orelse,
    Forall P body -> Forall P orelse -> P (ast_stmt.If test body orelse).
Hypothesis HImport : forall names, P (ast_stmt.Import names).
Hypothesis HImportFrom :
  forall module names level, P (ast_stmt.ImportFrom module names level).
Hypothesis HExpr : forall value, P (ast_stmt.Expr value).
Hypothesis HPass : P ast_stmt.Pass.

Lemma stmt_induction : forall s, P s.
Proof.
  fix IH 1.
  assert (IHs : forall ss, Forall P ss).
  { induction ss as [|s ss IHss]; constructor; [apply IH | exact IHss]. }
  intros [fname fargs body decorator_list returns|value|targets value
         |target op value|target annotation value|target iter body orelse
         |test body orelse|test body orelse|names|module names level
         |value|].
  - apply HFunctionDef, IHs.
  - apply HReturn.
  - apply HAssign.
  - apply HAugAssign.
  - apply HAnnAssign.
  - apply HFor; apply IHs.
  - apply HWhile; apply IHs.
  - apply HIf; apply IHs.
  - apply HImport.
  - apply HImportFrom.
  - apply HExpr.
  - apply HPass.
Qed.

End StmtInduction.

(** ** The annotation remover *)

Lemma filter_map_hint_free (body : list ast_stmt.stmt) :
  Forall (fun s => forall s', remove_hints s = Some s' ->
                              hint_free s' = true) body ->
  forallb hint_free (filter_map remove_hints body) = true.
Proof.
  induction 1 as [|s body Hs _ IH]; simpl; [reflexivity|].
  destruct (remove_hints s) as [s'|] eqn:E; [|exact IH].
  simpl. now rewrite (Hs s' eq_refl), IH.
Qed.

Lemma clear_args_hint_free (l : list ast_stmt.arg) :
  forallb (fun a => match ast_stmt.annotation a with
                    | None => true
                    | Some _ => false
                    end) (map clear_annotation l) = true.
Proof. induction l; simpl; auto. Qed.

Lemma forallb_filter {A : Type} (f : A -> bool) (l : list A) :
  forallb f (filter f l) = true.
Proof.
  induction l as [|a l IH]; simpl; [reflexivity|].
  destruct (f a) eqn:E; simpl; [now rewrite E|exact IH].
Qed.

Lemma remove_hints_hint_free :
  forall s s', remove_hints s = Some s' -> hint_free s' = true.
Proof.
  intros s.
  induction s as
      [fname fargs body decorator_list returns IHbody|value|targets value
         |target op value|target annotation value
         |target iter body orelse IHbody IHorelse
         |test body orelse IHbody IHorelse|test body orelse IHbody IHorelse
         |names|module names level|value|] using stmt_induction; intros s' Hs; cbn [remove_hints] in Hs.
  - inversion Hs; subst. cbn [hint_free ast_stmt.args clear_args].
    now rewrite clear_args_hint_free, filter_map_hint_free.
  - now inversion Hs.
  - now inversion Hs.
  - now inversion Hs.
  - destruct value; inversion Hs; subst. reflexivity.
  - inversion Hs; subst. cbn [hint_free].
    now rewrite !filter_map_hint_free.
  - inversion Hs; subst. cbn [hint_free].
    now rewrite !filter_map_hint_free.
  - inversion Hs; subst. cbn [hint_free].
    now rewrite !filter_map_hint_free.
  - destruct (is_empty (filter (fun n => negb (is_typing n)) names)) eqn:E;
      inversion Hs; subst.
    cbn [hint_free]. now rewrite forallb_filter, E.
  - destruct module as [m|]; [|now inversion Hs].
    destruct (String.eqb m "typing") eqn:E; inversion Hs; subst.
    cbn [hint_free]. now rewrite E.
  - now inversion Hs.
  - now inversion Hs.
Qed.

Lemma filter_map_fixed (body : list ast_stmt.stmt) :
  Forall (fun s => hint_free s = true -> remove_hints s = Some s) body ->
  forallb hint_free body = true ->
  filter_map remove_hints body = body.
Proof.
  induction 1 as [|s body Hs _ IH]; simpl; [reflexivity|].
  intros H. apply andb_true_iff in H as [H1 H2].
  now rewrite (Hs H1), (IH H2).
Qed.

Lemma clear_args_fixed (l : list ast_stmt.arg) :
  forallb (fun a => match ast_stmt.annotation a with
                    | None => true
                    | Some _ => false
                    end) l = true ->
  map clear_annotation l = l.
Proof.
  induction l as [|[n [e|]] l IH]; simpl; intros H;
    try discriminate; [reflexivity|].
  now rewrite (IH H).
Qed.

Lemma filter_fixed {A : Type} (f : A -> bool) (l : list A) :
  forallb f l = true -> filter f l = l.
Proof.
  induction l as [|a l IH]; simpl; [reflexivity|].
  intros H. apply andb_true_iff in H as [H1 H2].
  now rewrite H1, (IH H2).
Qed.

Lemma remove_hints_fixed :
  forall s, hint_free s = true -> remove_hints s = Some s.
Proof.
  intros s.
  induction s as
      [fname fargs body decorator_list returns IHbody|value|targets value
         |target op value|target annotation value
         |target iter body orelse IHbody IHorelse
         |test body orelse IHbody IHorelse|test body orelse IHbody IHorelse
         |names|module names level|value|] using stmt_induction; intros Hf;
    cbn [remove_hints hint_free] in *;
    repeat match goal with
           | H : _ && _ = true |- _ => apply andb_true_iff in H as [? ?]
           end;
    try reflexivity; try discriminate.
  - destruct returns; [discriminate|].
    destruct fargs as [po ar va kw kd kwa de]. unfold clear_args.
    cbn [ast_stmt.posonlyargs ast_stmt.args ast_stmt.vararg
         ast_stmt.kwonlyargs ast_stmt.kw_defaults ast_stmt.kwarg
         ast_stmt.defaults] in *.
    now rewrite clear_args_fixed, filter_map_fixed.
  - now rewrite !filter_map_fixed.
  - now rewrite !filter_map_fixed.
  - now rewrite !filter_map_fixed.
  - rewrite filter_fixed by assumption.
    destruct (is_empty names); [discriminate|reflexivity].
  - destruct module as [m|]; [|reflexivity].
    destruct (String.eqb m "typing"); [discriminate|reflexivity].
Qed.

(** X16.  What [TypeHintRemover] returns holds, at any depth, no
    annotated assignment, no return annotation, no annotation on a
    parameter of [args.args] and no import of the module [typing]. *)
Theorem remove_hints_module_hint_free :
  forall body : list ast_stmt.stmt,
    forallb hint_free (remove_hints_module body) = true.
Proof.
  intros body. apply filter_map_hint_free, Forall_forall.
  intros s _. apply remove_hints_hint_free.
Qed.

(** X17.  On a program that holds none of those, [TypeHintRemover]
    changes nothing; applied twice it gives what it gives applied once. *)
Theorem remove_hints_module_idempotent :
  (forall body : list ast_stmt.stmt,
      forallb hint_free body = true -> remove_hints_module body = body)
  /\ (forall body : list ast_stmt.stmt,
         remove_hints_module (remove_hints_module body)
         = remove_hints_module body).
Proof.
  assert (H : forall body : list ast_stmt.stmt,
             forallb hint_free body = true ->
             remove_hints_module body = body).
  { intros body. apply filter_map_fixed, Forall_forall.
    intros s _. apply remove_hints_fixed. }
  split; [exact H|].
  intros body. apply H, filter_map_hint_free, Forall_forall.
  intros s _. apply remove_hints_hint_free.
Qed.

Lemma remove_hints_module_idempotent_witness :
  let f := ast_stmt.FunctionDef "f"
             (ast_stmt.mk_arguments []
                [ast_stmt.mk_arg "x" None] None [] [] None [])
             [ast_stmt.Return (Some (ast.Name "x"))] [] None in
  remove_hints_module [ast_stmt.Import [ast_stmt.mk_alias "re" None]; f]
  = [ast_stmt.Import [ast_stmt.mk_alias "re" None]; f].
Proof.
  intros f.
  exact (proj1 remove_hints_module_idempotent
           [ast_stmt.Import [ast_stmt.mk_alias "re" None]; f] eq_refl).
Defined.

(** ** The assignment visitors *)

Lemma of_res_Done {A : Type} (r : res A) (a : A) :
  of_res r = Done a -> r = Ok a.
Proof. destruct r; intros H; inversion H; reflexivity. Qed.

Lemma of_res_Fail {A : Type} (r : res A) (x : raised) :
  of_res r = Fail x -> exists e, x = Exception e.
Proof. destruct r; intros H; inversion H; eauto. Qed.

(** X18.  [visit_Assign] raises [NotImplementedError] exactly on an
    assignment with more than one target, one of which is a subscript:
    whatever else the statement holds, nothing of it is visited
    before. *)
Theorem visit_Assign_multiple_targets :
  forall (targets : list ast.expr) (value : ast.expr),
    visit_stmt (ast_stmt.Assign targets value) = Fail NotImplementedError
    <-> existsb is_Subscript targets = true /\ (1 < length targets)%nat.
Proof.
  intros targets value. cbn [visit_stmt]. unfold visit_Assign.
  destruct (existsb is_Subscript targets) eqn:He; cbn [negb].
  - destruct (1 <? length targets)%nat eqn:Hl.
    + split; [|reflexivity].
      intros _. split; [reflexivity | now apply Nat.ltb_lt].
    + split.
      * intros H. exfalso.
        destruct targets as [|[] ?]; try discriminate H;
          apply of_res_Fail in H as [e H]; discriminate H.
      * intros [_ H]. apply Nat.ltb_lt in H. congruence.
  - split.
    + intros H. apply of_res_Fail in H as [e H]. discriminate H.
    + intros [H _]. discriminate H.
Qed.

Lemma visit_Slice_is_Slice (p : parent) (lower upper step : option ast.expr)
    (slice' : ast.expr) :
  visit p (ast.Slice lower upper step) = Ok slice' ->
  is_Slice slice' = true.
Proof.
  cbn [visit].
  destruct (mapM_option (visit ParentOther) lower); try discriminate.
  destruct (mapM_option (visit ParentOther) upper); try discriminate.
  destruct (mapM_option (visit ParentOther) step); try discriminate.
  cbn [bind]. intros H; inversion H; reflexivity.
Qed.

(** X19.  An augmented assignment through a slice, [lhs[a:b] op= value],
    is never rewritten: when the visit of its parts raises nothing, the
    statement that [visit_AugAssign] writes out for its assertion is not
    Python and the visit ends in [SyntaxError].  The plain assignment to
    the same slice is rewritten. *)
Theorem visit_AugAssign_slice :
  forall (lhs : ast.expr) (lower upper step : option ast.expr)
         (op : ast.operator) (value : ast.expr),
    let target := ast.Subscript lhs (ast.Slice lower upper step) in
    (forall node', visit_stmt (ast_stmt.AugAssign target op value)
                   <> Done node')
    /\ forall lhs' slice' value',
        visit ParentOther lhs = Ok lhs' ->
        visit ParentOther (ast.Slice lower upper step) = Ok slice' ->
        visit ParentOther value = Ok value' ->
        visit_stmt (ast_stmt.AugAssign target op value) = Fail SyntaxError
        /\ visit_stmt (ast_stmt.Assign [target] value)
           = Done (ast_stmt.If (isinstance_sequence lhs')
                     [ast_stmt.Assign
                        [ast.Subscript lhs' (expand_idx slice')] value']
                     [ast_stmt.Assign [ast.Subscript lhs' slice'] value']).
Proof.
  intros lhs lower upper step op value target. subst target.
  cbn [visit_stmt]. unfold visit_AugAssign, visit_Assign.
  cbn [types_we_know_how_to_handle assert of_res stmt_bind existsb
       is_Subscript orb negb length Nat.ltb Nat.leb bind].
  split.
  - intros node'.
    destruct (visit ParentOther lhs) as [lhs'| | |];
      cbn [of_res stmt_bind]; try discriminate.
    destruct (visit ParentOther (ast.Slice lower upper step))
      as [slice'| | |] eqn:Hs; cbn [of_res stmt_bind]; try discriminate.
    destruct (visit ParentOther value) as [value'| | |];
      cbn [of_res stmt_bind]; try discriminate.
    now rewrite (visit_Slice_is_Slice _ _ _ _ _ Hs).
  - intros lhs' slice' value' Hl Hs Hv.
    rewrite Hl, Hs, Hv. cbn [of_res stmt_bind bind].
    now rewrite (visit_Slice_is_Slice _ _ _ _ _ Hs).
Qed.

Lemma visit_AugAssign_slice_witness :
  visit_stmt
    (ast_stmt.AugAssign
       (ast.Subscript (ast.Name "a")
          (ast.Slice (Some (int_const 1)) (Some (int_const 2)) None))
       ast.Add (ast.List [int_const 3]))
  = Fail SyntaxError.
Proof.
  exact (proj1 (proj2 (visit_AugAssign_slice (ast.Name "a")
                         (Some (int_const 1)) (Some (int_const 2)) None
                         ast.Add (ast.List [int_const 3]))
                  (ast.Name "a")
                  (ast.Slice (Some (int_const 1)) (Some (int_const 2)) None)
                  (ast.List [int_const 3]) eq_refl eq_refl eq_refl)).
Defined.

(** ** The rewritten assignment at run time *)

Lemma exec_stmt_If (fuel : nat) (rho : env) (test : ast.expr)
    (body orelse : list ast_stmt.stmt) :
  exec_stmt fuel rho (ast_stmt.If test body orelse)
  = (t <- eval fuel rho test ;;
     b <- truthy t ;;
     if b then exec_body fuel rho body else exec_body fuel rho orelse)%M.
Proof. reflexivity. Qed.

Lemma exec_stmt_Assign (fuel : nat) (rho : env)
    (container idx value : ast.expr) :
  exec_stmt fuel rho (ast_stmt.Assign [ast.Subscript container idx] value)
  = (v <- eval fuel rho value ;;
     c <- eval fuel rho container ;;
     i <- eval fuel rho idx ;;
     setitem c i v)%M.
Proof. reflexivity. Qed.

Lemma exec_body_one (fuel : nat) (rho : env) (s : ast_stmt.stmt) (h : heap) :
  exec_body fuel rho [s] h = exec_stmt fuel rho s h.
Proof.
  cbn [exec_body]. unfold mbind, ret.
  now destruct (exec_stmt fuel rho s h) as [[[] h']| | |].
Qed.

Lemma py_index_range {A : Type} (s : list A) (i : Z) :
  let len := Z.of_nat (length s) in
  (- len <= i < len -> exists x, py_index s i = Ok x)
  /\ (len <= i -> py_index s i = Raise IndexError).
Proof.
  intros len. unfold py_index. fold len. cbv zeta. split.
  - intros Hi.
    set (i' := if i <? 0 then i + len else i).
    assert (Hi' : 0 <= i' < len).
    { unfold i'. destruct (Z.ltb_spec i 0); lia. }
    assert (E1 : (i' <? 0) = false) by (apply Z.ltb_ge; lia).
    assert (E2 : (len <=? i') = false) by (apply Z.leb_gt; lia).
    rewrite E1, E2. cbn [orb].
    destruct (nth_error s (Z.to_nat i')) as [x|] eqn:E; [eauto|].
    apply nth_error_None in E. unfold len in Hi'. lia.
  - intros Hi.
    assert (E0 : (i <? 0) = false) by (apply Z.ltb_ge; lia).
    rewrite E0, E0.
    assert (E2 : (len <=? i) = true) by (apply Z.leb_le; lia).
    now rewrite E2.
Qed.

Lemma setitem_list (h : heap) (ref : nat) (items : list value) (i : Z)
    (x : value) :
  nth_error h ref = Some items ->
  setitem (VList ref) (VInt i) x h
  = bind (py_index items i)
      (fun _ =>
         let i' := if i <? 0 then i + Z.of_nat (length items) else i in
         Ok (tt, set_nth ref (set_nth (Z.to_nat i') x items) h)).
Proof.
  intros Hr. cbn [setitem as_int]. unfold mbind, read_list. rewrite Hr.
  unfold lift. now destruct (py_index items i).
Qed.

(** The rewritten assignment to an item of a list, when the three
    expressions leave the store as it is: the index is shifted, then the
    item is stored. *)
Lemma exec_rewritten_Assign (fuel : nat) (rho : env)
    (lhs' slice' value' : ast.expr) (h : heap) (ref : nat) (n : Z)
    (x : value) :
  standard_names rho ->
  eval fuel rho value' h = Ok (x, h) ->
  eval fuel rho lhs' h = Ok (VList ref, h) ->
  eval fuel rho slice' h = Ok (VInt n, h) ->
  exec_stmt fuel rho
    (ast_stmt.If (isinstance_sequence lhs')
       [ast_stmt.Assign [ast.Subscript lhs' (expand_idx slice')] value']
       [ast_stmt.Assign [ast.Subscript lhs' slice'] value']) h
  = bind (shifted_index n) (fun n' => setitem (VList ref) (VInt n') x h).
Proof.
  intros Hstd Hv Hl Hs.
  rewrite exec_stmt_If. unfold mbind at 1.
  rewrite (isinstance_sequence_eval _ _ _ _ Hstd). unfold mbind at 1.
  rewrite Hl. cbn [ret is_sequence]. unfold mbind at 1.
  rewrite truthy_VBool, exec_body_one, exec_stmt_Assign.
  unfold mbind. rewrite Hv, Hl.
  rewrite (expand_idx_int _ _ _ _ _ _ Hs), (shift_idx_pure _ _ _ _ _ Hs).
  now destruct (shifted_index n).
Qed.

(** X20.  The rewritten [lhs[idx] = value] on a list, when the three
    expressions leave the store as it is and the index is an integer [n]:
    for [n] from 1 to the length it stores the value at the [n]-th item,
    counting from one; for [n = 0] it raises [ZeroDivisionError]; for [n]
    above the length it raises [IndexError]; for a negative [n] it stores
    where Python does, counting from the end. *)
Theorem visit_Assign_one_based :
  forall (lhs slice rhs : ast.expr) (node' : ast_stmt.stmt),
    visit_stmt (ast_stmt.Assign [ast.Subscript lhs slice] rhs)
    = Done node' ->
    exists lhs' slice' value',
      visit ParentOther lhs = Ok lhs'
      /\ visit ParentOther slice = Ok slice'
      /\ visit ParentOther rhs = Ok value'
      /\ forall (fuel : nat) (rho : env) (h : heap) (ref : nat)
                (items : list value) (n : Z) (x : value),
          standard_names rho ->
          eval fuel rho value' h = Ok (x, h) ->
          eval fuel rho lhs' h = Ok (VList ref, h) ->
          nth_error h ref = Some items ->
          eval fuel rho slice' h = Ok (VInt n, h) ->
          let len := Z.of_nat (length items) in
          (0 < n <= len ->
           exec_stmt fuel rho node' h
           = Ok (tt, set_nth ref (set_nth (Z.to_nat (n - 1)) x items) h))
          /\ (n = 0 -> exec_stmt fuel rho node' h = Raise ZeroDivisionError)
          /\ (len < n -> exec_stmt fuel rho node' h = Raise IndexError)
          /\ (- len <= n < 0 ->
              exec_stmt fuel rho node' h
              = Ok (tt,
                    set_nth ref (set_nth (Z.to_nat (n + len)) x items) h)).
Proof.
  intros lhs slice rhs node'.
  cbn [visit_stmt]. unfold visit_Assign.
  cbn [existsb is_Subscript orb negb length Nat.ltb Nat.leb].
  intros H. apply of_res_Done in H. unfold assert in H.
  destruct (types_we_know_how_to_handle slice); [|discriminate H].
  cbn [bind] in H.
  destruct (visit ParentOther lhs) as [lhs'| | |]; try discriminate H.
  destruct (visit ParentOther slice) as [slice'| | |]; try discriminate H.
  destruct (visit ParentOther rhs) as [value'| | |]; try discriminate H.
  cbn [bind] in H. inversion H; subst node'; clear H.
  exists lhs', slice', value'. repeat split.
  all: rewrite (exec_rewritten_Assign _ _ _ _ _ _ _ _ _ H H0 H1 H3);
    unfold shifted_index.
  - intros Hn.
    destruct (Z.gtb_spec n 0); [|lia]. cbn [bind].
    rewrite (setitem_list _ _ _ _ _ H2).
    destruct (proj1 (py_index_range items (n - 1))) as [y ->]; [lia|].
    cbn [bind]. cbv zeta.
    destruct (Z.ltb_spec (n - 1) 0); [lia | reflexivity].
  - intros ->. reflexivity.
  - intros Hn.
    destruct (Z.gtb_spec n 0); [|lia]. cbn [bind].
    rewrite (setitem_list _ _ _ _ _ H2).
    now rewrite (proj2 (py_index_range items (n - 1))) by lia.
  - intros Hn.
    destruct (Z.gtb_spec n 0); [lia|].
    destruct (Z.ltb_spec n 0); [|lia]. cbn [bind].
    rewrite (setitem_list _ _ _ _ _ H2).
    destruct (proj1 (py_index_range items n)) as [y ->]; [lia|].
    cbn [bind]. cbv zeta.
    destruct (Z.ltb_spec n 0); [reflexivity | lia].
Qed.

Lemma visit_Assign_one_based_witness :
  let rho := [("a"%string, VList 0)] in
  let h := [[VInt 10; VInt 20; VInt 30]] in
  exists node',
    visit_stmt
      (ast_stmt.Assign [ast.Subscript (ast.Name "a") (int_const 2)]
         (int_const 7)) = Done node'
    /\ exec_stmt 0 rho node' h = Ok (tt, [[VInt 10; VInt 7; VInt 30]]).
Proof.
  intros rho h. eexists; split; [reflexivity|].
  destruct (visit_Assign_one_based (ast.Name "a") (int_const 2)
              (int_const 7) _ eq_refl)
    as (lhs' & slice' & value' & Hl & Hs & Hv & H).
  injection Hl as <-. injection Hs as <-. injection Hv as <-.
  assert (Hstd : standard_names rho) by (repeat split; reflexivity).
  exact (proj1 (H 0%nat rho h 0%nat [VInt 10; VInt 20; VInt 30] 2 (VInt 7)
                  Hstd eq_refl eq_refl eq_refl eq_refl)
           ltac:(cbn; lia)).
Defined.

(** ** Subscripts in other target positions *)

Lemma visit_Subscript_not_target (p : parent) (e e' : ast.expr) :
  is_Subscript e = true -> visit p e = Ok e' -> is_target e' = false.
Proof.
  destruct e; try discriminate. intros _ H.
  apply visit_Subscript_inv in H as (_ & value' & slice' & _ & _ & ->).
  reflexivity.
Qed.

Lemma mapM_visit_not_target (p : parent) (elts elts' : list ast.expr) :
  existsb is_Subscript elts = true ->
  mapM (visit p) elts = Ok elts' ->
  forallb is_target elts' = false.
Proof.
  revert elts'. induction elts as [|e elts IH]; intros elts' He H;
    [discriminate He|].
  cbn [mapM] in H.
  destruct (visit p e) as [e'| | |] eqn:Ee; try discriminate H.
  fold (mapM (visit p) elts) in H.
  destruct (mapM (visit p) elts) as [es| | |] eqn:Es; try discriminate H.
  inversion H; subst elts'; clear H. cbn [forallb].
  cbn [existsb] in He. apply orb_true_iff in He as [He|He].
  - now rewrite (visit_Subscript_not_target _ _ _ He Ee).
  - rewrite (IH es He eq_refl). apply andb_false_r.
Qed.

(** X21.  Only a subscript that is the whole target of an assignment is
    rewritten as a target.  A subscript among the elements of a tuple
    target, as in [a[i], a[j] = a[j], a[i]], or as the target of a [for]
    loop, is rewritten like a subscript that is read: the visit succeeds
    and gives a statement whose target holds a conditional expression,
    which is none of the targets of Python. *)
Theorem visit_nested_subscript_target :
  (forall (elts : list ast.expr) (value : ast.expr)
          (node' : ast_stmt.stmt),
      existsb is_Subscript elts = true ->
      visit_stmt (ast_stmt.Assign [ast.Tuple elts] value) = Done node' ->
      exists elts' value',
        node' = ast_stmt.Assign [ast.Tuple elts'] value'
        /\ is_target (ast.Tuple elts') = false)
  /\ (forall (lhs slice iter : ast.expr) (body orelse : list ast_stmt.stmt)
             (node' : ast_stmt.stmt),
         visit_stmt (ast_stmt.For (ast.Subscript lhs slice) iter body orelse)
         = Done node' ->
         exists target' iter' body' orelse',
           node' = ast_stmt.For target' iter' body' orelse'
           /\ is_target target' = false).
Proof.
  split.
  - intros elts value node' He.
    cbn [visit_stmt]. unfold visit_Assign.
    cbn [existsb is_Subscript orb negb mapM visit].
    fold (mapM (visit ParentOther) elts).
    destruct (mapM (visit ParentOther) elts) as [elts'| | |] eqn:Es;
      cbn [bind of_res]; try discriminate.
    destruct (visit ParentOther value) as [value'| | |];
      cbn [bind of_res]; try discriminate.
    intros H; inversion H; subst node'.
    exists elts', value'. split; [reflexivity|].
    cbn [is_target]. exact (mapM_visit_not_target _ _ _ He Es).
  - intros lhs slice iter body orelse node'.
    cbn [visit_stmt].
    destruct (visit ParentOther (ast.Subscript lhs slice))
      as [target'| | |] eqn:Et; cbn [of_res stmt_bind]; try discriminate.
    destruct (visit ParentOther iter) as [iter'| | |];
      cbn [of_res stmt_bind]; try discriminate.
    destruct (stmt_mapM visit_stmt body) as [body'| | |];
      cbn [stmt_bind]; try discriminate.
    destruct (stmt_mapM visit_stmt orelse) as [orelse'| | |];
      cbn [stmt_bind]; try discriminate.
    intros H; inversion H; subst node'.
    exists target', iter', body', orelse'. split; [reflexivity|].
    exact (visit_Subscript_not_target _ (ast.Subscript lhs slice) _
             eq_refl Et).
Qed.

Lemma visit_nested_subscript_target_witness :
  let a_i := ast.Subscript (ast.Name "a") (ast.Name "i") in
  let a_j := ast.Subscript (ast.Name "a") (ast.Name "j") in
  exists node' elts' value',
    visit_stmt (ast_stmt.Assign [ast.Tuple [a_i; a_j]]
                  (ast.Tuple [a_j; a_i])) = Done node'
    /\ node' = ast_stmt.Assign [ast.Tuple elts'] value'
    /\ is_target (ast.Tuple elts') = false.
Proof.
  intros a_i a_j.
  destruct (proj1 visit_nested_subscript_target [a_i; a_j]
              (ast.Tuple [a_j; a_i]) _ eq_refl eq_refl)
    as (elts' & value' & H1 & H2).
  eexists. exists elts', value'. split; [reflexivity|]. split; assumption.
Defined.

(** ** The rewritten augmented assignment at run time *)

Lemma exec_stmt_AugAssign (fuel : nat) (rho : env)
    (container idx : ast.expr) (op : ast.operator) (rhs : ast.expr) :
  exec_stmt fuel rho
    (ast_stmt.AugAssign (ast.Subscript container idx) op rhs)
  = (c <- eval fuel rho container ;;
     i <- eval fuel rho idx ;;
     old <- subscript c i ;;
     v <- eval fuel rho rhs ;;
     new <- lift (binop op old v) ;;
     setitem c i new)%M.
Proof. reflexivity. Qed.

Lemma py_index_nth {A : Type} (s : list A) (i : Z) (x : A) :
  0 <= i ->
  nth_error s (Z.to_nat i) = Some x ->
  py_index s i = Ok x.
Proof.
  intros Hi Hx. unfold py_index. cbv zeta.
  assert (Hlen : i < Z.of_nat (length s)).
  { assert (Z.to_nat i < length s)%nat
      by (apply nth_error_Some; congruence).
    lia. }
  assert (E0 : (i <? 0) = false) by (apply Z.ltb_ge; lia).
  assert (E2 : (Z.of_nat (length s) <=? i) = false)
    by (apply Z.leb_gt; lia).
  now rewrite E0, E0, E2, Hx.
Qed.

Lemma subscript_list_int (h : heap) (ref : nat) (items : list value)
    (i : Z) :
  nth_error h ref = Some items ->
  subscript (VList ref) (VInt i) h
  = bind (py_index items i) (fun x => Ok (x, h)).
Proof.
  intros Hr. cbn [subscript getitem_sequence as_int].
  unfold mbind, read_list. rewrite Hr. unfold lift.
  now destruct (py_index items i).
Qed.

(** X22.  The rewritten [lhs[idx] op= value] on a list, when the three
    expressions leave the store as it is and the index is an integer [n]:
    for [n] from 1 to the length, the [n]-th item, counting from one, is
    replaced by the result of the operation on it; for [n = 0] the
    statement raises [ZeroDivisionError]. *)
Theorem visit_AugAssign_one_based :
  forall (lhs slice : ast.expr) (op : ast.operator) (rhs : ast.expr)
         (node' : ast_stmt.stmt),
    visit_stmt (ast_stmt.AugAssign (ast.Subscript lhs slice) op rhs)
    = Done node' ->
    exists lhs' slice' value',
      visit ParentOther lhs = Ok lhs'
      /\ visit ParentOther slice = Ok slice'
      /\ visit ParentOther rhs = Ok value'
      /\ forall (fuel : nat) (rho : env) (h : heap) (ref : nat)
                (items : list value) (n : Z) (x : value),
          standard_names rho ->
          eval fuel rho value' h = Ok (x, h) ->
          eval fuel rho lhs' h = Ok (VList ref, h) ->
          nth_error h ref = Some items ->
          eval fuel rho slice' h = Ok (VInt n, h) ->
          (forall old new,
              0 < n ->
              nth_error items (Z.to_nat (n - 1)) = Some old ->
              binop op old x = Ok new ->
              exec_stmt fuel rho node' h
              = Ok (tt,
                    set_nth ref (set_nth (Z.to_nat (n - 1)) new items) h))
          /\ (n = 0 -> exec_stmt fuel rho node' h = Raise ZeroDivisionError).
Proof.
  intros lhs slice op rhs node'.
  cbn [visit_stmt]. unfold visit_AugAssign, assert.
  destruct (types_we_know_how_to_handle slice);
    cbn [of_res stmt_bind]; [|discriminate].
  destruct (visit ParentOther lhs) as [lhs'| | |];
    cbn [of_res stmt_bind]; try discriminate.
  destruct (visit ParentOther slice) as [slice'| | |];
    cbn [of_res stmt_bind]; try discriminate.
  destruct (visit ParentOther rhs) as [value'| | |];
    cbn [of_res stmt_bind]; try discriminate.
  destruct (is_Slice slice'); [discriminate|].
  intros H; inversion H; subst node'; clear H.
  exists lhs', slice', value'.
  split; [reflexivity|]. split; [reflexivity|]. split; [reflexivity|].
  intros fuel rho h ref items n x Hstd Hv Hl Hr Hs.
  assert (E : exec_stmt fuel rho
                (ast_stmt.If (isinstance_sequence lhs')
                   [ast_stmt.AugAssign
                      (ast.Subscript lhs' (expand_idx slice')) op value']
                   [ast_stmt.AugAssign (ast.Subscript lhs' slice') op
                      value']) h
              = bind (shifted_index n)
                  (fun n' =>
                     (old <- subscript (VList ref) (VInt n') ;;
                      v <- eval fuel rho value' ;;
                      new <- lift (binop op old v) ;;
                      setitem (VList ref) (VInt n') new)%M h)).
  { rewrite exec_stmt_If. unfold mbind at 1.
    rewrite (isinstance_sequence_eval _ _ _ _ Hstd). unfold mbind at 1.
    rewrite Hl. cbn [ret is_sequence]. unfold mbind at 1.
    rewrite truthy_VBool, exec_body_one, exec_stmt_AugAssign.
    unfold mbind at 1. rewrite Hl. unfold mbind at 1.
    rewrite (expand_idx_int _ _ _ _ _ _ Hs), (shift_idx_pure _ _ _ _ _ Hs).
    now destruct (shifted_index n). }
  rewrite E. unfold shifted_index. split.
  - intros old new Hn Hold Hnew.
    destruct (Z.gtb_spec n 0); [|lia]. cbn [bind].
    assert (Hp : py_index items (n - 1) = Ok old)
      by (apply py_index_nth; [lia | assumption]).
    unfold mbind.
    rewrite (subscript_list_int _ _ _ _ Hr), Hp. cbn [bind].
    rewrite Hv. unfold lift. rewrite Hnew. cbn [bind].
    rewrite (setitem_list _ _ _ _ _ Hr), Hp. cbn [bind]. cbv zeta.
    destruct (Z.ltb_spec (n - 1) 0); [lia | reflexivity].
  - intros ->. reflexivity.
Qed.

Lemma visit_AugAssign_one_based_witness :
  let rho := [("a"%string, VList 0)] in
  let h := [[VInt 10; VInt 20; VInt 30]] in
  exists node',
    visit_stmt
      (ast_stmt.AugAssign (ast.Subscript (ast.Name "a") (int_const 2))
         ast.Add (int_const 7)) = Done node'
    /\ exec_stmt 0 rho node' h = Ok (tt, [[VInt 10; VInt 27; VInt 30]]).
Proof.
  intros rho h. eexists; split; [reflexivity|].
  destruct (visit_AugAssign_one_based (ast.Name "a") (int_const 2) ast.Add
              (int_const 7) _ eq_refl)
    as (lhs' & slice' & value' & Hl & Hs & Hv & H).
  injection Hl as <-. injection Hs as <-. injection Hv as <-.
  assert (Hstd : standard_names rho) by (repeat split; reflexivity).
  exact (proj1 (H 0%nat rho h 0%nat [VInt 10; VInt 20; VInt 30] 2 (VInt 7)
                  Hstd eq_refl eq_refl eq_refl eq_refl)
           (VInt 20) (VInt 27) ltac:(lia) eq_refl eq_refl).
Defined.

(** ** The values that [check_asserts_pass] takes *)

Lemma extract_calls_span_count (s : text) (spans : list (Z * Z))
    (calls : list text) :
  extract_calls s = Ok (spans, calls) ->
  length spans = length (occurrences candidate s).
Proof.
  intros H. unfold extract_calls, assert in H.
  destruct (contains candidate s); cbn [bind] in H; [|discriminate].
  apply extract_loop_starts in H as [Hs _].
  cbn [skipn map app] in Hs. rewrite occurrences_at_0 in Hs.
  apply (f_equal (@length Z)) in Hs. now rewrite !length_map in Hs.
Qed.

(** X23.  [check_asserts_pass] wants one value for every occurrence of
    [candidate(] in the prompt, the solution and the test taken together:
    with values in square brackets of any other number it raises
    [ValueError], whatever running the program would do. *)
Theorem check_asserts_pass_value_count :
  forall (exec : text -> res text) (obj : benchmark)
         (spans : list (Z * Z)) (calls values : list text),
    let program := prompt obj ++ canonical_solution obj ++ test obj in
    extract_calls program = Ok (spans, calls) ->
    length values <> length (occurrences candidate program) ->
    check_asserts_pass exec obj (map bracketed values) = Raise ValueError.
Proof.
  intros exec obj spans calls values program He Hlen.
  unfold check_asserts_pass. fold program. rewrite He. cbn [bind].
  unfold sub_calls. rewrite sub_calls_loop_mismatch; [reflexivity|].
  rewrite (extract_calls_span_count _ _ _ He). congruence.
Qed.

Lemma check_asserts_pass_value_count_witness :
  check_asserts_pass (fun _ => Ok [])
    (mk_benchmark (str "def f(x): ") (str "return candidate(x)")
       (str " assert candidate(1) == 1") (str "f"))
    [str "[1]"]
  = Raise ValueError.
Proof.
  exact (check_asserts_pass_value_count (fun _ => Ok [])
           (mk_benchmark (str "def f(x): ") (str "return candidate(x)")
              (str " assert candidate(1) == 1") (str "f"))
           [(17, 29); (37, 49)] [str "candidate(x)"; str "candidate(1)"]
           [str "1"] eq_refl ltac:(discriminate)).
Defined.

(** ** The assembler under a perturbation *)

Lemma extract_calls_startswith (s : text) (spans : list (Z * Z))
    (calls : list text) :
  extract_calls s = Ok (spans, calls) ->
  forallb (startswith candidate) calls = true.
Proof.
  intros H. unfold extract_calls, assert in H.
  destruct (contains candidate s); cbn [bind] in H; [|discriminate].
  apply extract_loop_shape in H; [|intros i Hi|constructor].
  - apply forallb_forall. intros c Hc.
    rewrite Forall_forall in H. destruct (H c Hc) as [args ->].
    apply startswith_app.
  - now apply find_startswith in Hi.
Qed.

Lemma nodup_length_le {A : Type} (dec : forall x y : A, {x = y} + {x <> y})
    (l : list A) :
  (length (nodup dec l) <= length l)%nat.
Proof.
  induction l as [|a l IH]; simpl; [lia|].
  destruct (in_dec dec a l); simpl; lia.
Qed.

Lemma nodup_length_NoDup {A : Type}
    (dec : forall x y : A, {x = y} + {x <> y}) (l : list A) :
  length l = length (nodup dec l) -> NoDup l.
Proof.
  induction l as [|a l IH]; simpl; [constructor|].
  destruct (in_dec dec a l) as [Hin|Hin]; simpl; intros H.
  - pose proof (nodup_length_le dec l). lia.
  - constructor; [exact Hin | apply IH; lia].
Qed.

(** The list that the filtering loop is given: the deduplication of the
    formatted calls, which is the list itself when the assembler finds no
    repetition in it and skips the deduplication. *)
Lemma assemble_deduplicated (formatted_calls : list text) :
  let distinct := length (nodup (list_eq_dec ascii_dec) formatted_calls) in
  (if negb (length formatted_calls =? distinct)%nat then
     let new_formatted_calls := dedup_loop formatted_calls [] in
     _ <- assert (length new_formatted_calls
                  =? length (nodup (list_eq_dec ascii_dec)
                               new_formatted_calls))%nat ;;
     Ok (new_formatted_calls, true)
   else Ok (formatted_calls, false))%res
  = Ok (dedup_loop formatted_calls [],
        negb (length formatted_calls =? distinct)%nat).
Proof.
  cbv zeta.
  destruct (length formatted_calls
            =? length (nodup (list_eq_dec ascii_dec) formatted_calls))%nat
    eqn:E; cbn [negb].
  - apply Nat.eqb_eq, nodup_length_NoDup in E.
    now rewrite (dedup_loop_NoDup formatted_calls []).
  - destruct (dedup_loop_spec formatted_calls [] (NoDup_nil _)) as [Hn _].
    now rewrite (nodup_fixed_point _ Hn), Nat.eqb_refl.
Qed.

(** With a perturbation, a context free of hints, a test that holds the
    header of [check] once and calls that [extract_calls] finds: the
    assembler is the filtering loop, from index 0 on the deduplicated
    formatted calls, followed by the run of the assembled program. *)
Lemma assemble_with_filter (exec rewrite hints : text -> res text)
    (obj : benchmark) (pf : text) (fn_name : option text)
    (context0 before test_body : text) (spans : list (Z * Z))
    (calls : list text) :
  hints (remove_docstrings (prompt obj) ++ canonical_solution obj)
  = Ok context0 ->
  split (str "def check(candidate):" ++ [newline]) (test obj)
  = [before; test_body] ->
  extract_calls test_body = Ok (spans, calls) ->
  let context :=
    match fn_name with
    | Some fn => replace (entry_point obj ++ [lparen]) (fn ++ [lparen]) context0
    | None => context0
    end in
  let entry :=
    match fn_name with
    | Some fn => fn
    | None => entry_point obj
    end in
  let formatted := map (format_call entry) calls in
  let flag :=
    negb (length formatted
          =? length (nodup (list_eq_dec ascii_dec) formatted))%nat in
  assemble_program_with_calls exec rewrite hints obj (Some pf) fn_name
  = (st <- filter_loop exec rewrite context pf 0 (dedup_loop formatted [])
             (mk_filter flag [] []) ;;
     let program :=
       context ++ [newline; newline]
         ++ join [newline] (filtered_formatted_calls st) in
     _ <-
       (if negb (filtered st) then
          out <- eval_program_with_calls exec rewrite program None true ;;
          match out with
          | Some lines => check_asserts_pass exec obj lines
          | None => Raise TypeError
          end
        else if negb (is_empty (filtered_formatted_calls st)) then
          _ <- eval_program_with_calls exec rewrite program None true ;; Ok tt
        else Ok tt) ;;
     Ok (program, filtered_call_indices st))%res.
Proof.
  intros Hh Hs He context entry formatted flag.
  unfold assemble_program_with_calls.
  rewrite Hh. cbn [bind].
  destruct fn_name as [fn|]; rewrite Hs; cbn [bind]; rewrite He;
    cbn [bind]; rewrite (extract_calls_startswith _ _ _ He);
    unfold assert at 1; cbn [bind]; cbv zeta;
    rewrite assemble_deduplicated; reflexivity.
Qed.

(** C5.  [assemble_program_with_calls] with a perturbation runs every
    call of the deduplicated list of formatted calls on its own, as the
    program made of the context and of that call, under the perturbation.
    When the assembler returns, the indices it returns are, in order, the
    positions in the deduplicated list of the calls whose run did not
    raise [ZeroDivisionError], and the program it returns holds the calls
    at these positions and no other.  When the run of a call raises
    anything else, the calls before it having been dropped or kept, the
    assembler raises that same exception. *)
Theorem assemble_program_with_calls_perturbation :
  forall (exec rewrite hints : text -> res text) (obj : benchmark)
         (pf : text) (fn_name : option text)
         (context0 before test_body : text) (spans : list (Z * Z))
         (calls : list text),
    hints (remove_docstrings (prompt obj) ++ canonical_solution obj)
    = Ok context0 ->
    split (str "def check(candidate):" ++ [newline]) (test obj)
    = [before; test_body] ->
    extract_calls test_body = Ok (spans, calls) ->
    let context :=
      match fn_name with
      | Some fn =>
          replace (entry_point obj ++ [lparen]) (fn ++ [lparen]) context0
      | None => context0
      end in
    let entry :=
      match fn_name with
      | Some fn => fn
      | None => entry_point obj
      end in
    let deduplicated := dedup_loop (map (format_call entry) calls) [] in
    let run := fun call =>
      eval_program_with_calls exec rewrite
        (context ++ [newline; newline] ++ call) (Some pf) true in
    let survives := fun call => negb (is_zero_division (run call)) in
    (forall program indices,
        assemble_program_with_calls exec rewrite hints obj (Some pf) fn_name
        = Ok (program, indices) ->
        indices
        = filter (fun i => survives (nth i deduplicated []))
            (seq 0 (length deduplicated))
        /\ program
           = context ++ [newline; newline]
               ++ join [newline] (map (fun i => nth i deduplicated []) indices))
    /\
    (forall pre call post e,
        deduplicated = pre ++ call :: post ->
        Forall (fun c => run c = Raise ZeroDivisionError
                         \/ exists line, run c = Ok (Some [line])) pre ->
        run call = Raise e ->
        e <> ZeroDivisionError ->
        assemble_program_with_calls exec rewrite hints obj (Some pf) fn_name
        = Raise e).
Proof.
  intros exec rewrite hints obj pf fn_name context0 before test_body spans
    calls Hh Hs He context entry deduplicated run survives.
  pose proof (assemble_with_filter exec rewrite hints obj pf fn_name
                context0 before test_body spans calls Hh Hs He) as Hu.
  cbv zeta in Hu. fold context entry in Hu. fold deduplicated in Hu.
  destruct (filter_loop_outcome exec rewrite context pf deduplicated
              (negb (length (map (format_call entry) calls)
                     =? length (nodup (list_eq_dec ascii_dec)
                                  (map (format_call entry) calls)))%nat))
    as [Hok Hraise].
  split.
  - intros program indices H. rewrite Hu in H.
    destruct (filter_loop exec rewrite context pf 0 deduplicated _)
      as [st| | |] eqn:Hst; try discriminate H.
    cbn [bind] in H.
    destruct (Hok st eq_refl) as (Hi & Hc & _).
    match type of H with
    | bind ?m _ = _ => destruct m as [[]| | |]; try discriminate H
    end.
    cbn [bind] in H. inversion H; subst program indices; clear H.
    split; [exact Hi|]. now rewrite Hc.
  - intros pre call post e Hd Hpre Hrun Hne.
    rewrite Hu, (Hraise pre call post e Hd Hpre Hrun Hne). reflexivity.
Qed.

Lemma assemble_program_with_calls_perturbation_witness :
  let exec := fun p : text =>
    if contains (str "[0]") p then Raise ZeroDivisionError
    else Ok (str "[7]" ++ [newline]) in
  let obj :=
    mk_benchmark (str "def f(x):" ++ [newline])
      (str "    return x" ++ [newline])
      (str "def check(candidate):" ++ [newline]
         ++ str "    assert candidate([7][0]) == 7" ++ [newline]
         ++ str "    assert candidate([7][1]) == 7" ++ [newline]
         ++ str "    assert candidate([7][0]) == 7" ++ [newline])
      (str "f") in
  exists program,
    assemble_program_with_calls exec (@Ok text) (@Ok text) obj
      (Some (str "one_based_indexing")) None
    = Ok (program, [1%nat])
    /\ program
       = str "def f(x):" ++ [newline] ++ str "    return x" ++ [newline]
           ++ [newline; newline] ++ str "print([f([7][1])])".
Proof.
  intros exec obj. eexists. split; [reflexivity|].
  exact (proj2
           (proj1
              (assemble_program_with_calls_perturbation exec (@Ok text)
                 (@Ok text) obj (str "one_based_indexing") None
                 _ _ _ _ _ eq_refl eq_refl eq_refl)
              _ [1%nat] eq_refl)).
Defined.
